(** * Truck/order dispatch: feasibility, scoring, strategies, aggregation

    A shallow embedding of the assignment engine of the repository:
    - [src/dispo/dispo.py]: the canonical pipeline (feasibility analysis,
      0/1 program over the permissible pairs, result extraction);
    - [src/dispo/_archive/claude-2.py]: the greedy strategies, their score
      function and the result analysis.

    Python floats are modelled by exact numbers: rationals [Q] in the
    pipeline (plus [float('inf')] where the code produces it), reals [R]
    for the great-circle distance, whose formula needs [sin], [cos],
    [asin] and [sqrt].  Rounding errors of floating-point arithmetic are
    not modelled.  Exceptions are modelled by an error result. *)

From Stdlib Require Import List Bool Arith ZArith Lia.
From Stdlib Require Import QArith Qminmax Lqa.
From Stdlib Require Import Reals Lra.
From Stdlib Require Import String Ascii.
From Stdlib Require Import Permutation Sorting.Sorted.
Import ListNotations.

Set Implicit Arguments.

(* ================================================================== *)
(** * Part I: definitions *)
(* ================================================================== *)

(** ** Great-circle distance over the reals
    ([calculate_distance], dispo.py 100-124 and claude-2.py 240-267) *)

Module Haversine.
Local Open Scope R_scope.

(** A (latitude, longitude) tuple, in degrees. *)
Definition point : Type := (R * R)%type.

(** [math.radians] *)
Definition radians (deg : R) : R := deg * (PI / 180).

(** [math.sqrt]: raises [ValueError] on a negative argument. *)
Definition math_sqrt (x : R) : option R :=
  if Rlt_dec x 0 then None else Some (sqrt x).

(** [math.asin]: raises [ValueError] outside [-1, 1]. *)
Definition math_asin (x : R) : option R :=
  if Rlt_dec x (-1) then None
  else if Rlt_dec 1 x then None
  else Some (asin x).

(** Nearest integer, ties to the even one: the integer Python's [round]
    picks for an exact number. *)
Definition round_half_even (x : R) : Z :=
  let f := Int_part x in
  let r := x - IZR f in
  if Rlt_dec r (1 / 2) then f
  else if Rlt_dec (1 / 2) r then (f + 1)%Z
  else if Z.even f then f else (f + 1)%Z.

(** [round(x, 2)] *)
Definition round2 (x : R) : R := IZR (round_half_even (x * 100)) / 100.

(** The argument [a] of the haversine formula, from radians. *)
Definition haversine_a (lat1 lon1 lat2 lon2 : R) : R :=
  let dlat := lat2 - lat1 in
  let dlon := lon2 - lon1 in
  (sin (dlat / 2)) ^ 2 + cos lat1 * cos lat2 * (sin (dlon / 2)) ^ 2.

(** The central angle [c = 2 * asin(sqrt(a))]; [None] is a [ValueError]. *)
Definition central_angle (point1 point2 : point) : option R :=
  let '(lat1, lon1) := point1 in
  let '(lat2, lon2) := point2 in
  let a := haversine_a (radians lat1) (radians lon1)
                       (radians lat2) (radians lon2) in
  match math_sqrt a with
  | None => None
  | Some s =>
      match math_asin s with
      | None => None
      | Some h => Some (2 * h)
      end
  end.

(** dispo.py: the exception of a domain error is not caught; the result
    is rounded to two decimals. *)
Definition calculate_distance (point1 point2 : point) : option R :=
  match central_angle point1 point2 with
  | None => None
  | Some c =>
      let r := 6371 in
      let distance_km := c * r in
      Some (round2 distance_km)
  end.

(** A Python float that may be [float('inf')]. *)
Inductive xreal : Type :=
| Finite (x : R)
| Infinite.

(** claude-2.py: no rounding; any exception is caught and [float('inf')]
    returned. *)
Definition calculate_distance_archive (pos1 pos2 : point) : xreal :=
  match central_angle pos1 pos2 with
  | None => Infinite
  | Some c =>
      let radius := 6371 in
      Finite (radius * c)
  end.

Definition xreal_nonneg (d : xreal) : Prop :=
  match d with
  | Finite x => 0 <= x
  | Infinite => True
  end.

End Haversine.

(** ** Python data: numbers, exceptions, dictionaries, stable sorting *)

Module Py.
Local Open Scope Q_scope.

(** [x < y] on floats. *)
Definition Qltb (x y : Q) : bool := negb (Qle_bool y x).

(** A float that may be [float('inf')]. *)
Inductive num : Type :=
| Fin (q : Q)
| Inf.

Definition num_add (a b : num) : num :=
  match a, b with
  | Fin x, Fin y => Fin (x + y)
  | _, _ => Inf
  end.

(** [a - y] for a finite [y]. *)
Definition num_sub (a : num) (y : Q) : num :=
  match a with
  | Fin x => Fin (x - y)
  | Inf => Inf
  end.

(** [max(a, b)] *)
Definition num_max (a b : num) : num :=
  match a, b with
  | Fin x, Fin y => Fin (Qmax x y)
  | _, _ => Inf
  end.

(** [a > b] *)
Definition num_gtb (a b : num) : bool :=
  match a, b with
  | Fin x, Fin y => Qltb y x
  | Inf, Fin _ => true
  | _, Inf => false
  end.

(** Exceptions the modelled code can raise. *)
Inductive exn : Type :=
| ValueError
| ZeroDivisionError
| RuntimeError.

Inductive result (A : Type) : Type :=
| Ok (a : A)
| Raise (e : exn).
Arguments Ok {A} a.
Arguments Raise {A} e.

Definition bind {A B : Type} (r : result A) (k : A -> result B) : result B :=
  match r with
  | Ok a => k a
  | Raise e => Raise e
  end.

(** [x / y] on floats: [ZeroDivisionError] when [y] is zero. *)
Definition py_div (x y : Q) : result Q :=
  if Qeq_bool y 0 then Raise ZeroDivisionError else Ok (x / y).

(** [sum(l)] *)
Definition Qsum (l : list Q) : Q := fold_left Qplus l 0.

(** Keys of a dictionary: a type with the equality test of [==]. *)
Class EqKey (K : Type) : Type := { keqb : K -> K -> bool }.

#[export] Instance string_EqKey : EqKey string := {| keqb := String.eqb |}.

Definition pair_eqb (a b : string * string) : bool :=
  String.eqb (fst a) (fst b) && String.eqb (snd a) (snd b).

#[export] Instance pair_EqKey : EqKey (string * string) :=
  {| keqb := pair_eqb |}.

(** The test decides equality. *)
Class EqKeyLaws (K : Type) `{EqKey K} : Prop :=
  keqb_eq : forall a b : K, keqb a b = true <-> a = b.
Arguments EqKeyLaws K {_}.

(** A [dict]: the items in insertion order, one per key. *)
Definition dict (K V : Type) : Type := list (K * V).

Section Dict.
Context {K V : Type} `{EqKey K}.

(** [d[k] = v]: an existing key keeps its place and takes the new
    value, a new key goes last. *)
Fixpoint dict_set (d : dict K V) (k : K) (v : V) : dict K V :=
  match d with
  | [] => [(k, v)]
  | (k', v') :: rest =>
      if keqb k k' then (k', v) :: rest
      else (k', v') :: dict_set rest k v
  end.

(** [d.get(k)] *)
Fixpoint dict_get (d : dict K V) (k : K) : option V :=
  match d with
  | [] => None
  | (k', v') :: rest => if keqb k k' then Some v' else dict_get rest k
  end.

(** [k in d] *)
Definition dict_mem (d : dict K V) (k : K) : bool :=
  match dict_get d k with Some _ => true | None => false end.

(** [d.keys()] *)
Definition dict_keys (d : dict K V) : list K := map fst d.
End Dict.

Section Sort.
Context {A : Type}.
(** [leb x y]: [key(x) <= key(y)]. *)
Variable leb : A -> A -> bool.

Fixpoint insert_sorted (x : A) (l : list A) : list A :=
  match l with
  | [] => [x]
  | y :: rest => if leb x y then x :: y :: rest else y :: insert_sorted x rest
  end.

(** [sorted(l, key=...)]: stable, elements with equal keys keep their
    order. *)
Definition stable_sort (l : list A) : list A :=
  fold_right insert_sorted [] l.
End Sort.

(** The order of Python's tuples [(number, string)]. *)
Definition key_le (a b : Z * string) : Prop :=
  (fst a < fst b)%Z \/ (fst a = fst b /\ String.leb (snd a) (snd b) = true).

(** [l[i] = f(l[i])] for an object reference [i] into the store [l]. *)
Fixpoint list_update {A : Type} (i : nat) (f : A -> A) (l : list A) : list A :=
  match l, i with
  | [], _ => []
  | x :: rest, O => f x :: rest
  | x :: rest, S j => x :: list_update j f rest
  end.

(** [l.remove(r)] for a list of object references. *)
Fixpoint remove_ref (r : nat) (l : list nat) : list nat :=
  match l with
  | [] => []
  | x :: rest => if Nat.eqb x r then rest else x :: remove_ref r rest
  end.

End Py.

Declare Scope py_scope.
Notation "x <- c1 ;; c2" := (Py.bind c1 (fun x => c2))
  (at level 61, c1 at next level, right associativity) : py_scope.
Notation "' pat <- c1 ;; c2" := (Py.bind c1 (fun x => match x with pat => c2 end))
  (at level 61, pat pattern, c1 at next level, right associativity) : py_scope.

(** ** The canonical pipeline (dispo.py) *)

Module Dispo.
Import Py.
Local Open Scope Q_scope.
Local Open Scope py_scope.

(** *** 1. Constants and configuration *)

Record Config : Type := {
  AVERAGE_SPEED_KMH : Q;
  PRIORITIES_MAP : list (Z * Q);
  PRIORITY_WEIGHT_FACTOR : Q;
  DISTANCE_COST_FACTOR : Q
}.

(** The values the module sets. *)
Definition constants : Config := {|
  AVERAGE_SPEED_KMH := 80;
  PRIORITIES_MAP := [(1%Z, 3); (2%Z, 2); (3%Z, 1)];
  PRIORITY_WEIGHT_FACTOR := 10000;
  DISTANCE_COST_FACTOR := 1
|}.

(** *** 2. Class definitions *)

Definition point : Type := (Q * Q)%type.

Record Truck : Type := {
  truck_id : string;
  location : point;
  capacity_kg : Q;
  available_from_h : Q;
  available_until_h : Q
}.

Record Order : Type := {
  order_id : string;
  loading_site : point;
  unloading_site : point;
  weight_kg : Q;
  loading_window_early_h : Q;
  loading_window_late_h : Q;
  loading_duration_h : Q;
  unloading_duration_h : Q;
  priority : Z
}.

(** The value stored for a permissible pair. *)
Record PairValues : Type := {
  distanz_anfahrt : Q;
  distanz_transport : Q;
  distanz_gesamt_fuer_auftrag : Q;
  prio_original : Z;
  prio_gewicht : Q;
  anfahrt_lkw_h : num;
  ladebeginn_calc_h : num;
  ladeende_calc_h : num;
  ankunft_entladestelle_calc_h : num;
  entladung_ende_calc_h : num;
  gesamtdauer_auftrag_ab_lkw_start_h : num
}.

Definition pair_key : Type := (string * string)%type.

(** What [print] writes, as far as the feasibility analysis goes. *)
Inductive output : Type :=
| MsgDeterminePairs
| MsgPairCount (n : nat).

(** [PRIORITIES_MAP.get(p, 0)] *)
Fixpoint priorities_get (m : list (Z * Q)) (p : Z) : Q :=
  match m with
  | [] => 0
  | (k, w) :: rest => if Z.eqb p k then w else priorities_get rest p
  end.

Section Pipeline.
(** The rounded great-circle distance ([Haversine.calculate_distance]),
    as a function on float coordinates. *)
Variable calculate_distance : point -> point -> Q.
Variable cfg : Config.

(** *** 3. Helper functions *)

Definition calculate_travel_time_h (distance_km : Q) : num :=
  if Qle_bool (AVERAGE_SPEED_KMH cfg) 0 then Inf
  else Fin (distance_km / AVERAGE_SPEED_KMH cfg).

(** *** 5. LP modelling functions *)

(** The body of the inner loop: [permissible_pairs] after the pair
    [(truck, order)]. *)
Definition check_pair (truck : Truck) (permissible_pairs : dict pair_key PairValues)
    (order : Order) : dict pair_key PairValues :=
  if Qltb (capacity_kg truck) (weight_kg order) then permissible_pairs
  else
    let approach_distance := calculate_distance (location truck) (loading_site order) in
    let approach_time_h := calculate_travel_time_h approach_distance in
    let arrival_loading_site_truck_h :=
      num_add (Fin (available_from_h truck)) approach_time_h in
    let loading_start_calc_h :=
      num_max arrival_loading_site_truck_h (Fin (loading_window_early_h order)) in
    let latest_loading_start_order_h :=
      loading_window_late_h order - loading_duration_h order in
    if num_gtb loading_start_calc_h (Fin (latest_loading_start_order_h + (1 # 100)))
    then permissible_pairs
    else
      let loading_end_calc_h :=
        num_add loading_start_calc_h (Fin (loading_duration_h order)) in
      let transport_distance :=
        calculate_distance (loading_site order) (unloading_site order) in
      let transport_time_h := calculate_travel_time_h transport_distance in
      let arrival_unloading_site_calc_h := num_add loading_end_calc_h transport_time_h in
      let unloading_end_calc_h :=
        num_add arrival_unloading_site_calc_h (Fin (unloading_duration_h order)) in
      if num_gtb unloading_end_calc_h (Fin (available_until_h truck + (1 # 100)))
      then permissible_pairs
      else
        let total_distance_for_order := approach_distance + transport_distance in
        dict_set permissible_pairs (truck_id truck, order_id order) {|
          distanz_anfahrt := approach_distance;
          distanz_transport := transport_distance;
          distanz_gesamt_fuer_auftrag := total_distance_for_order;
          prio_original := priority order;
          prio_gewicht := priorities_get (PRIORITIES_MAP cfg) (priority order);
          anfahrt_lkw_h := arrival_loading_site_truck_h;
          ladebeginn_calc_h := loading_start_calc_h;
          ladeende_calc_h := loading_end_calc_h;
          ankunft_entladestelle_calc_h := arrival_unloading_site_calc_h;
          entladung_ende_calc_h := unloading_end_calc_h;
          gesamtdauer_auftrag_ab_lkw_start_h :=
            num_sub unloading_end_calc_h (available_from_h truck)
        |}.

(** The two nested loops over [truck_list] and [order_list]. *)
Definition permissible_pairs_loop (truck_list : list Truck) (order_list : list Order)
    (permissible_pairs : dict pair_key PairValues) : dict pair_key PairValues :=
  fold_left
    (fun pairs truck => fold_left (check_pair truck) order_list pairs)
    truck_list permissible_pairs.

(** The function on the console [stdout]: it returns the dictionary
    and the console after its two [print]s. *)
Definition determine_permissible_pairs_and_values
    (truck_list : list Truck) (order_list : list Order) (stdout : list output)
    : dict pair_key PairValues * list output :=
  let permissible_pairs := permissible_pairs_loop truck_list order_list [] in
  (permissible_pairs,
   stdout ++ [MsgDeterminePairs; MsgPairCount (List.length permissible_pairs)]).


(** The model handed to the solver: a sense, a linear objective (its
    terms [coefficient * x[key]]) and constraints [sum of x[key] <= rhs]. *)
Inductive LpSense : Type := LpMinimize | LpMaximize.

Record LpConstraint : Type := {
  lhs : list pair_key;
  rhs : Q;
  constraint_name : string
}.

Record LpProblem : Type := {
  problem_name : string;
  sense : LpSense;
  objective : list (Q * pair_key);
  constraints : list LpConstraint
}.

(** [prob += constraint, name] *)
Definition add_constraint (prob : LpProblem) (c : LpConstraint) : LpProblem :=
  {| problem_name := problem_name prob;
     sense := sense prob;
     objective := objective prob;
     constraints := constraints prob ++ [c] |}.

(** [k in x_vars] *)
Definition in_x_vars (x_vars : list pair_key) (k : pair_key) : bool :=
  existsb (keqb k) x_vars.

(** "Each order is assigned to at most one truck." *)
Definition order_constraint (truck_list : list Truck) (x_vars : list pair_key)
    (order : Order) : LpConstraint :=
  {| lhs := filter (in_x_vars x_vars)
              (map (fun truck => (truck_id truck, order_id order)) truck_list);
     rhs := 1;
     constraint_name := "Order_" ++ order_id order ++ "_max_once" |}.

(** "Each truck takes at most one order." *)
Definition truck_constraint (order_list : list Order) (x_vars : list pair_key)
    (truck : Truck) : LpConstraint :=
  {| lhs := filter (in_x_vars x_vars)
              (map (fun order => (truck_id truck, order_id order)) order_list);
     rhs := 1;
     constraint_name := "Truck_" ++ truck_id truck ++ "_max_one_order" |}.

(** A binary variable is named by its key; [x_vars] holds the keys. *)
Definition create_lp_model (truck_list : list Truck) (order_list : list Order)
    (permissible_pairs_with_values : dict pair_key PairValues)
    : LpProblem * list pair_key :=
  let x_vars := dict_keys permissible_pairs_with_values in
  let objective_components :=
    map (fun item : pair_key * PairValues =>
           let '(pair_key, values_dict) := item in
           let priority_reward :=
             PRIORITY_WEIGHT_FACTOR cfg * prio_gewicht values_dict in
           let distance_penalty :=
             DISTANCE_COST_FACTOR cfg * distanz_gesamt_fuer_auftrag values_dict in
           let net_value_assignment := priority_reward - distance_penalty in
           (net_value_assignment, pair_key))
        permissible_pairs_with_values in
  let prob := {| problem_name := "Truck_Order_Assignment_Dispo";
                 sense := LpMaximize;
                 objective := objective_components;
                 constraints := [] |} in
  let prob :=
    fold_left
      (fun prob order => add_constraint prob (order_constraint truck_list x_vars order))
      order_list prob in
  let prob :=
    fold_left
      (fun prob truck => add_constraint prob (truck_constraint order_list x_vars truck))
      truck_list prob in
  (prob, x_vars).

(** *** 6. Solution and result functions *)

(** What the solver leaves behind: a status and [varValue] per variable. *)
Inductive LpStatus : Type :=
| LpStatusOptimal
| LpStatusFeasible
| LpStatusInfeasible
| LpStatusNotSolved
| LpStatusUndefined
| LpStatusUnbounded.

Definition solution : Type := pair_key -> Q.

(** [pulp.value] of a sum of variables or of the objective. *)
Definition lhs_value (varValue : solution) (vars : list pair_key) : Q :=
  Qsum (map varValue vars).

Definition objective_value (varValue : solution) (terms : list (Q * pair_key)) : Q :=
  Qsum (map (fun term => fst term * varValue (snd term)) terms).

(** The solver's contract for a solution it reports. *)
Definition binary_on (x_vars : list pair_key) (varValue : solution) : Prop :=
  forall k, In k x_vars -> varValue k == 0 \/ varValue k == 1.

Definition satisfies (varValue : solution) (c : LpConstraint) : Prop :=
  lhs_value varValue (lhs c) <= rhs c.

Definition solves (prob : LpProblem) (x_vars : list pair_key) (varValue : solution) : Prop :=
  binary_on x_vars varValue /\ Forall (satisfies varValue) (constraints prob).

Record Detail : Type := {
  lkw_id : string;
  auftrag_id : string;
  anfahrt_dist_km : Q;
  transport_dist_km : Q;
  gesamtdistanz_fuer_auftrag_km : Q;
  ladebeginn_h : num;
  ladeende_h : num;
  entladung_ende_h : num;
  auftrag_prio_original : Z;
  auftrag_prio_gewicht : Q;
  auftrag_gewicht_kg : Q;
  lkw_kapazitaet_kg : Q;
  lkw_verfuegbar_bis_h : Q
}.

Record Utilization : Type := {
  zugewiesener_auftrag : option string;
  details : option Detail
}.

(** The locals of [extract_and_show_results] that its loop updates;
    [unassigned_orders_obj] holds references into [order_list]. *)
Record Results : Type := {
  assigned_orders_details : list Detail;
  unassigned_orders_obj : list nat;
  truck_utilization : dict string Utilization;
  total_objective_value : Q;
  total_distance_final_km : Q;
  number_of_assigned_orders : nat
}.

(** [next((i, o) for i, o in enumerate(order_list) if o.order_id == id), None)] *)
Fixpoint find_order (i : nat) (order_list : list Order) (id : string)
    : option (nat * Order) :=
  match order_list with
  | [] => None
  | o :: rest =>
      if String.eqb (order_id o) id then Some (i, o)
      else find_order (S i) rest id
  end.

Definition find_truck (truck_list : list Truck) (id : string) : option Truck :=
  find (fun t => String.eqb (truck_id t) id) truck_list.

(** The [detail] dictionary of an assignment. *)
Definition make_detail (key : pair_key) (values_info : PairValues)
    (truck_obj : Truck) (order_obj : Order) : Detail :=
  let '(truck_id, order_id) := key in
  {| lkw_id := truck_id;
     auftrag_id := order_id;
     anfahrt_dist_km := distanz_anfahrt values_info;
     transport_dist_km := distanz_transport values_info;
     gesamtdistanz_fuer_auftrag_km := distanz_gesamt_fuer_auftrag values_info;
     ladebeginn_h := ladebeginn_calc_h values_info;
     ladeende_h := ladeende_calc_h values_info;
     entladung_ende_h := entladung_ende_calc_h values_info;
     auftrag_prio_original := priority order_obj;
     auftrag_prio_gewicht := prio_gewicht values_info;
     auftrag_gewicht_kg := weight_kg order_obj;
     lkw_kapazitaet_kg := capacity_kg truck_obj;
     lkw_verfuegbar_bis_h := available_until_h truck_obj |}.

(** The three lookups at the head of the loop body; [None] when the
    body [continue]s. *)
Definition lookup_assignment (truck_list : list Truck) (order_list : list Order)
    (permissible_pairs_with_values : dict pair_key PairValues) (key : pair_key)
    : option (PairValues * Truck * nat * Order) :=
  match dict_get permissible_pairs_with_values key,
        find_truck truck_list (fst key),
        find_order 0 order_list (snd key) with
  | Some values_info, Some truck_obj, Some (order_ref, order_obj) =>
      Some (values_info, truck_obj, order_ref, order_obj)
  | _, _, _ => None
  end.

(** One turn of the loop over the active keys. *)
Definition extract_step (truck_list : list Truck) (order_list : list Order)
    (permissible_pairs_with_values : dict pair_key PairValues)
    (res : Results) (key : pair_key) : Results :=
  match lookup_assignment truck_list order_list permissible_pairs_with_values key with
  | Some (values_info, truck_obj, order_ref, order_obj) =>
      let detail := make_detail key values_info truck_obj order_obj in
      {| assigned_orders_details := assigned_orders_details res ++ [detail];
         unassigned_orders_obj := remove_ref order_ref (unassigned_orders_obj res);
         truck_utilization :=
           dict_set (truck_utilization res) (fst key)
             {| zugewiesener_auftrag := Some (snd key); details := Some detail |};
         total_objective_value := total_objective_value res;
         total_distance_final_km :=
           total_distance_final_km res + distanz_gesamt_fuer_auftrag values_info;
         number_of_assigned_orders := number_of_assigned_orders res |}
  | None => res
  end.

(** Sort keys of the two [sort] calls. *)
Definition detail_leb (a b : Detail) : bool :=
  Z.ltb (auftrag_prio_original a) (auftrag_prio_original b)
  || (Z.eqb (auftrag_prio_original a) (auftrag_prio_original b)
      && String.leb (lkw_id a) (lkw_id b)).

Definition order_ref_leb (order_list : list Order) (a b : nat) : bool :=
  match nth_error order_list a, nth_error order_list b with
  | Some x, Some y =>
      Z.ltb (priority x) (priority y)
      || (Z.eqb (priority x) (priority y) && String.leb (order_id x) (order_id y))
  | _, _ => true
  end.

(** [[k for k, var in x.items() if var.varValue > 0.5]] *)
Definition active_keys (varValue : solution) (x_variables_dict : list pair_key)
    : list pair_key :=
  filter (fun key_tuple => Qltb (1 # 2) (varValue key_tuple)) x_variables_dict.

Definition extract_and_show_results (prob_obj : LpProblem) (varValue : solution)
    (x_variables_dict : list pair_key)
    (truck_list : list Truck) (order_list : list Order)
    (permissible_pairs_with_values : dict pair_key PairValues) (status : LpStatus)
    : Results :=
  let start := {|
    assigned_orders_details := [];
    unassigned_orders_obj := seq 0 (List.length order_list);
    truck_utilization :=
      fold_left
        (fun d truck =>
           dict_set d (truck_id truck)
             {| zugewiesener_auftrag := None; details := None |})
        truck_list [];
    total_objective_value := 0;
    total_distance_final_km := 0;
    number_of_assigned_orders := 0
  |} in
  let res :=
    match status with
    | LpStatusOptimal | LpStatusFeasible =>
        let active_assignments_keys := active_keys varValue x_variables_dict in
        let res := {|
          assigned_orders_details := assigned_orders_details start;
          unassigned_orders_obj := unassigned_orders_obj start;
          truck_utilization := truck_utilization start;
          total_objective_value := objective_value varValue (objective prob_obj);
          total_distance_final_km := total_distance_final_km start;
          number_of_assigned_orders := List.length active_assignments_keys
        |} in
        let res :=
          fold_left
            (extract_step truck_list order_list permissible_pairs_with_values)
            active_assignments_keys res in
        {| assigned_orders_details :=
             stable_sort detail_leb (assigned_orders_details res);
           unassigned_orders_obj := unassigned_orders_obj res;
           truck_utilization := truck_utilization res;
           total_objective_value := total_objective_value res;
           total_distance_final_km := total_distance_final_km res;
           number_of_assigned_orders := number_of_assigned_orders res |}
    | _ => start
    end in
  {| assigned_orders_details := assigned_orders_details res;
     unassigned_orders_obj :=
       stable_sort (order_ref_leb order_list) (unassigned_orders_obj res);
     truck_utilization := truck_utilization res;
     total_objective_value := total_objective_value res;
     total_distance_final_km := total_distance_final_km res;
     number_of_assigned_orders := number_of_assigned_orders res |}.

(** The details that one active key contributes: one, or none when the
    loop body [continue]s. *)
Definition resolve (truck_list : list Truck) (order_list : list Order)
    (permissible_pairs_with_values : dict pair_key PairValues) (key : pair_key)
    : list Detail :=
  match lookup_assignment truck_list order_list permissible_pairs_with_values key with
  | Some (values_info, truck_obj, _, order_obj) =>
      [make_detail key values_info truck_obj order_obj]
  | None => []
  end.

(** The key of an assignment. *)
Definition detail_key (d : Detail) : pair_key := (lkw_id d, auftrag_id d).

(** The model and the results of a run, as [main_dispo] chains the
    functions: feasibility analysis, model, then the results for the
    status and the values the solver left. *)
Definition optimal_model (truck_list : list Truck) (order_list : list Order)
    (stdout : list output) : LpProblem * list pair_key :=
  create_lp_model truck_list order_list
    (fst (determine_permissible_pairs_and_values truck_list order_list stdout)).

Definition optimal_run (truck_list : list Truck) (order_list : list Order)
    (stdout : list output) (varValue : solution) (status : LpStatus) : Results :=
  let pairs :=
    fst (determine_permissible_pairs_and_values truck_list order_list stdout) in
  let model := optimal_model truck_list order_list stdout in
  extract_and_show_results (fst model) varValue (snd model) truck_list order_list
    pairs status.

(** The references that the loop over [keys] removes from
    [unassigned_orders_obj]. *)
Definition removed_refs (truck_list : list Truck) (order_list : list Order)
    (permissible_pairs_with_values : dict pair_key PairValues)
    (keys : list pair_key) : list nat :=
  flat_map
    (fun key =>
       match lookup_assignment truck_list order_list permissible_pairs_with_values key with
       | Some (_, _, order_ref, _) => [order_ref]
       | None => []
       end) keys.

(** The objective coefficient that an assignment reports. *)
Definition detail_value (d : Detail) : Q :=
  PRIORITY_WEIGHT_FACTOR cfg * auftrag_prio_gewicht d
  - DISTANCE_COST_FACTOR cfg * gesamtdistanz_fuer_auftrag_km d.

(** The orders behind the returned references. *)
Definition orders_of (order_list : list Order) (refs : list nat) : list Order :=
  flat_map (fun r => match nth_error order_list r with
                     | Some o => [o]
                     | None => []
                     end) refs.

(** *** The conditions and values as the specification words them *)

Definition travelTime (distance_km : Q) : Q :=
  distance_km / AVERAGE_SPEED_KMH cfg.

Definition loadingStart (truck : Truck) (order : Order) : Q :=
  Qmax (available_from_h truck
        + travelTime (calculate_distance (location truck) (loading_site order)))
       (loading_window_early_h order).

Definition loadingEnd (truck : Truck) (order : Order) : Q :=
  loadingStart truck order + loading_duration_h order.

Definition feasible (truck : Truck) (order : Order) : Prop :=
  weight_kg order <= capacity_kg truck /\
  loadingStart truck order
    <= loading_window_late_h order - loading_duration_h order + (1 # 100) /\
  loadingEnd truck order
    + travelTime (calculate_distance (loading_site order) (unloading_site order))
    + unloading_duration_h order
    <= available_until_h truck + (1 # 100).

Definition totalDistance (truck : Truck) (order : Order) : Q :=
  calculate_distance (location truck) (loading_site order)
  + calculate_distance (loading_site order) (unloading_site order).

Definition priorityWeight (order : Order) : Q :=
  priorities_get (PRIORITIES_MAP cfg) (priority order).

Definition utility (truck : Truck) (order : Order) : Q :=
  PRIORITY_WEIGHT_FACTOR cfg * priorityWeight order
  - DISTANCE_COST_FACTOR cfg * totalDistance truck order.

(** What the loop body records for one pair on its own: [None] when it
    skips the pair. *)
Definition recorded (truck : Truck) (order : Order) : option PairValues :=
  dict_get (check_pair truck [] order) (truck_id truck, order_id order).

(** The pair that [(truck_id, order_id)] names among the inputs. *)
Definition names_pair (truck_list : list Truck) (order_list : list Order)
    (key : pair_key) (truck : Truck) (order : Order) : Prop :=
  In truck truck_list /\ In order order_list /\
  truck_id truck = fst key /\ order_id order = snd key.

(** An item of the dictionary that stems from a pair of the inputs. *)
Definition from_pair (truck_list : list Truck) (order_list : list Order)
    (item : pair_key * PairValues) : Prop :=
  exists truck order,
    names_pair truck_list order_list (fst item) truck order /\
    recorded truck order = Some (snd item).

(** The dictionary that [determine_permissible_pairs_and_values] returns. *)
Definition pairs_of (truck_list : list Truck) (order_list : list Order)
    : dict pair_key PairValues :=
  permissible_pairs_loop truck_list order_list [].

End Pipeline.

(** *** The truck rows of [results_to_csv_strings_lp] *)

(** An entry of [truck_util_data], before the CSV writer formats it. *)
Record TruckRow : Type := {
  row_lkw_id : string;
  kapazitaet_kg : Q;
  verfuegbar_ab_h : Q;
  verfuegbar_bis_h : Q;
  zugewiesener_auftrag_id : option string;
  row_anfahrt_dist_km : option Q;
  row_transport_dist_km : option Q;
  row_gesamtdistanz_fuer_auftrag_km : option Q;
  row_ladebeginn_h : option num;
  row_ladeende_h : option num;
  row_entladung_ende_h : option num
}.

(** The body of the loop over [truck_list]:
    [truck_utilization_info.get(truck.truck_id, {})], then [.get] on
    what it returned. *)
Definition truck_data_entry (truck_utilization_info : dict string Utilization)
    (truck : Truck) : TruckRow :=
  let utilization_truck_specific :=
    dict_get truck_utilization_info (truck_id truck) in
  let details_dict :=
    match utilization_truck_specific with
    | Some u => details u
    | None => None
    end in
  {| row_lkw_id := truck_id truck;
     kapazitaet_kg := capacity_kg truck;
     verfuegbar_ab_h := available_from_h truck;
     verfuegbar_bis_h := available_until_h truck;
     zugewiesener_auftrag_id :=
       match utilization_truck_specific with
       | Some u => zugewiesener_auftrag u
       | None => None
       end;
     row_anfahrt_dist_km := option_map anfahrt_dist_km details_dict;
     row_transport_dist_km := option_map transport_dist_km details_dict;
     row_gesamtdistanz_fuer_auftrag_km :=
       option_map gesamtdistanz_fuer_auftrag_km details_dict;
     row_ladebeginn_h := option_map ladebeginn_h details_dict;
     row_ladeende_h := option_map ladeende_h details_dict;
     row_entladung_ende_h := option_map entladung_ende_h details_dict |}.

Definition truck_util_data (truck_utilization_info : dict string Utilization)
    (truck_list : list Truck) : list TruckRow :=
  map (truck_data_entry truck_utilization_info) truck_list.

(** What the row of [truck] must show, given the assignments: the
    truck's own data and either an assignment of that truck with its
    order, distances and times, or no order and no assignment of that
    truck. *)
Definition row_shows (details : list Detail) (truck : Truck) (row : TruckRow) : Prop :=
  row_lkw_id row = truck_id truck /\
  kapazitaet_kg row = capacity_kg truck /\
  verfuegbar_ab_h row = available_from_h truck /\
  verfuegbar_bis_h row = available_until_h truck /\
  match zugewiesener_auftrag_id row with
  | Some order_id =>
      exists d,
        In d details /\ lkw_id d = truck_id truck /\ auftrag_id d = order_id /\
        row_anfahrt_dist_km row = Some (anfahrt_dist_km d) /\
        row_transport_dist_km row = Some (transport_dist_km d) /\
        row_gesamtdistanz_fuer_auftrag_km row
        = Some (gesamtdistanz_fuer_auftrag_km d) /\
        row_ladebeginn_h row = Some (ladebeginn_h d) /\
        row_ladeende_h row = Some (ladeende_h d) /\
        row_entladung_ende_h row = Some (entladung_ende_h d)
  | None =>
      (forall d, In d details -> lkw_id d <> truck_id truck) /\
      row_anfahrt_dist_km row = None /\ row_ladebeginn_h row = None
  end.

End Dispo.

(** ** The greedy strategies and the analysis (_archive/claude-2.py) *)

Module Archive.
Import Py.
Local Open Scope Q_scope.
Local Open Scope py_scope.

Inductive Priority : Type := URGENT | HIGH | NORMAL | LOW.

Inductive TruckType : Type := KLEIN | STANDARD | GROSS | SPEZIAL.

Definition DISTANCE_WEIGHT : Q := 1.
Definition PRIORITY_WEIGHT : Q := 8 # 10.
Definition CAPACITY_WEIGHT : Q := 6 # 10.
Definition TIME_WEIGHT : Q := 4 # 10.

Definition point : Type := (Q * Q)%type.

Record Truck : Type := {
  truck_id : string;
  lat : Q;
  lon : Q;
  capacity : Q;
  current_load : Q;
  truck_type : TruckType;
  driver_name : string;
  max_driving_time : Q;
  cost_per_km : Q
}.

(** [Truck.__post_init__]: the constructor raises on an invalid truck. *)
Definition Truck_post_init (self : Truck) : result unit :=
  if Qle_bool (capacity self) 0 then Raise ValueError
  else if Qltb (current_load self) 0 then Raise ValueError
  else if Qltb (capacity self) (current_load self) then Raise ValueError
  else Ok tt.

Definition available_capacity (self : Truck) : Q :=
  capacity self - current_load self.

Definition position (self : Truck) : point := (lat self, lon self).

Definition utilization_percent (self : Truck) : Q :=
  if Qltb 0 (capacity self) then (current_load self / capacity self) * 100 else 0.

Record Order : Type := {
  order_id : string;
  pickup_lat : Q;
  pickup_lon : Q;
  delivery_lat : Q;
  delivery_lon : Q;
  volume : Q;
  priority : Priority;
  customer : string;
  deadline_hours : Q;
  value : Q;
  assigned_truck : option string
}.

(** [Order.__post_init__] *)
Definition Order_post_init (self : Order) : result unit :=
  if Qle_bool (volume self) 0 then Raise ValueError
  else if Qle_bool (deadline_hours self) 0 then Raise ValueError
  else Ok tt.

Definition pickup_position (self : Order) : point := (pickup_lat self, pickup_lon self).

Definition delivery_position (self : Order) : point :=
  (delivery_lat self, delivery_lon self).

Definition priority_score (self : Order) : Q :=
  match priority self with
  | URGENT => 1 # 10
  | HIGH => 3 # 10
  | NORMAL => 1
  | LOW => 2
  end.

Definition is_assigned (self : Order) : bool :=
  match assigned_truck self with Some _ => true | None => false end.

Definition can_handle_order (self : Truck) (order : Order) : bool :=
  Qle_bool (volume order) (available_capacity self).

(** An [Assignment]; its time stamp [assignment_time] is left out. *)
Record Assignment : Type := {
  a_truck_id : string;
  a_order_id : string;
  distance_km : Q;
  estimated_duration : Q;
  total_cost : Q;
  score : Q
}.

(** The [details] dictionary of the score. *)
Record ScoreDetails : Type := {
  d_distance : Q;
  d_priority : Q;
  d_capacity : Q;
  d_time : Q;
  raw_distance_km : Q;
  travel_time_hours : Q
}.

Definition estimate_travel_time (distance_km avg_speed_kmh : Q) : Q :=
  if Qltb 0 avg_speed_kmh then distance_km / avg_speed_kmh else 0.

(** The default of [avg_speed_kmh]. *)
Definition default_avg_speed_kmh : Q := 50.

(** [order.assigned_truck = id] and [truck.current_load += v] *)
Definition set_assigned_truck (id : string) (o : Order) : Order :=
  {| order_id := order_id o;
     pickup_lat := pickup_lat o; pickup_lon := pickup_lon o;
     delivery_lat := delivery_lat o; delivery_lon := delivery_lon o;
     volume := volume o; priority := priority o; customer := customer o;
     deadline_hours := deadline_hours o; value := value o;
     assigned_truck := Some id |}.

Definition add_load (v : Q) (t : Truck) : Truck :=
  {| truck_id := truck_id t; lat := lat t; lon := lon t;
     capacity := capacity t;
     current_load := current_load t + v;
     truck_type := truck_type t; driver_name := driver_name t;
     max_driving_time := max_driving_time t; cost_per_km := cost_per_km t |}.

(** [priority_order.index(p)] *)
Definition priority_index (p : Priority) : nat :=
  match p with URGENT => 0 | HIGH => 1 | NORMAL => 2 | LOW => 3 end.

(** The state of a strategy's loop: the lists it builds and the mutable
    objects of the caller's [trucks] and [orders], which the lists
    [available_orders], [sorted_trucks] and [sorted_orders] refer to by
    position. *)
Record State : Type := {
  assignments : list Assignment;
  available_orders : list nat;
  trucks : list Truck;
  orders : list Order
}.

(** A scan's best candidate: [(reference, best_score, best_details)];
    [None] while [best_score] is [float('inf')]. *)
Definition candidate : Type := (nat * Q * ScoreDetails)%type.

(** [score < best_score] *)
Definition improves (score : Q) (best : option candidate) : bool :=
  match best with
  | None => true
  | Some (_, best_score, _) => Qltb score best_score
  end.

Section Strategies.
(** The great-circle distance ([Haversine.calculate_distance_archive])
    on float coordinates. *)
Variable calculate_distance : point -> point -> Q.

Definition calculate_assignment_score (truck : Truck) (order : Order)
    : result (Q * ScoreDetails) :=
  let distance := calculate_distance (position truck) (pickup_position order) in
  let distance_score := distance * DISTANCE_WEIGHT in
  let priority_score := priority_score order * PRIORITY_WEIGHT in
  capacity_utilization <- py_div (volume order) (capacity truck) ;;
  let capacity_score := (1 - capacity_utilization) * CAPACITY_WEIGHT in
  let travel_time := estimate_travel_time distance default_avg_speed_kmh in
  ratio <- py_div travel_time (deadline_hours order) ;;
  let time_pressure := Qmax 0 ratio * TIME_WEIGHT in
  let total_score := distance_score + priority_score + capacity_score + time_pressure in
  Ok (total_score,
      {| d_distance := distance_score;
         d_priority := priority_score;
         d_capacity := capacity_score;
         d_time := time_pressure;
         raw_distance_km := distance;
         travel_time_hours := travel_time |}).

(** [for truck in available_trucks: ...] for one [order]; [i] is the
    reference of the first truck of [ts]. *)
Fixpoint scan_trucks (order : Order) (i : nat) (ts : list Truck)
    (best : option candidate) : result (option candidate) :=
  match ts with
  | [] => Ok best
  | truck :: rest =>
      if can_handle_order truck order then
        ' (score, details) <- calculate_assignment_score truck order ;;
        scan_trucks order (S i) rest
          (if improves score best then Some (i, score, details) else best)
      else scan_trucks order (S i) rest best
  end.

(** [for order in available_orders: ...] for one [truck]. *)
Fixpoint scan_orders (truck : Truck) (os : list Order) (refs : list nat)
    (best : option candidate) : result (option candidate) :=
  match refs with
  | [] => Ok best
  | r :: rest =>
      match nth_error os r with
      | None => scan_orders truck os rest best
      | Some order =>
          if can_handle_order truck order then
            ' (score, details) <- calculate_assignment_score truck order ;;
            scan_orders truck os rest
              (if improves score best then Some (r, score, details) else best)
          else scan_orders truck os rest best
      end
  end.

(** The update of the state when truck [t] (reference [ti]) takes order
    [o] (reference [oi]). *)
Definition commit (st : State) (ti : nat) (t : Truck) (oi : nat) (o : Order)
    (best_score : Q) (best_details : ScoreDetails) : State :=
  let total_distance := raw_distance_km best_details in
  let travel_time := travel_time_hours best_details in
  let total_cost := total_distance * cost_per_km t in
  let assignment := {|
    a_truck_id := truck_id t;
    a_order_id := order_id o;
    distance_km := total_distance;
    estimated_duration := travel_time;
    total_cost := total_cost;
    score := best_score
  |} in
  {| assignments := assignments st ++ [assignment];
     available_orders := remove_ref oi (available_orders st);
     trucks := list_update ti (add_load (volume o)) (trucks st);
     orders := list_update oi (set_assigned_truck (truck_id t)) (orders st) |}.

(** [available_orders = [o for o in orders if not o.is_assigned]] *)
Fixpoint unassigned_refs (i : nat) (os : list Order) : list nat :=
  match os with
  | [] => []
  | o :: rest =>
      if is_assigned o then unassigned_refs (S i) rest
      else i :: unassigned_refs (S i) rest
  end.

Definition initial_state (trucks : list Truck) (orders : list Order) : State :=
  {| assignments := [];
     available_orders := unassigned_refs 0 orders;
     trucks := trucks;
     orders := orders |}.

(** *** GreedyNearestStrategy *)

(** [sorted(trucks, key=lambda t: t.available_capacity, reverse=True)]:
    the larger key first, equal keys in their order. *)
Definition capacity_geb (ts : list Truck) (a b : nat) : bool :=
  match nth_error ts a, nth_error ts b with
  | Some x, Some y => Qle_bool (available_capacity y) (available_capacity x)
  | _, _ => true
  end.

Definition greedy_step (st : State) (ti : nat) : result State :=
  match nth_error (trucks st) ti with
  | None => Ok st
  | Some truck =>
      best <- scan_orders truck (orders st) (available_orders st) None ;;
      match best with
      | Some (oi, best_score, best_details) =>
          match nth_error (orders st) oi with
          | Some best_order =>
              Ok (commit st ti truck oi best_order best_score best_details)
          | None => Ok st
          end
      | None => Ok st
      end
  end.

Fixpoint greedy_loop (sorted_trucks : list nat) (st : State) : result State :=
  match sorted_trucks with
  | [] => Ok st
  | ti :: rest => st' <- greedy_step st ti ;; greedy_loop rest st'
  end.

Definition GreedyNearestStrategy_assign (trucks : list Truck) (orders : list Order)
    : result State :=
  let sorted_trucks :=
    stable_sort (capacity_geb trucks) (seq 0 (List.length trucks)) in
  greedy_loop sorted_trucks (initial_state trucks orders).

(** *** PriorityFirstStrategy *)

Definition priority_leb (os : list Order) (a b : nat) : bool :=
  match nth_error os a, nth_error os b with
  | Some x, Some y =>
      Nat.leb (priority_index (priority x)) (priority_index (priority y))
  | _, _ => true
  end.

Definition priority_step (st : State) (oi : nat) : result State :=
  match nth_error (orders st) oi with
  | None => Ok st
  | Some order =>
      best <- scan_trucks order 0 (trucks st) None ;;
      match best with
      | Some (ti, best_score, best_details) =>
          match nth_error (trucks st) ti with
          | Some best_truck =>
              Ok (commit st ti best_truck oi order best_score best_details)
          | None => Ok st
          end
      | None => Ok st
      end
  end.

Fixpoint priority_loop (sorted_orders : list nat) (st : State) : result State :=
  match sorted_orders with
  | [] => Ok st
  | oi :: rest => st' <- priority_step st oi ;; priority_loop rest st'
  end.

Definition PriorityFirstStrategy_assign (trucks : list Truck) (orders : list Order)
    : result State :=
  let st := initial_state trucks orders in
  let sorted_orders := stable_sort (priority_leb orders) (available_orders st) in
  priority_loop sorted_orders st.

(** The state after the first [k] turns of the loop of
    [PriorityFirstStrategy.assign]. *)
Definition priority_first_after (k : nat) (trucks : list Truck) (orders : list Order)
    : result State :=
  let st := initial_state trucks orders in
  let sorted_orders := stable_sort (priority_leb orders) (available_orders st) in
  priority_loop (firstn k sorted_orders) st.

End Strategies.

(** *** Analysis *)

Record PriorityStat : Type := {
  ps_total : nat;
  ps_assigned : nat;
  ps_rate : Q
}.

(** The [analysis] dictionary. *)
Record Analysis : Type := {
  total_assignments : nat;
  total_orders : nat;
  unassigned_orders : nat;
  assignment_rate : Q;
  avg_distance_km : Q;
  min_distance_km : Q;
  max_distance_km : Q;
  total_distance_km : Q;
  total_cost_euro : Q;
  avg_cost_euro : Q;
  assigned_volume_tons : Q;
  total_volume_tons : Q;
  volume_assignment_rate : Q;
  avg_truck_utilization : Q;
  priority_statistics : list (Priority * PriorityStat)
}.

(** [len(l)] as a number. *)
Definition len {A : Type} (l : list A) : Q := inject_Z (Z.of_nat (List.length l)).

(** [min(l)] and [max(l)]: [ValueError] on an empty list. *)
Definition py_min (l : list Q) : result Q :=
  match l with
  | [] => Raise ValueError
  | x :: rest => Ok (fold_left Qmin rest x)
  end.

Definition py_max (l : list Q) : result Q :=
  match l with
  | [] => Raise ValueError
  | x :: rest => Ok (fold_left Qmax rest x)
  end.

(** [next(o.volume for o in orders if o.order_id == id)] inside the
    generator that [sum] consumes: a [StopIteration] there surfaces as a
    [RuntimeError]. *)
Fixpoint next_volume (orders : list Order) (id : string) : result Q :=
  match orders with
  | [] => Raise RuntimeError
  | o :: rest => if String.eqb (order_id o) id then Ok (volume o) else next_volume rest id
  end.

Fixpoint assigned_volumes (orders : list Order) (assignments : list Assignment)
    : result (list Q) :=
  match assignments with
  | [] => Ok []
  | a :: rest =>
      v <- next_volume orders (a_order_id a) ;;
      vs <- assigned_volumes orders rest ;;
      Ok (v :: vs)
  end.

Definition Priority_eqb (a b : Priority) : bool :=
  Nat.eqb (priority_index a) (priority_index b).

Definition priority_stat (orders : list Order) (priority : Priority)
    : result (Priority * PriorityStat) :=
  let priority_orders :=
    filter (fun o => Priority_eqb (Archive.priority o) priority) orders in
  let assigned_priority_orders := filter is_assigned priority_orders in
  rate <- match priority_orders with
          | [] => Ok 0
          | _ :: _ =>
              q <- py_div (len assigned_priority_orders) (len priority_orders) ;;
              Ok (q * 100)
          end ;;
  Ok (priority,
      {| ps_total := List.length priority_orders;
         ps_assigned := List.length assigned_priority_orders;
         ps_rate := rate |}).

Fixpoint priority_stats (orders : list Order) (ps : list Priority)
    : result (list (Priority * PriorityStat)) :=
  match ps with
  | [] => Ok []
  | p :: rest =>
      s <- priority_stat orders p ;;
      ss <- priority_stats orders rest ;;
      Ok (s :: ss)
  end.

Definition analyze_assignments (assignments : list Assignment) (trucks : list Truck)
    (orders : list Order) (unassigned_orders : list nat) : result Analysis :=
  assignment_rate <-
    match orders with
    | [] => Ok 0
    | _ :: _ => q <- py_div (len assignments) (len orders) ;; Ok (q * 100)
    end ;;
  ' (avg_distance, min_distance, max_distance, total_distance) <-
    match assignments with
    | _ :: _ =>
        let distances := map distance_km assignments in
        avg <- py_div (Qsum distances) (len distances) ;;
        mn <- py_min distances ;;
        mx <- py_max distances ;;
        Ok (avg, mn, mx, Qsum distances)
    | [] => Ok (0, 0, 0, 0)
    end ;;
  ' (total_cost_all, avg_cost) <-
    match assignments with
    | _ :: _ =>
        let costs := map total_cost assignments in
        avg <- py_div (Qsum costs) (len costs) ;;
        Ok (Qsum costs, avg)
    | [] => Ok (0, 0)
    end ;;
  volumes <- assigned_volumes orders assignments ;;
  let assigned_volume := Qsum volumes in
  let total_volume := Qsum (map volume orders) in
  volume_rate <-
    (if Qeq_bool total_volume 0 then Ok 0
     else q <- py_div assigned_volume total_volume ;; Ok (q * 100)) ;;
  let truck_utilizations := map utilization_percent trucks in
  avg_utilization <-
    match truck_utilizations with
    | _ :: _ => py_div (Qsum truck_utilizations) (len truck_utilizations)
    | [] => Ok 0
    end ;;
  stats <- priority_stats orders [URGENT; HIGH; NORMAL; LOW] ;;
  Ok {| total_assignments := List.length assignments;
        total_orders := List.length orders;
        unassigned_orders := List.length unassigned_orders;
        assignment_rate := assignment_rate;
        avg_distance_km := avg_distance;
        min_distance_km := min_distance;
        max_distance_km := max_distance;
        total_distance_km := total_distance;
        total_cost_euro := total_cost_all;
        avg_cost_euro := avg_cost;
        assigned_volume_tons := assigned_volume;
        total_volume_tons := total_volume;
        volume_assignment_rate := volume_rate;
        avg_truck_utilization := avg_utilization;
        priority_statistics := stats |}.

(** *** Notions the properties of the strategies are stated with *)

(** The truck and the order passed their constructors. *)
Definition valid_truck (t : Truck) : Prop := Truck_post_init t = Ok tt.
Definition valid_order (o : Order) : Prop := Order_post_init o = Ok tt.

(** The volume of the order that an assignment names. *)
Fixpoint volume_of (orders : list Order) (id : string) : Q :=
  match orders with
  | [] => 0
  | o :: rest => if String.eqb (order_id o) id then volume o else volume_of rest id
  end.

(** The sum of the volumes assigned to the truck [id]. *)
Definition assigned_volume (orders : list Order) (assignments : list Assignment)
    (id : string) : Q :=
  Qsum (map (fun a => volume_of orders (a_order_id a))
            (filter (fun a => String.eqb (a_truck_id a) id) assignments)).

(** An assignment names a truck and an order of the inputs, and the
    order's volume does not exceed the truck's capacity. *)
Definition within_capacity (trucks : list Truck) (orders : list Order)
    (a : Assignment) : Prop :=
  exists truck order,
    In truck trucks /\ In order orders /\
    a_truck_id a = truck_id truck /\ a_order_id a = order_id order /\
    volume order <= capacity truck.

(** What a run keeps of a truck and of an order: a truck keeps its
    identifier and capacity, its load only grows and stays within the
    capacity; an order keeps identifier, volume and deadline. *)
Definition truck_rel (t0 t : Truck) : Prop :=
  truck_id t = truck_id t0 /\ capacity t = capacity t0 /\
  current_load t0 <= current_load t /\ current_load t <= capacity t.

Definition order_rel (o0 o : Order) : Prop :=
  order_id o = order_id o0 /\ volume o = volume o0 /\
  deadline_hours o = deadline_hours o0.

(** The invariant of the strategies' loops, for the inputs [trucks0] and
    [orders0] of the run. *)
Record invariant (trucks0 : list Truck) (orders0 : list Order) (st : State)
    : Prop := {
  inv_trucks : Forall2 truck_rel trucks0 (trucks st);
  inv_orders : Forall2 order_rel orders0 (orders st);
  inv_assignments : Forall (within_capacity trucks0 orders0) (assignments st)
}.

(** The load of every truck is its initial load plus the volumes
    assigned to it. *)
Definition loads_accounted (trucks0 : list Truck) (orders0 : list Order)
    (st : State) : Prop :=
  forall i t0 t,
    nth_error trucks0 i = Some t0 -> nth_error (trucks st) i = Some t ->
    current_load t
    == current_load t0 + assigned_volume orders0 (assignments st) (truck_id t0).

(** A step of a strategy leaves the state as it is or commits a pair
    that passed [can_handle_order]. *)
Definition step_result (st st' : State) : Prop :=
  st' = st \/
  exists ti t oi o s d,
    st' = commit st ti t oi o s d /\
    nth_error (trucks st) ti = Some t /\ nth_error (orders st) oi = Some o /\
    can_handle_order t o = true.

(** Every truck keeps its capacity, and its load, which is the initial
    load plus the volumes assigned to it, is within the capacity. *)
Definition loads_within_capacity (trucks0 : list Truck) (orders0 : list Order)
    (st : State) : Prop :=
  forall i t0,
    nth_error trucks0 i = Some t0 ->
    exists t,
      nth_error (trucks st) i = Some t /\
      capacity t = capacity t0 /\
      current_load t <= capacity t /\
      current_load t
      == current_load t0 + assigned_volume orders0 (assignments st) (truck_id t0) /\
      current_load t0 + assigned_volume orders0 (assignments st) (truck_id t0)
      <= capacity t0.

(** The score as the specification words it. *)
Definition priorityScore (order : Order) : Q := priority_score order.

Definition cost (distance : Q) (truck : Truck) (order : Order) : Q :=
  DISTANCE_WEIGHT * distance
  + PRIORITY_WEIGHT * priorityScore order
  + CAPACITY_WEIGHT * (1 - volume order / capacity truck)
  + TIME_WEIGHT * Qmax 0 (estimate_travel_time distance default_avg_speed_kmh
                          / deadline_hours order).

(** *** Notions the further properties are stated with *)

(** The orders behind a list of references into the store [os]. *)
Definition orders_at (os : list Order) (refs : list nat) : list Order :=
  flat_map (fun r => match nth_error os r with
                     | Some o => [o]
                     | None => []
                     end) refs.

Section Selection.
Variable calculate_distance : point -> point -> Q.

(** [best] is what a scan of the trucks [ts] for [order] must find: no
    candidate when no truck can handle the order, else the first truck
    with the least score among those that can. *)
Definition best_truck (order : Order) (ts : list Truck) (best : option candidate)
    : Prop :=
  match best with
  | None => forall t, In t ts -> can_handle_order t order = false
  | Some (i, s, d) =>
      exists t,
        nth_error ts i = Some t /\ can_handle_order t order = true /\
        calculate_assignment_score calculate_distance t order = Ok (s, d) /\
        forall j t' s' d',
          nth_error ts j = Some t' -> can_handle_order t' order = true ->
          calculate_assignment_score calculate_distance t' order = Ok (s', d') ->
          s <= s' /\ ((j < i)%nat -> s < s')
  end.

(** The same for a scan of the orders that [refs] refers to, for
    [truck]; the first is the first in [refs]. *)
Definition best_order (truck : Truck) (os : list Order) (refs : list nat)
    (best : option candidate) : Prop :=
  match best with
  | None =>
      forall r o, In r refs -> nth_error os r = Some o ->
                  can_handle_order truck o = false
  | Some (r, s, d) =>
      exists p o,
        nth_error refs p = Some r /\ nth_error os r = Some o /\
        can_handle_order truck o = true /\
        calculate_assignment_score calculate_distance truck o = Ok (s, d) /\
        forall q r' o' s' d',
          nth_error refs q = Some r' -> nth_error os r' = Some o' ->
          can_handle_order truck o' = true ->
          calculate_assignment_score calculate_distance truck o' = Ok (s', d') ->
          s <= s' /\ ((q < p)%nat -> s < s')
  end.
End Selection.

(** The books of a run on the orders [orders0]: the references still
    available are distinct and refer to orders without a truck; the
    orders that were available at the start are those still available
    and those the assignments name; the order of every assignment
    carries the assignment's truck. *)
Record bookkeeping (orders0 : list Order) (st : State) : Prop := {
  bk_nodup : NoDup (available_orders st);
  bk_avail :
    forall r, In r (available_orders st) ->
      exists o, nth_error (orders st) r = Some o /\ is_assigned o = false;
  bk_part :
    Permutation
      (map order_id (filter (fun o => negb (is_assigned o)) orders0))
      (map order_id (orders_at (orders st) (available_orders st))
       ++ map a_order_id (assignments st));
  bk_marked :
    forall a, In a (assignments st) ->
      exists o, In o (orders st) /\ order_id o = a_order_id a /\
                assigned_truck o = Some (a_truck_id a)
}.

(** *** The figures of an assignment *)

(** [Assignment.cost_per_hour] *)
Definition cost_per_hour (self : Assignment) : Q :=
  if Qltb 0 (estimated_duration self)
  then total_cost self / estimated_duration self
  else 0.

(** What a run never changes of a truck and of an order. *)
Definition same_truck (t0 t : Truck) : Prop :=
  truck_id t = truck_id t0 /\ lat t = lat t0 /\ lon t = lon t0 /\
  capacity t = capacity t0 /\ cost_per_km t = cost_per_km t0.

Definition same_order (o0 o : Order) : Prop :=
  order_id o = order_id o0 /\
  pickup_lat o = pickup_lat o0 /\ pickup_lon o = pickup_lon o0 /\
  volume o = volume o0 /\ priority o = priority o0 /\
  deadline_hours o = deadline_hours o0.

(** The figures of an assignment of [order] to [truck], for the
    distance [distance] between them. *)
Definition figures (distance : Q) (truck : Truck) (order : Order) (a : Assignment)
    : Prop :=
  a_truck_id a = truck_id truck /\ a_order_id a = order_id order /\
  distance_km a = distance /\
  estimated_duration a = estimate_travel_time distance default_avg_speed_kmh /\
  total_cost a = distance * cost_per_km truck /\
  score a == cost distance truck order.

(** *** main: the loop over the strategies *)

(** [order.assigned_truck = None] *)
Definition reset_assignment (o : Order) : Order :=
  {| order_id := order_id o;
     pickup_lat := pickup_lat o; pickup_lon := pickup_lon o;
     delivery_lat := delivery_lat o; delivery_lon := delivery_lon o;
     volume := volume o; priority := priority o; customer := customer o;
     deadline_hours := deadline_hours o; value := value o;
     assigned_truck := None |}.

(** What the loop leaves: the stores after each strategy and whether
    the second strategy replaced the first as the best one. *)
Record Comparison : Type := {
  after_greedy : State;
  after_priority : State;
  priority_is_best : bool
}.

Section Main.
Variable calculate_distance : point -> point -> Q.

(** One turn of the loop for the strategy [assign]: the loads of the
    trucks stay as they are, the orders lose their trucks, the strategy
    runs on the shared objects, and the rate is computed. *)
Definition run_strategy (assign : list Truck -> list Order -> result State)
    (trucks : list Truck) (orders : list Order) : result (State * Q) :=
  let orders := map reset_assignment orders in
  st <- assign trucks orders ;;
  let total_score := Qsum (map score (assignments st)) in
  assignment_rate <- py_div (len (assignments st)) (len orders) ;;
  Ok (st, total_score).

(** The loop over [strategies], in the order of the dictionary. The
    first total score is less than [float('inf')]. *)
Definition main_strategies (trucks : list Truck) (orders : list Order)
    : result Comparison :=
  ' (st1, score1) <-
    run_strategy (GreedyNearestStrategy_assign calculate_distance) trucks orders ;;
  ' (st2, score2) <-
    run_strategy (PriorityFirstStrategy_assign calculate_distance)
      (Archive.trucks st1) (Archive.orders st1) ;;
  Ok {| after_greedy := st1;
        after_priority := st2;
        priority_is_best := Qltb score2 score1 |}.
End Main.

End Archive.

(** ** A scenario: one depot where every site lies *)

Module Scenario.
Import Py.
Local Open Scope Q_scope.
Local Open Scope string_scope.

(** All sites of the scenario coincide, and identical points are at
    distance 0 ([calculate_distance_same] below). *)
Definition depot : Dispo.point := (525 # 10, 134 # 10).

Definition depot_distance (p q : Dispo.point) : Q := 0.

(** The module's constants with [AVERAGE_SPEED_KMH = 0]. *)
Definition zero_speed : Dispo.Config := {|
  Dispo.AVERAGE_SPEED_KMH := 0;
  Dispo.PRIORITIES_MAP := Dispo.PRIORITIES_MAP Dispo.constants;
  Dispo.PRIORITY_WEIGHT_FACTOR := Dispo.PRIORITY_WEIGHT_FACTOR Dispo.constants;
  Dispo.DISTANCE_COST_FACTOR := Dispo.DISTANCE_COST_FACTOR Dispo.constants
|}.

Definition T1 : Dispo.Truck := {|
  Dispo.truck_id := "T1";
  Dispo.location := depot;
  Dispo.capacity_kg := 20;
  Dispo.available_from_h := 6;
  Dispo.available_until_h := 18
|}.

Definition T2 : Dispo.Truck := {|
  Dispo.truck_id := "T2";
  Dispo.location := depot;
  Dispo.capacity_kg := 30;
  Dispo.available_from_h := 7;
  Dispo.available_until_h := 17
|}.

(** A truck that can do whatever [T1] can. *)
Definition T3 : Dispo.Truck := {|
  Dispo.truck_id := "T3";
  Dispo.location := depot;
  Dispo.capacity_kg := 40;
  Dispo.available_from_h := 5;
  Dispo.available_until_h := 20
|}.

Definition O1 : Dispo.Order := {|
  Dispo.order_id := "O1";
  Dispo.loading_site := depot;
  Dispo.unloading_site := depot;
  Dispo.weight_kg := 10;
  Dispo.loading_window_early_h := 8;
  Dispo.loading_window_late_h := 10;
  Dispo.loading_duration_h := 1;
  Dispo.unloading_duration_h := 1;
  Dispo.priority := 1%Z
|}.

Definition O2 : Dispo.Order := {|
  Dispo.order_id := "O2";
  Dispo.loading_site := depot;
  Dispo.unloading_site := depot;
  Dispo.weight_kg := 25;
  Dispo.loading_window_early_h := 9;
  Dispo.loading_window_late_h := 12;
  Dispo.loading_duration_h := 1;
  Dispo.unloading_duration_h := 1;
  Dispo.priority := 2%Z
|}.

(** A solution of the scenario's model: [T1] takes [O1], [T2] takes [O2]. *)
Definition chosen : Dispo.solution :=
  fun key => if pair_eqb key ("T1", "O1") || pair_eqb key ("T2", "O2") then 1 else 0.

(** The greedy strategies' objects at the depot. *)
Definition depot_distance_archive (p q : Archive.point) : Q := 0.

Definition LKW1 : Archive.Truck := {|
  Archive.truck_id := "LKW1";
  Archive.lat := 525 # 10;
  Archive.lon := 134 # 10;
  Archive.capacity := 25;
  Archive.current_load := 5;
  Archive.truck_type := Archive.STANDARD;
  Archive.driver_name := "Hans Mueller";
  Archive.max_driving_time := 8;
  Archive.cost_per_km := 12 # 10
|}.

Definition AUF1 : Archive.Order := {|
  Archive.order_id := "AUF1";
  Archive.pickup_lat := 525 # 10;
  Archive.pickup_lon := 134 # 10;
  Archive.delivery_lat := 525 # 10;
  Archive.delivery_lon := 134 # 10;
  Archive.volume := 8;
  Archive.priority := Archive.NORMAL;
  Archive.customer := "TechStart AG";
  Archive.deadline_hours := 24;
  Archive.value := 1000;
  Archive.assigned_truck := None
|}.

Definition AUF2 : Archive.Order := {|
  Archive.order_id := "AUF2";
  Archive.pickup_lat := 525 # 10;
  Archive.pickup_lon := 134 # 10;
  Archive.delivery_lat := 525 # 10;
  Archive.delivery_lon := 134 # 10;
  Archive.volume := 10;
  Archive.priority := Archive.URGENT;
  Archive.customer := "QuickServ Express";
  Archive.deadline_hours := 6;
  Archive.value := 1000;
  Archive.assigned_truck := None
|}.

Definition AUF3 : Archive.Order := {|
  Archive.order_id := "AUF3";
  Archive.pickup_lat := 525 # 10;
  Archive.pickup_lon := 134 # 10;
  Archive.delivery_lat := 525 # 10;
  Archive.delivery_lon := 134 # 10;
  Archive.volume := 6;
  Archive.priority := Archive.HIGH;
  Archive.customer := "MegaCorp GmbH";
  Archive.deadline_hours := 12;
  Archive.value := 1000;
  Archive.assigned_truck := None
|}.

(** An assignment of [AUF1] to [LKW1]. *)
Definition ZU1 : Archive.Assignment := {|
  Archive.a_truck_id := "LKW1";
  Archive.a_order_id := "AUF1";
  Archive.distance_km := 12;
  Archive.estimated_duration := 24 # 100;
  Archive.total_cost := 144 # 10;
  Archive.score := 13
|}.

(** An assignment of [AUF3] to [LKW1]. *)
Definition ZU2 : Archive.Assignment := {|
  Archive.a_truck_id := "LKW1";
  Archive.a_order_id := "AUF3";
  Archive.distance_km := 30;
  Archive.estimated_duration := 6 # 10;
  Archive.total_cost := 36;
  Archive.score := 31
|}.

End Scenario.

(* ================================================================== *)
(** * Part II: properties *)
(* ================================================================== *)

(** ** The great-circle distance *)

Module HaversineFacts.
Import Haversine.
Local Open Scope R_scope.

Lemma haversine_a_sym (lat1 lon1 lat2 lon2 : R) :
  haversine_a lat1 lon1 lat2 lon2 = haversine_a lat2 lon2 lat1 lon1.
Proof.
  unfold haversine_a.
  replace ((lat1 - lat2) / 2) with (- ((lat2 - lat1) / 2)) by lra.
  replace ((lon1 - lon2) / 2) with (- ((lon2 - lon1) / 2)) by lra.
  rewrite !sin_neg. ring.
Qed.

Lemma haversine_a_range (lat1 lon1 lat2 lon2 : R) :
  0 <= haversine_a lat1 lon1 lat2 lon2 <= 1.
Proof.
  unfold haversine_a.
  set (u := (lat2 - lat1) / 2).
  set (v := (lon2 - lon1) / 2).
  assert (HA : cos (lat2 - lat1) = 1 - 2 * sin u * sin u).
  { replace (lat2 - lat1) with (2 * u) by (unfold u; lra). apply cos_2a_sin. }
  assert (HA' : cos (lat2 - lat1) = cos lat2 * cos lat1 + sin lat2 * sin lat1)
    by apply cos_minus.
  assert (HB : cos (lat2 + lat1) = cos lat2 * cos lat1 - sin lat2 * sin lat1)
    by apply cos_plus.
  pose proof (COS_bound (lat2 - lat1)) as [A1 A2].
  pose proof (COS_bound (lat2 + lat1)) as [B1 B2].
  pose proof (SIN_bound v) as [S1 S2].
  assert (S3 : 0 <= sin v * sin v <= 1) by nra.
  destruct S3 as [S3 S4].
  set (s := sin v * sin v) in *.
  set (A := cos (lat2 - lat1)) in *.
  set (B := cos (lat2 + lat1)) in *.
  assert (E : sin u ^ 2 + cos lat1 * cos lat2 * sin v ^ 2
              = ((1 - s) * (1 - A) + s * (1 + B)) / 2).
  { unfold s. nra. }
  rewrite E. split; nra.
Qed.

Lemma asin_nonneg (x : R) : 0 <= x <= 1 -> 0 <= asin x.
Proof.
  intros [H0 H1].
  destruct (Rle_dec 0 (asin x)) as [|Hneg]; [assumption|].
  exfalso.
  pose proof (asin_bound x) as [Hlo _].
  assert (Hs : sin (asin x) < 0).
  { apply sin_lt_0_var; [|lra]. pose proof PI_RGT_0. lra. }
  rewrite sin_asin in Hs by lra. lra.
Qed.

Lemma central_angle_total (p q : point) :
  exists c, central_angle p q = Some c /\ 0 <= c.
Proof.
  destruct p as [lat1 lon1], q as [lat2 lon2]. unfold central_angle.
  set (a := haversine_a _ _ _ _).
  assert (Ha : 0 <= a <= 1) by apply haversine_a_range.
  unfold math_sqrt. destruct (Rlt_dec a 0) as [Hneg|_]; [lra|].
  assert (Hs : 0 <= sqrt a <= 1).
  { split; [apply sqrt_pos|]. rewrite <- sqrt_1. apply sqrt_le_1_alt. lra. }
  unfold math_asin.
  destruct (Rlt_dec (sqrt a) (-1)) as [H1|_]; [lra|].
  destruct (Rlt_dec 1 (sqrt a)) as [H2|_]; [lra|].
  eexists; split; [reflexivity|].
  pose proof (asin_nonneg Hs). lra.
Qed.

Lemma central_angle_sym (p q : point) : central_angle p q = central_angle q p.
Proof.
  destruct p as [lat1 lon1], q as [lat2 lon2]. unfold central_angle.
  rewrite (haversine_a_sym (radians lat1)). reflexivity.
Qed.

Lemma round_half_even_nonneg (x : R) : 0 <= x -> (0 <= round_half_even x)%Z.
Proof.
  intros Hx. unfold round_half_even.
  destruct (base_Int_part x) as [Hle Hgt].
  assert (Hf : (0 <= Int_part x)%Z).
  { apply Z.lt_succ_r. apply lt_IZR. rewrite succ_IZR. lra. }
  destruct (Rlt_dec _ _); [assumption|].
  destruct (Rlt_dec _ _); [lia|].
  destruct (Z.even _); lia.
Qed.

Lemma round2_nonneg (x : R) : 0 <= x -> 0 <= round2 x.
Proof.
  intros Hx. unfold round2.
  assert (H : (0 <= round_half_even (x * 100))%Z)
    by (apply round_half_even_nonneg; lra).
  apply IZR_le in H. lra.
Qed.

(** The rounded value is within half a hundredth of the exact one. *)
Lemma round2_close (x : R) : Rabs (round2 x - x) <= 1 / 200.
Proof.
  unfold round2, round_half_even.
  destruct (base_Int_part (x * 100)) as [Hle Hgt].
  set (f := Int_part (x * 100)) in *.
  destruct (Rlt_dec _ _) as [H1|H1].
  - apply Rabs_le. lra.
  - destruct (Rlt_dec _ _) as [H2|H2].
    + rewrite plus_IZR. apply Rabs_le. lra.
    + destruct (Z.even f); [|rewrite plus_IZR]; apply Rabs_le; lra.
Qed.

(** Identical points are at distance 0. *)
Lemma round2_0 : round2 0 = 0.
Proof.
  unfold round2, round_half_even.
  replace (0 * 100) with (INR 0) by (simpl; lra).
  rewrite Int_part_INR. simpl.
  destruct (Rlt_dec _ _) as [_|H]; [lra | exfalso; apply H; lra].
Qed.

Lemma calculate_distance_same (p : point) : calculate_distance p p = Some 0.
Proof.
  destruct p as [lat1 lon1].
  unfold calculate_distance, central_angle, haversine_a.
  replace ((radians lat1 - radians lat1) / 2) with 0 by lra.
  replace ((radians lon1 - radians lon1) / 2) with 0 by lra.
  rewrite sin_0.
  replace (0 ^ 2 + cos (radians lat1) * cos (radians lat1) * 0 ^ 2) with 0 by ring.
  unfold math_sqrt. destruct (Rlt_dec 0 0) as [H|_]; [lra|].
  rewrite sqrt_0. unfold math_asin.
  destruct (Rlt_dec 0 (-1)) as [H|_]; [lra|].
  destruct (Rlt_dec 1 0) as [H|_]; [lra|].
  rewrite asin_0. cbv zeta.
  replace (2 * 0 * 6371) with 0 by ring.
  rewrite round2_0. reflexivity.
Qed.

(** C10. [calculate_distance] is symmetric and non-negative: in both
    variants the call for [(p, q)] returns what the call for [(q, p)]
    returns, and that is a non-negative number; the canonical variant
    (dispo.py) always returns a number (no domain error), and it is a
    multiple of 0.01 km. *)
Theorem calculate_distance_symmetric_nonneg (p q : point) :
  (exists d : R,
      calculate_distance p q = Some d /\
      calculate_distance q p = Some d /\
      0 <= d /\
      exists k : Z, d = IZR k * (1 / 100)) /\
  calculate_distance_archive p q = calculate_distance_archive q p /\
  xreal_nonneg (calculate_distance_archive p q).
Proof.
  destruct (central_angle_total p q) as [c [Hc Hc0]].
  pose proof (central_angle_sym q p) as Hsym.
  unfold calculate_distance, calculate_distance_archive.
  rewrite Hsym, Hc. cbv zeta.
  split; [|split].
  - exists (round2 (c * 6371)). repeat split.
    + apply round2_nonneg. nra.
    + exists (round_half_even (c * 6371 * 100)). unfold round2. lra.
  - reflexivity.
  - simpl. nra.
Qed.

End HaversineFacts.

(** ** Python data *)

Module PyFacts.
Import Py.
Local Open Scope Q_scope.

Lemma Qltb_lt (x y : Q) : Qltb x y = true <-> x < y.
Proof.
  unfold Qltb. rewrite negb_true_iff, <- not_true_iff_false, Qle_bool_iff.
  split; [apply Qnot_le_lt | apply Qlt_not_le].
Qed.

Lemma Qltb_ge (x y : Q) : Qltb x y = false <-> y <= x.
Proof.
  unfold Qltb. rewrite negb_false_iff, Qle_bool_iff. reflexivity.
Qed.

Lemma Qle_bool_gt (x y : Q) : Qle_bool x y = false <-> y < x.
Proof.
  rewrite <- not_true_iff_false, Qle_bool_iff.
  split; [apply Qnot_le_lt | apply Qlt_not_le].
Qed.

Lemma num_gtb_Fin (x y : Q) : num_gtb (Fin x) (Fin y) = false <-> x <= y.
Proof. simpl. apply Qltb_ge. Qed.

Lemma num_gtb_Inf (y : Q) : num_gtb Inf (Fin y) = true.
Proof. reflexivity. Qed.

(** [Qsum] is a sum. *)
Lemma fold_left_Qplus (l : list Q) (a : Q) : fold_left Qplus l a == a + Qsum l.
Proof.
  unfold Qsum. revert a. induction l as [|x l IH]; intros a; simpl.
  - ring.
  - rewrite IH, (IH (0 + x)). ring.
Qed.

Lemma Qsum_cons (x : Q) (l : list Q) : Qsum (x :: l) == x + Qsum l.
Proof. unfold Qsum at 1. simpl. rewrite fold_left_Qplus. ring. Qed.

Lemma Qsum_app (l1 l2 : list Q) : Qsum (l1 ++ l2) == Qsum l1 + Qsum l2.
Proof.
  induction l1 as [|x l1 IH]; simpl.
  - unfold Qsum at 2. simpl. ring.
  - rewrite !Qsum_cons, IH. ring.
Qed.

Lemma Qsum_nonneg (l : list Q) : Forall (fun x => 0 <= x) l -> 0 <= Qsum l.
Proof.
  induction 1 as [|x l Hx _ IH].
  - unfold Qsum; simpl. apply Qle_refl.
  - rewrite Qsum_cons. Lqa.lra.
Qed.

#[export] Instance string_EqKeyLaws : EqKeyLaws string.
Proof. intros a b. apply String.eqb_eq. Qed.

#[export] Instance pair_EqKeyLaws : EqKeyLaws (string * string).
Proof.
  intros [a1 a2] [b1 b2]. unfold keqb, pair_EqKey, pair_eqb. simpl.
  rewrite andb_true_iff, !String.eqb_eq.
  split; [intros [-> ->]; reflexivity | intros E; inversion E; auto].
Qed.

Section DictFacts.
Context {K V : Type} `{EqKeyLaws K}.

Lemma keqb_refl (k : K) : keqb k k = true.
Proof. apply keqb_eq. reflexivity. Qed.

Lemma keqb_neq (a b : K) : keqb a b = false <-> a <> b.
Proof. rewrite <- not_true_iff_false, keqb_eq. reflexivity. Qed.

Lemma dict_get_set (d : dict K V) (k k' : K) (v : V) :
  dict_get (dict_set d k v) k' = if keqb k' k then Some v else dict_get d k'.
Proof.
  induction d as [|[k0 v0] d IH]; simpl.
  - reflexivity.
  - destruct (keqb k k0) eqn:E; simpl.
    + apply keqb_eq in E. subst k0. destruct (keqb k' k); reflexivity.
    + rewrite IH. destruct (keqb k' k0) eqn:E0; [|reflexivity].
      apply keqb_eq in E0. subst k0.
      destruct (keqb k' k) eqn:E1; [|reflexivity].
      apply keqb_eq in E1. subst k'. rewrite keqb_refl in E. discriminate.
Qed.

Lemma dict_get_Some_In (d : dict K V) (k : K) (v : V) :
  dict_get d k = Some v -> In (k, v) d.
Proof.
  induction d as [|[k0 v0] d IH]; simpl; [discriminate|].
  destruct (keqb k k0) eqn:E.
  - apply keqb_eq in E. subst k0. intros [= ->]. left; reflexivity.
  - intros Hg. right. apply IH, Hg.
Qed.

Lemma dict_mem_In (d : dict K V) (k : K) :
  dict_mem d k = true <-> In k (dict_keys d).
Proof.
  unfold dict_mem, dict_keys.
  induction d as [|[k0 v0] d IH]; simpl.
  - split; [discriminate | tauto].
  - destruct (keqb k k0) eqn:E.
    + apply keqb_eq in E. subst k0. split; auto.
    + apply keqb_neq in E. rewrite IH. split; [tauto|].
      intros [E'|Hin]; [congruence | assumption].
Qed.

Lemma dict_mem_set (d : dict K V) (k k' : K) (v : V) :
  dict_mem (dict_set d k v) k' = keqb k' k || dict_mem d k'.
Proof.
  unfold dict_mem. rewrite dict_get_set. destruct (keqb k' k); reflexivity.
Qed.

Lemma dict_keys_set_NoDup (d : dict K V) (k : K) (v : V) :
  NoDup (dict_keys d) -> NoDup (dict_keys (dict_set d k v)).
Proof.
  intros Hnd. induction d as [|[k0 v0] d IH]; simpl.
  - constructor; [intros []|constructor].
  - inversion Hnd as [|? ? Hnin Hnd']; subst.
    destruct (keqb k k0) eqn:E; simpl.
    + constructor; assumption.
    + constructor; [|apply IH, Hnd'].
      intros Hin. apply dict_mem_In in Hin.
      rewrite dict_mem_set in Hin. apply orb_true_iff in Hin.
      destruct Hin as [E'|Hin].
      * apply keqb_eq in E'. subst k0. rewrite keqb_refl in E. discriminate.
      * apply dict_mem_In in Hin. apply Hnin, Hin.
Qed.

Lemma dict_set_Forall (P : K * V -> Prop) (d : dict K V) (k : K) (v : V) :
  (forall k0, k0 = k -> P (k0, v)) ->
  Forall P d -> Forall P (dict_set d k v).
Proof.
  intros Hk Hd. induction Hd as [|[k0 v0] d Hp Hd IH]; simpl.
  - constructor; [apply Hk; reflexivity | constructor].
  - destruct (keqb k k0) eqn:E.
    + apply keqb_eq in E. constructor; [apply Hk; symmetry; exact E | exact Hd].
    + constructor; assumption.
Qed.

Lemma dict_get_In_NoDup (d : dict K V) (k : K) (v : V) :
  NoDup (dict_keys d) -> In (k, v) d -> dict_get d k = Some v.
Proof.
  induction d as [|[k0 v0] d IH]; simpl; [tauto|].
  intros Hnd Hin. inversion Hnd as [|? ? Hnin Hnd']; subst.
  destruct Hin as [E|Hin].
  - inversion E; subst. rewrite keqb_refl. reflexivity.
  - destruct (keqb k k0) eqn:E.
    + apply keqb_eq in E. subst k0. exfalso. apply Hnin.
      unfold dict_keys. apply in_map_iff. exists (k, v). auto.
    + apply IH; assumption.
Qed.
End DictFacts.

Section SortFacts.
Context {A : Type} (leb : A -> A -> bool).

Lemma insert_sorted_perm (x : A) (l : list A) :
  Permutation (x :: l) (insert_sorted leb x l).
Proof.
  induction l as [|y l IH]; simpl.
  - reflexivity.
  - destruct (leb x y); [reflexivity|].
    rewrite perm_swap. constructor. exact IH.
Qed.

Lemma stable_sort_perm (l : list A) : Permutation l (stable_sort leb l).
Proof.
  induction l as [|x l IH]; simpl.
  - constructor.
  - rewrite <- insert_sorted_perm. constructor. exact IH.
Qed.
End SortFacts.

Lemma stable_sort_nil {A : Type} (leb : A -> A -> bool) : stable_sort leb [] = [].
Proof. reflexivity. Qed.

End PyFacts.

(** ** The canonical pipeline: feasibility analysis *)

Module DispoFacts.
Import Py PyFacts Dispo.
Local Open Scope Q_scope.

Section Feasibility.
Variable calculate_distance : point -> point -> Q.
Variable cfg : Config.

Local Abbreviation check_pair := (check_pair calculate_distance cfg).
Local Abbreviation recorded := (recorded calculate_distance cfg).
Local Abbreviation feasible := (feasible calculate_distance cfg).
Local Abbreviation permissible_pairs_loop := (permissible_pairs_loop calculate_distance cfg).
Local Abbreviation from_pair := (from_pair calculate_distance cfg).
Local Abbreviation pairs_of := (pairs_of calculate_distance cfg).

(** The loop body either skips the pair or stores its record. *)
Lemma check_pair_recorded (truck : Truck) (order : Order)
    (pairs : dict pair_key PairValues) :
  check_pair truck pairs order =
  match recorded truck order with
  | Some v => dict_set pairs (truck_id truck, order_id order) v
  | None => pairs
  end.
Proof.
  unfold Dispo.recorded, Dispo.check_pair.
  destruct (Qltb _ _); [reflexivity|].
  destruct (num_gtb _ _); [reflexivity|].
  destruct (num_gtb _ _); [reflexivity|].
  cbn [dict_set dict_get]. rewrite keqb_refl. reflexivity.
Qed.

(** With a positive speed the code accepts exactly the feasible pairs. *)
Lemma recorded_feasible (truck : Truck) (order : Order) :
  0 < AVERAGE_SPEED_KMH cfg ->
  (recorded truck order <> None <-> feasible truck order).
Proof.
  intros Hspeed.
  assert (Hs : Qle_bool (AVERAGE_SPEED_KMH cfg) 0 = false)
    by (apply Qle_bool_gt; exact Hspeed).
  unfold Dispo.recorded, Dispo.check_pair, Dispo.feasible, Dispo.loadingEnd,
    Dispo.loadingStart, Dispo.travelTime, Dispo.calculate_travel_time_h.
  rewrite Hs. cbn [num_add num_max].
  destruct (Qltb (capacity_kg truck) (weight_kg order)) eqn:E1.
  { apply Qltb_lt in E1. cbn. split; [congruence|].
    intros [H _]. exfalso. apply (Qlt_not_le _ _ E1 H). }
  apply Qltb_ge in E1.
  match goal with |- context [num_gtb (Fin ?a) (Fin ?b)] =>
    destruct (num_gtb (Fin a) (Fin b)) eqn:E2 end.
  { cbn in E2. apply Qltb_lt in E2. cbn. split; [congruence|].
    intros [_ [H _]]. exfalso. apply (Qlt_not_le _ _ E2 H). }
  apply num_gtb_Fin in E2.
  match goal with |- context [num_gtb (Fin ?a) (Fin ?b)] =>
    destruct (num_gtb (Fin a) (Fin b)) eqn:E3 end.
  { cbn in E3. apply Qltb_lt in E3. cbn. split; [congruence|].
    intros [_ [_ H]]. exfalso. apply (Qlt_not_le _ _ E3 H). }
  apply num_gtb_Fin in E3.
  cbn [dict_set dict_get]. rewrite keqb_refl.
  split; [intros _; auto | congruence].
Qed.

(** With a non-positive speed the code accepts no pair. *)
Lemma recorded_no_speed (truck : Truck) (order : Order) :
  AVERAGE_SPEED_KMH cfg <= 0 -> recorded truck order = None.
Proof.
  intros Hspeed. apply Qle_bool_iff in Hspeed.
  unfold Dispo.recorded, Dispo.check_pair, Dispo.calculate_travel_time_h.
  rewrite Hspeed. cbn [num_add num_max num_gtb].
  destruct (Qltb _ _); reflexivity.
Qed.

Lemma from_pair_mono (ts ts' : list Truck) (os os' : list Order) item :
  incl ts ts' -> incl os os' -> from_pair ts os item -> from_pair ts' os' item.
Proof.
  intros Ht Ho (t & o & (H1 & H2 & H3 & H4) & Hr).
  exists t, o. split; [|exact Hr]. repeat split; auto.
Qed.

Section InnerLoop.
Variable truck : Truck.

Lemma inner_loop_keys (order_list : list Order) (pairs : dict pair_key PairValues)
    (k : pair_key) :
  In k (dict_keys (fold_left (check_pair truck) order_list pairs)) <->
  In k (dict_keys pairs) \/
  exists order, In order order_list /\ k = (truck_id truck, order_id order) /\
                recorded truck order <> None.
Proof.
  revert pairs. induction order_list as [|o os IH]; intros pairs; simpl.
  - split; [auto | intros [H|(o & [] & _)]; exact H].
  - rewrite IH, check_pair_recorded.
    destruct (recorded truck o) as [v|] eqn:Er.
    + rewrite <- !dict_mem_In, dict_mem_set, orb_true_iff, keqb_eq.
      split.
      * intros [[E|H]|(o' & Hin & Hk & Hr)]; auto.
        -- right. exists o. rewrite Er. repeat split; auto. discriminate.
        -- right. exists o'. auto.
      * intros [H|(o' & [E|Hin] & Hk & Hr)]; auto.
        -- subst o'. auto.
        -- right. exists o'. auto.
    + split.
      * intros [H|(o' & Hin & Hk & Hr)]; auto. right. exists o'. auto.
      * intros [H|(o' & [E|Hin] & Hk & Hr)]; auto.
        -- subst o'. congruence.
        -- right. exists o'. auto.
Qed.

Lemma inner_loop_NoDup (order_list : list Order) (pairs : dict pair_key PairValues) :
  NoDup (dict_keys pairs) ->
  NoDup (dict_keys (fold_left (check_pair truck) order_list pairs)).
Proof.
  revert pairs. induction order_list as [|o os IH]; intros pairs Hnd; simpl; auto.
  apply IH. rewrite check_pair_recorded.
  destruct (recorded truck o); [apply dict_keys_set_NoDup|]; exact Hnd.
Qed.

Lemma inner_loop_items (P : pair_key * PairValues -> Prop)
    (order_list : list Order) (pairs : dict pair_key PairValues) :
  (forall order v, In order order_list -> recorded truck order = Some v ->
                   P ((truck_id truck, order_id order), v)) ->
  Forall P pairs ->
  Forall P (fold_left (check_pair truck) order_list pairs).
Proof.
  revert pairs. induction order_list as [|o os IH]; intros pairs HP Hd; simpl; auto.
  apply IH; [intros o' v Hin; apply HP; right; exact Hin|].
  rewrite check_pair_recorded.
  destruct (recorded truck o) as [v|] eqn:Er; [|exact Hd].
  apply dict_set_Forall; [|exact Hd].
  intros k0 ->. apply HP; [left; reflexivity | exact Er].
Qed.
End InnerLoop.

Lemma loop_keys (truck_list : list Truck) (order_list : list Order)
    (pairs : dict pair_key PairValues) (k : pair_key) :
  In k (dict_keys (permissible_pairs_loop truck_list order_list pairs)) <->
  In k (dict_keys pairs) \/
  exists truck order,
    names_pair truck_list order_list k truck order /\ recorded truck order <> None.
Proof.
  unfold Dispo.permissible_pairs_loop, names_pair.
  revert pairs. induction truck_list as [|t ts IH]; intros pairs; simpl.
  - split; [auto | intros [H|(t & o & ([] & _) & _)]; exact H].
  - rewrite IH, inner_loop_keys. split.
    + intros [[H|(o & Hin & -> & Hr)]|(t' & o & (H1 & H2 & H3 & H4) & Hr)]; auto.
      * right. exists t, o. simpl. repeat split; auto.
      * right. exists t', o. repeat split; auto.
    + intros [H|(t' & o & ([E|H1] & H2 & H3 & H4) & Hr)]; auto.
      * subst t'. left. right. exists o. destruct k; simpl in *; subst.
        repeat split; auto.
      * right. exists t', o. repeat split; auto.
Qed.

Lemma loop_NoDup (truck_list : list Truck) (order_list : list Order)
    (pairs : dict pair_key PairValues) :
  NoDup (dict_keys pairs) ->
  NoDup (dict_keys (permissible_pairs_loop truck_list order_list pairs)).
Proof.
  unfold Dispo.permissible_pairs_loop.
  revert pairs. induction truck_list as [|t ts IH]; intros pairs Hnd; simpl; auto.
  apply IH, inner_loop_NoDup, Hnd.
Qed.

Lemma loop_items (truck_list all_trucks : list Truck) (order_list : list Order)
    (pairs : dict pair_key PairValues) :
  incl truck_list all_trucks ->
  Forall (from_pair all_trucks order_list) pairs ->
  Forall (from_pair all_trucks order_list)
         (permissible_pairs_loop truck_list order_list pairs).
Proof.
  unfold Dispo.permissible_pairs_loop.
  revert pairs. induction truck_list as [|t ts IH]; intros pairs Hincl Hd; simpl; auto.
  apply IH; [intros x Hx; apply Hincl; right; exact Hx|].
  apply inner_loop_items; [|exact Hd].
  intros o v Hin Hr. exists t, o. split; [|exact Hr].
  repeat split; auto. apply Hincl. left; reflexivity.
Qed.

(** Identifiers that are unique name one object. *)
Lemma unique_id {A : Type} (id : A -> string) (l : list A) (x y : A) :
  NoDup (map id l) -> In x l -> In y l -> id x = id y -> x = y.
Proof.
  induction l as [|a l IH]; simpl; [tauto|].
  intros Hnd Hx Hy E. inversion Hnd as [|? ? Hnin Hnd']; subst.
  destruct Hx as [->|Hx], Hy as [->|Hy]; auto.
  - exfalso. apply Hnin. rewrite E. apply in_map, Hy.
  - exfalso. apply Hnin. rewrite <- E. apply in_map, Hx.
Qed.

Lemma pairs_of_keys (truck_list : list Truck) (order_list : list Order) (k : pair_key) :
  In k (dict_keys (pairs_of truck_list order_list)) <->
  exists truck order,
    names_pair truck_list order_list k truck order /\ recorded truck order <> None.
Proof.
  unfold Dispo.pairs_of. rewrite loop_keys. simpl. tauto.
Qed.

Lemma pairs_of_NoDup (truck_list : list Truck) (order_list : list Order) :
  NoDup (dict_keys (pairs_of truck_list order_list)).
Proof. apply loop_NoDup. constructor. Qed.

Lemma pairs_of_items (truck_list : list Truck) (order_list : list Order) :
  Forall (from_pair truck_list order_list) (pairs_of truck_list order_list).
Proof. apply loop_items; [apply incl_refl | constructor]. Qed.

Lemma pairs_of_mem (truck_list : list Truck) (order_list : list Order) (k : pair_key) :
  0 < AVERAGE_SPEED_KMH cfg ->
  (dict_mem (pairs_of truck_list order_list) k = true <->
   exists truck order,
     names_pair truck_list order_list k truck order /\ feasible truck order).
Proof.
  intros Hspeed. rewrite dict_mem_In, pairs_of_keys.
  split; intros (t & o & Hn & Hf); exists t, o; split; auto;
    apply (recorded_feasible t o Hspeed); exact Hf.
Qed.

Lemma pairs_of_mem_unique (truck_list : list Truck) (order_list : list Order)
    (truck : Truck) (order : Order) :
  0 < AVERAGE_SPEED_KMH cfg ->
  NoDup (map truck_id truck_list) -> NoDup (map order_id order_list) ->
  In truck truck_list -> In order order_list ->
  (dict_mem (pairs_of truck_list order_list) (truck_id truck, order_id order) = true
   <-> feasible truck order).
Proof.
  intros Hspeed Hts Hos Ht Ho. rewrite pairs_of_mem by exact Hspeed.
  split.
  - intros (t & o & (H1 & H2 & H3 & H4) & Hf). simpl in H3, H4.
    rewrite <- (unique_id truck_id truck_list t truck Hts H1 Ht H3).
    rewrite <- (unique_id order_id order_list o order Hos H2 Ho H4).
    exact Hf.
  - intros Hf. exists truck, order. split; [|exact Hf].
    repeat split; auto.
Qed.

(** With unique identifiers, the value under a pair's key is the record
    of that pair. *)
Lemma pairs_of_get_unique (truck_list : list Truck) (order_list : list Order)
    (truck : Truck) (order : Order) (v : PairValues) :
  NoDup (map truck_id truck_list) -> NoDup (map order_id order_list) ->
  In truck truck_list -> In order order_list ->
  recorded truck order = Some v ->
  dict_get (pairs_of truck_list order_list) (truck_id truck, order_id order) = Some v.
Proof.
  intros Hts Hos Ht Ho Hr.
  assert (Hin : In (truck_id truck, order_id order)
                   (dict_keys (pairs_of truck_list order_list))).
  { apply pairs_of_keys. exists truck, order. split; [|congruence].
    repeat split; auto. }
  apply dict_mem_In in Hin. unfold dict_mem in Hin.
  destruct (dict_get _ _) as [v'|] eqn:Eg; [|discriminate].
  apply dict_get_Some_In in Eg.
  pose proof (pairs_of_items truck_list order_list) as Hall.
  rewrite Forall_forall in Hall. apply Hall in Eg.
  destruct Eg as (t & o & (H1 & H2 & H3 & H4) & Hr'). simpl in *.
  rewrite (unique_id truck_id truck_list t truck Hts H1 Ht H3) in Hr'.
  rewrite (unique_id order_id order_list o order Hos H2 Ho H4) in Hr'.
  congruence.
Qed.


(** C6, as the code has it. A non-positive average speed is not
    rejected: [calculate_travel_time_h] then returns [float('inf')] for
    every distance, and the feasibility analysis runs to its end and
    keeps no pair.  With a positive speed the travel time is
    [distance / speed]. *)
Theorem travel_time_by_speed :
  (AVERAGE_SPEED_KMH cfg <= 0 ->
   (forall distance_km, calculate_travel_time_h cfg distance_km = Inf) /\
   (forall truck_list order_list stdout,
       determine_permissible_pairs_and_values calculate_distance cfg
         truck_list order_list stdout
       = ([], stdout ++ [MsgDeterminePairs; MsgPairCount 0]))) /\
  (0 < AVERAGE_SPEED_KMH cfg ->
   forall distance_km,
     calculate_travel_time_h cfg distance_km
     = Fin (distance_km / AVERAGE_SPEED_KMH cfg)).
Proof.
  split.
  - intros Hspeed. split.
    + intros d. unfold calculate_travel_time_h.
      apply Qle_bool_iff in Hspeed. rewrite Hspeed. reflexivity.
    + intros ts os out. unfold determine_permissible_pairs_and_values.
      assert (E : permissible_pairs_loop ts os [] = []).
      { destruct (permissible_pairs_loop ts os []) as [|[k v] rest] eqn:El;
          [reflexivity|].
        exfalso.
        assert (Hin : In k (dict_keys (pairs_of ts os))).
        { unfold Dispo.pairs_of. rewrite El. left. reflexivity. }
        apply pairs_of_keys in Hin. destruct Hin as (t & o & _ & Hr).
        apply Hr, recorded_no_speed, Hspeed. }
      rewrite E. reflexivity.
  - intros Hspeed d. unfold calculate_travel_time_h.
    apply Qle_bool_gt in Hspeed. rewrite Hspeed. reflexivity.
Qed.

End Feasibility.



(** C6, as stated, fails: with [AVERAGE_SPEED_KMH = 0] nothing is
    rejected; the travel time of 100 km is [float('inf')] and the
    feasibility analysis returns normally, with an empty dictionary. *)
Lemma zero_speed_not_rejected :
  calculate_travel_time_h Scenario.zero_speed 100 = Inf /\
  determine_permissible_pairs_and_values Scenario.depot_distance Scenario.zero_speed
    [Scenario.T1; Scenario.T2] [Scenario.O1; Scenario.O2] []
  = ([], [MsgDeterminePairs; MsgPairCount 0]).
Proof. split; reflexivity. Qed.

Lemma travel_time_by_speed_witness :
  calculate_travel_time_h Scenario.zero_speed 100 = Inf /\
  calculate_travel_time_h constants 100 = Fin (100 / 80).
Proof.
  split.
  - apply (travel_time_by_speed Scenario.depot_distance Scenario.zero_speed).
    vm_compute. discriminate.
  - apply (travel_time_by_speed Scenario.depot_distance constants). reflexivity.
Defined.

(** ** The canonical pipeline: the 0/1 program and its solutions *)

Section Model.
Variable calculate_distance : point -> point -> Q.
Variable cfg : Config.

Local Abbreviation recorded := (recorded calculate_distance cfg).
Local Abbreviation pairs_of := (pairs_of calculate_distance cfg).
Local Abbreviation create_lp_model := (create_lp_model cfg).

Lemma fold_add_constraint {A : Type} (f : A -> LpConstraint) (l : list A)
    (prob : LpProblem) :
  let prob' := fold_left (fun p x => add_constraint p (f x)) l prob in
  constraints prob' = constraints prob ++ map f l /\
  objective prob' = objective prob /\
  sense prob' = sense prob.
Proof.
  revert prob. induction l as [|x l IH]; intros prob; simpl.
  - rewrite app_nil_r. auto.
  - destruct (IH (add_constraint prob (f x))) as (Hc & Ho & Hs).
    rewrite Hc, Ho, Hs. simpl. rewrite <- app_assoc. auto.
Qed.

Lemma create_lp_model_constraints (truck_list : list Truck) (order_list : list Order)
    (pairs : dict pair_key PairValues) :
  constraints (fst (create_lp_model truck_list order_list pairs))
  = map (order_constraint truck_list (dict_keys pairs)) order_list
    ++ map (truck_constraint order_list (dict_keys pairs)) truck_list.
Proof.
  unfold Dispo.create_lp_model. cbn [fst].
  match goal with |- context [fold_left ?g truck_list ?p] =>
    destruct (fold_add_constraint
                (truck_constraint order_list (dict_keys pairs)) truck_list p)
      as (Hc & _ & _) end.
  rewrite Hc.
  match goal with |- context [fold_left ?g order_list ?p] =>
    destruct (fold_add_constraint
                (order_constraint truck_list (dict_keys pairs)) order_list p)
      as (Hc' & _ & _) end.
  rewrite Hc'. reflexivity.
Qed.

Lemma create_lp_model_objective (truck_list : list Truck) (order_list : list Order)
    (pairs : dict pair_key PairValues) :
  let prob := fst (create_lp_model truck_list order_list pairs) in
  sense prob = LpMaximize /\
  objective prob
  = map (fun item : pair_key * PairValues =>
           (PRIORITY_WEIGHT_FACTOR cfg * prio_gewicht (snd item)
            - DISTANCE_COST_FACTOR cfg * distanz_gesamt_fuer_auftrag (snd item),
            fst item)) pairs.
Proof.
  unfold Dispo.create_lp_model. cbn [fst].
  match goal with |- context [fold_left ?g truck_list ?p] =>
    destruct (fold_add_constraint
                (truck_constraint order_list (dict_keys pairs)) truck_list p)
      as (_ & Ho & Hs) end.
  cbv zeta. rewrite Ho, Hs.
  match goal with |- context [fold_left ?g order_list ?p] =>
    destruct (fold_add_constraint
                (order_constraint truck_list (dict_keys pairs)) order_list p)
      as (_ & Ho' & Hs') end.
  rewrite Ho', Hs'. cbn [sense objective]. split; [reflexivity|].
  apply map_ext. intros [k v]. reflexivity.
Qed.

Lemma create_lp_model_vars (truck_list : list Truck) (order_list : list Order)
    (pairs : dict pair_key PairValues) :
  snd (create_lp_model truck_list order_list pairs) = dict_keys pairs.
Proof. reflexivity. Qed.

Lemma in_x_vars_In (x_vars : list pair_key) (k : pair_key) :
  in_x_vars x_vars k = true <-> In k x_vars.
Proof.
  unfold in_x_vars. rewrite existsb_exists. split.
  - intros (k' & Hin & E). apply keqb_eq in E. subst. exact Hin.
  - intros Hin. exists k. split; [exact Hin | apply keqb_refl].
Qed.

(** What the code records carries the priority weight and the total
    distance of the pair, and its order fits the truck's capacity. *)
Lemma recorded_values (truck : Truck) (order : Order) (v : PairValues) :
  recorded truck order = Some v ->
  prio_gewicht v = priorityWeight cfg order /\
  distanz_gesamt_fuer_auftrag v = totalDistance calculate_distance truck order /\
  distanz_anfahrt v = calculate_distance (location truck) (loading_site order) /\
  distanz_transport v = calculate_distance (loading_site order) (unloading_site order) /\
  weight_kg order <= capacity_kg truck.
Proof.
  unfold Dispo.recorded, Dispo.check_pair.
  destruct (Qltb _ _) eqn:E1; [discriminate|]. apply Qltb_ge in E1.
  destruct (num_gtb _ _); [discriminate|].
  destruct (num_gtb _ _); [discriminate|].
  cbn [dict_set dict_get]. rewrite keqb_refl. intros [= <-].
  cbn. auto.
Qed.

(** *** Sums of 0/1 values *)

Section Sums.
Variable varValue : solution.

Lemma lhs_value_cons (k : pair_key) (l : list pair_key) :
  lhs_value varValue (k :: l) == varValue k + lhs_value varValue l.
Proof. unfold lhs_value. simpl. apply Qsum_cons. Qed.

Lemma lhs_value_nonneg (l : list pair_key) :
  (forall k, In k l -> 0 <= varValue k) -> 0 <= lhs_value varValue l.
Proof.
  intros H. apply Qsum_nonneg. apply Forall_forall.
  intros x Hx. apply in_map_iff in Hx. destruct Hx as (k & <- & Hk). auto.
Qed.

Lemma lhs_value_member (l : list pair_key) (k : pair_key) :
  (forall k, In k l -> 0 <= varValue k) -> In k l ->
  varValue k <= lhs_value varValue l.
Proof.
  induction l as [|x l IH]; intros Hnn Hin; [destruct Hin|].
  rewrite lhs_value_cons.
  assert (Hl : 0 <= lhs_value varValue l)
    by (apply lhs_value_nonneg; intros; apply Hnn; right; assumption).
  assert (Hx : 0 <= varValue x) by (apply Hnn; left; reflexivity).
  destruct Hin as [->|Hin].
  - Lqa.lra.
  - assert (varValue k <= lhs_value varValue l)
      by (apply IH; [intros; apply Hnn; right|]; assumption).
    Lqa.lra.
Qed.

Lemma lhs_value_two_members (l : list pair_key) (k1 k2 : pair_key) :
  (forall k, In k l -> 0 <= varValue k) -> In k1 l -> In k2 l -> k1 <> k2 ->
  varValue k1 + varValue k2 <= lhs_value varValue l.
Proof.
  induction l as [|x l IH]; intros Hnn H1 H2 Hne; [destruct H1|].
  rewrite lhs_value_cons.
  assert (Hx : 0 <= varValue x) by (apply Hnn; left; reflexivity).
  assert (Hnn' : forall k, In k l -> 0 <= varValue k)
    by (intros; apply Hnn; right; assumption).
  destruct H1 as [->|H1], H2 as [->|H2].
  - congruence.
  - pose proof (lhs_value_member l k2 Hnn' H2). Lqa.lra.
  - pose proof (lhs_value_member l k1 Hnn' H1). Lqa.lra.
  - pose proof (IH Hnn' H1 H2 Hne). Lqa.lra.
Qed.
End Sums.

(** *** Solutions of the model of a run *)

Section Solutions.
Variable truck_list : list Truck.
Variable order_list : list Order.
Variable varValue : solution.

Let pairs := pairs_of truck_list order_list.
Let prob := fst (create_lp_model truck_list order_list pairs).
Let x_vars := snd (create_lp_model truck_list order_list pairs).

Hypothesis Hsolves : solves prob x_vars varValue.

Lemma x_vars_keys : x_vars = dict_keys pairs.
Proof. reflexivity. Qed.

Lemma active_in_x_vars (k : pair_key) :
  In k (active_keys varValue x_vars) -> In k x_vars /\ varValue k == 1.
Proof.
  unfold active_keys. rewrite filter_In. intros [Hin Hact].
  split; [exact Hin|]. apply Qltb_lt in Hact.
  destruct Hsolves as [Hbin _]. destruct (Hbin k Hin) as [E|E]; [|exact E].
  rewrite E in Hact. exfalso. revert Hact. apply Qle_not_lt. discriminate.
Qed.

Lemma x_vars_nonneg (l : list pair_key) :
  incl l x_vars -> forall k, In k l -> 0 <= varValue k.
Proof.
  intros Hincl k Hk. destruct Hsolves as [Hbin _].
  destruct (Hbin k (Hincl k Hk)) as [E|E]; rewrite E; discriminate.
Qed.

Lemma lhs_in_x_vars (l : list pair_key) : incl (filter (in_x_vars x_vars) l) x_vars.
Proof. intros k Hk. apply filter_In in Hk. apply in_x_vars_In, Hk. Qed.

Lemma x_vars_named (k : pair_key) :
  In k x_vars ->
  exists truck order, names_pair truck_list order_list k truck order.
Proof.
  intros Hin. apply pairs_of_keys in Hin.
  destruct Hin as (t & o & Hn & _). exists t, o. exact Hn.
Qed.

(** Two active variables never share their order. *)
Lemma active_same_order (k1 k2 : pair_key) :
  In k1 (active_keys varValue x_vars) -> In k2 (active_keys varValue x_vars) ->
  snd k1 = snd k2 -> k1 = k2.
Proof.
  intros H1 H2 E.
  destruct (active_in_x_vars k1 H1) as [Hx1 Hv1].
  destruct (active_in_x_vars k2 H2) as [Hx2 Hv2].
  destruct (keqb k1 k2) eqn:Ek; [apply keqb_eq, Ek|]. exfalso.
  apply keqb_neq in Ek.
  destruct (x_vars_named k1 Hx1) as (t1 & o1 & Ht1 & Ho1 & Eid1 & Eod1).
  destruct (x_vars_named k2 Hx2) as (t2 & o2 & Ht2 & Ho2 & Eid2 & Eod2).
  destruct Hsolves as [_ Hsat]. rewrite Forall_forall in Hsat.
  assert (Hc : In (order_constraint truck_list x_vars o1) (constraints prob)).
  { unfold prob. rewrite create_lp_model_constraints. apply in_or_app. left.
    apply in_map. exact Ho1. }
  apply Hsat in Hc. unfold satisfies in Hc. cbn [lhs rhs order_constraint] in Hc.
  set (l := filter _ _) in Hc.
  assert (Hl1 : In k1 l).
  { unfold l. apply filter_In. split; [|apply in_x_vars_In, Hx1].
    apply in_map_iff. exists t1. split; [|exact Ht1].
    destruct k1; simpl in *; congruence. }
  assert (Hl2 : In k2 l).
  { unfold l. apply filter_In. split; [|apply in_x_vars_In, Hx2].
    apply in_map_iff. exists t2. split; [|exact Ht2].
    destruct k1, k2; simpl in *; congruence. }
  assert (Hnn : forall k, In k l -> 0 <= varValue k)
    by (apply x_vars_nonneg; unfold l; apply lhs_in_x_vars).
  pose proof (@lhs_value_two_members varValue l k1 k2 Hnn Hl1 Hl2 Ek) as Hsum.
  rewrite Hv1, Hv2 in Hsum. Lqa.lra.
Qed.

(** Two active variables never share their truck. *)
Lemma active_same_truck (k1 k2 : pair_key) :
  In k1 (active_keys varValue x_vars) -> In k2 (active_keys varValue x_vars) ->
  fst k1 = fst k2 -> k1 = k2.
Proof.
  intros H1 H2 E.
  destruct (active_in_x_vars k1 H1) as [Hx1 Hv1].
  destruct (active_in_x_vars k2 H2) as [Hx2 Hv2].
  destruct (keqb k1 k2) eqn:Ek; [apply keqb_eq, Ek|]. exfalso.
  apply keqb_neq in Ek.
  destruct (x_vars_named k1 Hx1) as (t1 & o1 & Ht1 & Ho1 & Eid1 & Eod1).
  destruct (x_vars_named k2 Hx2) as (t2 & o2 & Ht2 & Ho2 & Eid2 & Eod2).
  destruct Hsolves as [_ Hsat]. rewrite Forall_forall in Hsat.
  assert (Hc : In (truck_constraint order_list x_vars t1) (constraints prob)).
  { unfold prob. rewrite create_lp_model_constraints. apply in_or_app. right.
    apply in_map. exact Ht1. }
  apply Hsat in Hc. unfold satisfies in Hc. cbn [lhs rhs truck_constraint] in Hc.
  set (l := filter _ _) in Hc.
  assert (Hl1 : In k1 l).
  { unfold l. apply filter_In. split; [|apply in_x_vars_In, Hx1].
    apply in_map_iff. exists o1. split; [|exact Ho1].
    destruct k1; simpl in *; congruence. }
  assert (Hl2 : In k2 l).
  { unfold l. apply filter_In. split; [|apply in_x_vars_In, Hx2].
    apply in_map_iff. exists o2. split; [|exact Ho2].
    destruct k1, k2; simpl in *; congruence. }
  assert (Hnn : forall k, In k l -> 0 <= varValue k)
    by (apply x_vars_nonneg; unfold l; apply lhs_in_x_vars).
  pose proof (@lhs_value_two_members varValue l k1 k2 Hnn Hl1 Hl2 Ek) as Hsum.
  rewrite Hv1, Hv2 in Hsum. Lqa.lra.
Qed.
End Solutions.

End Model.

(** ** The canonical pipeline: result extraction *)

Section ResultFacts.
Variable calculate_distance : point -> point -> Q.
Variable cfg : Config.

Local Abbreviation recorded := (recorded calculate_distance cfg).
Local Abbreviation pairs_of := (pairs_of calculate_distance cfg).

Section Loop.
Variable truck_list : list Truck.
Variable order_list : list Order.
Variable pairs : dict pair_key PairValues.

Local Abbreviation step := (extract_step truck_list order_list pairs).
Local Abbreviation resolve := (resolve truck_list order_list pairs).

Lemma extract_loop (keys : list pair_key) (res : Results) :
  let res' := fold_left step keys res in
  assigned_orders_details res'
  = assigned_orders_details res ++ flat_map resolve keys /\
  total_distance_final_km res'
  == total_distance_final_km res
     + Qsum (map gesamtdistanz_fuer_auftrag_km (flat_map resolve keys)) /\
  number_of_assigned_orders res' = number_of_assigned_orders res /\
  total_objective_value res' = total_objective_value res /\
  (flat_map resolve keys = [] -> res' = res).
Proof.
  revert res. induction keys as [|k keys IH]; intros res; cbn [fold_left flat_map].
  - cbv zeta. rewrite app_nil_r. unfold Qsum. simpl.
    repeat split; auto. ring.
  - destruct (IH (step res k)) as (Hd & Ht & Hn & Ho & He).
    cbv zeta. rewrite Hd, Ht, Hn, Ho.
    unfold extract_step, Dispo.resolve.
    destruct (lookup_assignment truck_list order_list pairs k)
      as [[[[v t] r] o]|] eqn:El.
    + cbn [assigned_orders_details total_distance_final_km
           number_of_assigned_orders total_objective_value app].
      rewrite <- app_assoc. repeat split; auto.
      * cbn [map app]. rewrite Qsum_cons.
        unfold make_detail. destruct k. cbn [gesamtdistanz_fuer_auftrag_km]. ring.
      * discriminate.
    + cbn [app]. repeat split; auto.
      intros Hnil.
      assert (Es : step res k = res)
        by (unfold extract_step; rewrite El; reflexivity).
      rewrite Es in He. apply He, Hnil.
Qed.

Lemma resolve_key (k : pair_key) (d : Detail) :
  In d (resolve k) -> detail_key d = k.
Proof.
  unfold Dispo.resolve.
  destruct (lookup_assignment _ _ _ _) as [[[[v t] r] o]|]; [|intros []].
  intros [<-|[]]. destruct k. reflexivity.
Qed.

(** The keys of the details are a selection of the keys looped over. *)
Lemma resolve_keys (keys : list pair_key) :
  exists keep : pair_key -> bool,
    map detail_key (flat_map resolve keys) = filter keep keys.
Proof.
  exists (fun k => match resolve k with [] => false | _ => true end).
  induction keys as [|k keys IH]; [reflexivity|].
  cbn [flat_map filter]. rewrite map_app, IH.
  pose proof (resolve_key k) as Hk. unfold Dispo.resolve in *.
  destruct (lookup_assignment _ _ _ _) as [[[[v t] r] o]|]; [|reflexivity].
  cbn [map app]. rewrite (Hk _ (or_introl eq_refl)). reflexivity.
Qed.

Lemma find_order_In (os : list Order) (i : nat) (id : string) (r : nat) (o : Order) :
  find_order i os id = Some (r, o) -> In o os /\ order_id o = id.
Proof.
  revert i. induction os as [|x os IH]; intros i; simpl; [discriminate|].
  destruct (String.eqb (order_id x) id) eqn:E.
  - intros [= <- <-]. apply String.eqb_eq in E. auto.
  - intros Hf. destruct (IH _ Hf). auto.
Qed.

Lemma find_truck_In (id : string) (t : Truck) :
  find_truck truck_list id = Some t -> In t truck_list /\ truck_id t = id.
Proof.
  unfold find_truck. intros Hf. apply find_some in Hf.
  destruct Hf as [Hin E]. apply String.eqb_eq in E. auto.
Qed.

(** A detail reports the first truck and the first order with the
    identifiers of its key. *)
Lemma resolve_detail (k : pair_key) (d : Detail) :
  In d (resolve k) ->
  exists v truck order,
    dict_get pairs k = Some v /\
    In truck truck_list /\ truck_id truck = fst k /\
    In order order_list /\ order_id order = snd k /\
    auftrag_gewicht_kg d = weight_kg order /\
    lkw_kapazitaet_kg d = capacity_kg truck /\
    gesamtdistanz_fuer_auftrag_km d = distanz_gesamt_fuer_auftrag v.
Proof.
  unfold Dispo.resolve, lookup_assignment.
  destruct (dict_get pairs k) as [v|] eqn:Eg; [|intros []].
  destruct (find_truck truck_list (fst k)) as [t|] eqn:Et; [|intros []].
  destruct (find_order 0 order_list (snd k)) as [[r o]|] eqn:Eo; [|intros []].
  intros [<-|[]]. exists v, t, o.
  destruct (find_truck_In _ Et) as [Ht1 Ht2].
  destruct (find_order_In _ _ _ Eo) as [Ho1 Ho2].
  destruct k. cbn. repeat split; auto.
Qed.
End Loop.

(** The assignments of a run are the details of its active keys, sorted. *)
Lemma extract_details (prob : LpProblem) (varValue : solution)
    (x_vars : list pair_key) (truck_list : list Truck) (order_list : list Order)
    (pairs : dict pair_key PairValues) (status : LpStatus) :
  let res := extract_and_show_results prob varValue x_vars truck_list order_list
               pairs status in
  Permutation (assigned_orders_details res)
    (match status with
     | LpStatusOptimal | LpStatusFeasible =>
         flat_map (resolve truck_list order_list pairs) (active_keys varValue x_vars)
     | _ => []
     end).
Proof.
  unfold extract_and_show_results.
  destruct status; cbn [assigned_orders_details]; try reflexivity;
    (match goal with |- context [fold_left ?f ?keys ?r] =>
       destruct (extract_loop truck_list order_list pairs keys r) as (Hd & _) end;
     rewrite Hd; cbn [assigned_orders_details app];
     symmetry; apply stable_sort_perm).
Qed.

Lemma extract_details_in (prob : LpProblem) (varValue : solution)
    (x_vars : list pair_key) (truck_list : list Truck) (order_list : list Order)
    (pairs : dict pair_key PairValues) (status : LpStatus) (d : Detail) :
  In d (assigned_orders_details
          (extract_and_show_results prob varValue x_vars truck_list order_list
             pairs status)) ->
  exists k, In k (active_keys varValue x_vars) /\
            In d (resolve truck_list order_list pairs k).
Proof.
  intros Hin.
  apply (Permutation_in _ (extract_details prob varValue x_vars truck_list
                             order_list pairs status)) in Hin.
  destruct status; try (destruct Hin);
    apply in_flat_map in Hin; exact Hin.
Qed.

(** A selection of a list on which [f] is injective has no two
    elements with the same image. *)
Lemma NoDup_map_filter {A B : Type} (f : A -> B) (keep : A -> bool) (l : list A) :
  NoDup l -> (forall x y, In x l -> In y l -> f x = f y -> x = y) ->
  NoDup (map f (filter keep l)).
Proof.
  intros Hnd Hinj. apply NoDup_map_NoDup_ForallPairs.
  - intros x y Hx Hy. apply filter_In in Hx, Hy. apply Hinj; tauto.
  - apply NoDup_filter, Hnd.
Qed.

End ResultFacts.

(** ** The canonical pipeline: the Optimal strategy as a whole *)

Section Optimal.
Variable calculate_distance : point -> point -> Q.
Variable cfg : Config.

Local Abbreviation recorded := (recorded calculate_distance cfg).
Local Abbreviation pairs_of := (pairs_of calculate_distance cfg).
Local Abbreviation optimal_model := (optimal_model calculate_distance cfg).
Local Abbreviation optimal_run := (optimal_run calculate_distance cfg).

Lemma optimal_run_details (truck_list : list Truck) (order_list : list Order)
    (stdout : list output) (varValue : solution) (status : LpStatus) (d : Detail) :
  In d (assigned_orders_details
          (optimal_run truck_list order_list stdout varValue status)) ->
  exists k,
    In k (active_keys varValue (dict_keys (pairs_of truck_list order_list))) /\
    In d (resolve truck_list order_list (pairs_of truck_list order_list) k).
Proof.
  intros Hin. apply extract_details_in in Hin. exact Hin.
Qed.

(** Every assignment of the Optimal strategy names a pair that passed
    the capacity check; with unique identifiers the weight and the
    capacity it reports are those of that pair. *)
Lemma optimal_run_capacity (truck_list : list Truck) (order_list : list Order)
    (stdout : list output) (varValue : solution) (status : LpStatus) (d : Detail) :
  In d (assigned_orders_details
          (optimal_run truck_list order_list stdout varValue status)) ->
  (exists truck order,
      names_pair truck_list order_list (detail_key d) truck order /\
      recorded truck order <> None /\
      weight_kg order <= capacity_kg truck) /\
  (NoDup (map truck_id truck_list) -> NoDup (map order_id order_list) ->
   auftrag_gewicht_kg d <= lkw_kapazitaet_kg d).
Proof.
  intros Hin. apply optimal_run_details in Hin.
  destruct Hin as (k & Hact & Hres).
  pose proof (resolve_key _ _ _ _ _ Hres) as Hk.
  unfold active_keys in Hact. apply filter_In in Hact. destruct Hact as [Hkeys _].
  apply pairs_of_keys in Hkeys. destruct Hkeys as (t & o & Hn & Hr).
  assert (Hcap : weight_kg o <= capacity_kg t).
  { destruct (recorded t o) as [v|] eqn:Er; [|congruence].
    apply (recorded_values calculate_distance cfg t o Er). }
  split.
  - exists t, o. rewrite Hk. auto.
  - intros Hts Hos.
    destruct (resolve_detail _ _ _ _ _ Hres)
      as (v & t' & o' & _ & Ht1 & Ht2 & Ho1 & Ho2 & Ew & Ec & _).
    destruct Hn as (Ht & Ho & Eid & Eod).
    rewrite Ew, Ec.
    rewrite (unique_id truck_id truck_list t' t Hts Ht1 Ht) by congruence.
    rewrite (unique_id order_id order_list o' o Hos Ho1 Ho) by congruence.
    exact Hcap.
Qed.

(** With no active variable the results are empty: no assignment, no
    distance, every order unassigned. *)
Lemma optimal_run_empty (truck_list : list Truck) (order_list : list Order)
    (stdout : list output) (varValue : solution) (status : LpStatus) :
  let res := optimal_run truck_list order_list stdout varValue status in
  active_keys varValue (snd (optimal_model truck_list order_list stdout)) = [] ->
  assigned_orders_details res = [] /\
  total_distance_final_km res == 0 /\
  number_of_assigned_orders res = 0%nat /\
  Permutation (unassigned_orders_obj res) (seq 0 (List.length order_list)).
Proof.
  cbv zeta. intros Hact.
  unfold Dispo.optimal_run, extract_and_show_results. rewrite Hact.
  destruct status; cbn; repeat split;
    try apply Qeq_refl; symmetry; apply stable_sort_perm.
Qed.

(** The objective has one term per permissible pair, whose coefficient
    is the utility of a pair the key names. *)
Lemma optimal_model_objective (truck_list : list Truck) (order_list : list Order)
    (stdout : list output) :
  let prob := fst (optimal_model truck_list order_list stdout) in
  sense prob = LpMaximize /\
  map snd (objective prob) = snd (optimal_model truck_list order_list stdout) /\
  NoDup (map snd (objective prob)) /\
  (forall coef key, In (coef, key) (objective prob) ->
     exists truck order,
       names_pair truck_list order_list key truck order /\
       recorded truck order <> None /\
       coef = utility calculate_distance cfg truck order) /\
  (NoDup (map truck_id truck_list) -> NoDup (map order_id order_list) ->
   forall truck order, In truck truck_list -> In order order_list ->
     recorded truck order <> None ->
     In (utility calculate_distance cfg truck order, (truck_id truck, order_id order))
        (objective prob)).
Proof.
  cbv zeta. unfold Dispo.optimal_model, determine_permissible_pairs_and_values.
  cbn [fst]. fold (pairs_of truck_list order_list).
  destruct (create_lp_model_objective cfg truck_list order_list
              (pairs_of truck_list order_list)) as [Hs Ho].
  rewrite Hs, Ho, map_map. cbn [snd].
  assert (Hterm : forall truck order v,
             recorded truck order = Some v ->
             PRIORITY_WEIGHT_FACTOR cfg * prio_gewicht v
             - DISTANCE_COST_FACTOR cfg * distanz_gesamt_fuer_auftrag v
             = utility calculate_distance cfg truck order).
  { intros t o v Hr.
    destruct (recorded_values calculate_distance cfg t o Hr) as (E1 & E2 & _).
    unfold utility. rewrite E1, E2. reflexivity. }
  split; [reflexivity|]. split; [reflexivity|].
  split; [apply (pairs_of_NoDup calculate_distance cfg)|]. split.
  - intros coef key Hin. apply in_map_iff in Hin.
    destruct Hin as ([k v] & E & Hin). cbn [fst snd] in E. inversion E; subst.
    pose proof (pairs_of_items calculate_distance cfg truck_list order_list) as Hall.
    rewrite Forall_forall in Hall. destruct (Hall _ Hin) as (t & o & Hn & Hr).
    cbn [fst snd] in Hn, Hr. exists t, o.
    split; [exact Hn|]. split; [congruence|]. apply Hterm, Hr.
  - intros Hts Hos t o Ht Ho' Hr.
    destruct (recorded t o) as [v|] eqn:Er; [|congruence].
    apply in_map_iff. exists ((truck_id t, order_id o), v). cbn [fst snd].
    split; [rewrite (Hterm t o v Er); reflexivity|].
    apply dict_get_Some_In.
    apply (pairs_of_get_unique calculate_distance cfg); assumption.
Qed.

(** C2. In the assignments of the Optimal strategy, for any solution of
    the model of the run (0/1 values that satisfy its constraints), no
    order identifier and no truck identifier appears twice: the model
    holds, for every order, the constraint that the values of its keys
    sum to at most 1, and the same for every truck. *)
Theorem optimal_assignments_disjoint (truck_list : list Truck)
    (order_list : list Order) (stdout : list output)
    (varValue : solution) (status : LpStatus) :
  solves (fst (optimal_model truck_list order_list stdout))
         (snd (optimal_model truck_list order_list stdout)) varValue ->
  let assignments :=
    assigned_orders_details
      (optimal_run truck_list order_list stdout varValue status) in
  NoDup (map auftrag_id assignments) /\ NoDup (map lkw_id assignments).
Proof.
  intros Hsolves. cbv zeta.
  unfold Dispo.optimal_run.
  set (pairs := fst (determine_permissible_pairs_and_values _ _ _ _ _)).
  set (model := Dispo.optimal_model _ _ _ _ _).
  pose proof (extract_details (fst model) varValue (snd model) truck_list
                order_list pairs status) as Hperm.
  cbv zeta in Hperm.
  set (ds := assigned_orders_details _) in *.
  set (keys := active_keys varValue (snd model)).
  assert (Hnd : NoDup keys).
  { apply NoDup_filter. apply (pairs_of_NoDup calculate_distance cfg). }
  assert (Hrun : forall f : pair_key -> string,
             (forall x y, In x keys -> In y keys -> f x = f y -> x = y) ->
             NoDup (map (fun d => f (detail_key d)) ds)).
  { intros f Hinj.
    apply (Permutation_NoDup
             (Permutation_sym (Permutation_map (fun d => f (detail_key d)) Hperm))).
    destruct status;
      first [ apply NoDup_nil
            | rewrite <- (map_map detail_key f); fold keys;
              destruct (resolve_keys truck_list order_list pairs keys) as [keep ->];
              apply NoDup_map_filter; assumption ]. }
  split.
  - apply (Hrun snd).
    apply (@active_same_order calculate_distance cfg truck_list order_list
             varValue Hsolves).
  - apply (Hrun fst).
    apply (@active_same_truck calculate_distance cfg truck_list order_list
             varValue Hsolves).
Qed.

End Optimal.



(** The scenario's solution solves the scenario's model, and the
    assignments it yields share no truck and no order. *)
Lemma optimal_assignments_disjoint_witness :
  let model := optimal_model Scenario.depot_distance constants
                 [Scenario.T1; Scenario.T2] [Scenario.O1; Scenario.O2] [] in
  let assignments :=
    assigned_orders_details
      (optimal_run Scenario.depot_distance constants
         [Scenario.T1; Scenario.T2] [Scenario.O1; Scenario.O2] []
         Scenario.chosen LpStatusOptimal) in
  solves (fst model) (snd model) Scenario.chosen /\
  map detail_key assignments = [("T1", "O1"); ("T2", "O2")]%string /\
  NoDup (map auftrag_id assignments) /\ NoDup (map lkw_id assignments).
Proof.
  cbv zeta.
  assert (Hsolves :
    solves (fst (optimal_model Scenario.depot_distance constants
                   [Scenario.T1; Scenario.T2] [Scenario.O1; Scenario.O2] []))
           (snd (optimal_model Scenario.depot_distance constants
                   [Scenario.T1; Scenario.T2] [Scenario.O1; Scenario.O2] []))
           Scenario.chosen).
  { split.
    - intros k Hin. vm_compute in Hin.
      destruct Hin as [<-|[<-|[<-|[]]]];
        [right | left | right]; reflexivity.
    - vm_compute. repeat constructor; discriminate. }
  split; [exact Hsolves|]. split; [vm_compute; reflexivity|].
  apply (optimal_assignments_disjoint Scenario.depot_distance constants
           [Scenario.T1; Scenario.T2] [Scenario.O1; Scenario.O2] []
           LpStatusOptimal Hsolves).
Defined.

End DispoFacts.

(** ** The greedy strategies: score *)

Module ArchiveFacts.
Import Py PyFacts Archive.
Local Open Scope Q_scope.

Lemma Truck_post_init_ok (t : Truck) :
  valid_truck t <->
  0 < capacity t /\ 0 <= current_load t /\ current_load t <= capacity t.
Proof.
  unfold valid_truck, Truck_post_init.
  destruct (Qle_bool (capacity t) 0) eqn:E1.
  { apply Qle_bool_iff in E1. split; [discriminate|].
    intros [H _]. exfalso. apply (Qlt_not_le _ _ H E1). }
  apply Qle_bool_gt in E1.
  destruct (Qltb (current_load t) 0) eqn:E2.
  { apply Qltb_lt in E2. split; [discriminate|].
    intros [_ [H _]]. exfalso. apply (Qlt_not_le _ _ E2 H). }
  apply Qltb_ge in E2.
  destruct (Qltb (capacity t) (current_load t)) eqn:E3.
  { apply Qltb_lt in E3. split; [discriminate|].
    intros [_ [_ H]]. exfalso. apply (Qlt_not_le _ _ E3 H). }
  apply Qltb_ge in E3. tauto.
Qed.

Lemma Order_post_init_ok (o : Order) :
  valid_order o <-> 0 < volume o /\ 0 < deadline_hours o.
Proof.
  unfold valid_order, Order_post_init.
  destruct (Qle_bool (volume o) 0) eqn:E1.
  { apply Qle_bool_iff in E1. split; [discriminate|].
    intros [H _]. exfalso. apply (Qlt_not_le _ _ H E1). }
  apply Qle_bool_gt in E1.
  destruct (Qle_bool (deadline_hours o) 0) eqn:E2.
  { apply Qle_bool_iff in E2. split; [discriminate|].
    intros [_ H]. exfalso. apply (Qlt_not_le _ _ H E2). }
  apply Qle_bool_gt in E2. tauto.
Qed.

Lemma py_div_ok (x y : Q) : ~ y == 0 -> py_div x y = Ok (x / y).
Proof.
  intros Hy. unfold py_div.
  destruct (Qeq_bool y 0) eqn:E; [|reflexivity].
  apply Qeq_bool_iff in E. contradiction.
Qed.

Lemma py_div_zero (x y : Q) : y == 0 -> py_div x y = Raise ZeroDivisionError.
Proof.
  intros Hy. unfold py_div. apply Qeq_bool_iff in Hy. rewrite Hy. reflexivity.
Qed.

Lemma can_handle_order_le (t : Truck) (o : Order) :
  can_handle_order t o = true <-> volume o <= capacity t - current_load t.
Proof. unfold can_handle_order, available_capacity. apply Qle_bool_iff. Qed.

Section Score.
Variable calculate_distance : point -> point -> Q.

Local Abbreviation calculate_assignment_score :=
  (calculate_assignment_score calculate_distance).

(** The score of a truck of non-zero capacity and an order of non-zero
    deadline. *)
Lemma calculate_assignment_score_ok (truck : Truck) (order : Order) :
  ~ capacity truck == 0 -> ~ deadline_hours order == 0 ->
  exists score details,
    calculate_assignment_score truck order = Ok (score, details) /\
    score == cost (calculate_distance (position truck) (pickup_position order))
                  truck order /\
    raw_distance_km details
    = calculate_distance (position truck) (pickup_position order).
Proof.
  intros Hc Hd. unfold Archive.calculate_assignment_score.
  rewrite (py_div_ok _ Hc). cbn [bind]. rewrite (py_div_ok _ Hd). cbn [bind].
  eexists; eexists. split; [reflexivity|]. split; [|reflexivity].
  unfold cost, priorityScore. ring.
Qed.

(** C5. For every truck and order that passed their constructors,
    [calculate_assignment_score] returns exactly
    [DISTANCE_WEIGHT * distance + PRIORITY_WEIGHT * priorityScore(order)
     + CAPACITY_WEIGHT * (1 - volume / capacity)
     + TIME_WEIGHT * max(0, travelTime(distance) / deadline_hours)],
    where travelTime is the distance over 50 km/h, and priorityScore is
    inverse to priority: the more urgent order has the strictly
    smaller value, urgent the smallest. *)
Theorem assignment_score_formula (truck : Truck) (order : Order) :
  valid_truck truck -> valid_order order ->
  let distance := calculate_distance (position truck) (pickup_position order) in
  (exists score details,
      calculate_assignment_score truck order = Ok (score, details) /\
      score ==
        DISTANCE_WEIGHT * distance
        + PRIORITY_WEIGHT * priorityScore order
        + CAPACITY_WEIGHT * (1 - volume order / capacity truck)
        + TIME_WEIGHT * Qmax 0 (distance / 50 / deadline_hours order)) /\
  (forall o1 o2 : Order,
      (priority_index (priority o1) < priority_index (priority o2))%nat ->
      priorityScore o1 < priorityScore o2) /\
  (forall o : Order, priority o = URGENT -> priorityScore o == 1 # 10).
Proof.
  intros Ht Ho. cbv zeta.
  apply Truck_post_init_ok in Ht. apply Order_post_init_ok in Ho.
  split; [|split].
  - destruct (calculate_assignment_score_ok truck order) as (s & d & Hs & Hf & _).
    + intros E. destruct Ht as [Ht _]. rewrite E in Ht. discriminate.
    + intros E. destruct Ho as [_ Ho]. rewrite E in Ho. discriminate.
    + exists s, d. split; [exact Hs|]. rewrite Hf. unfold cost.
      reflexivity.
  - intros o1 o2. unfold priorityScore, priority_score.
    destruct (priority o1), (priority o2); simpl; intros Hlt;
      try reflexivity; try lia.
  - intros o E. unfold priorityScore, priority_score. rewrite E. reflexivity.
Qed.
End Score.

Lemma assignment_score_formula_witness :
  exists score details,
    calculate_assignment_score Scenario.depot_distance_archive
      Scenario.LKW1 Scenario.AUF2 = Ok (score, details) /\
    score ==
      DISTANCE_WEIGHT * 0
      + PRIORITY_WEIGHT * (1 # 10)
      + CAPACITY_WEIGHT * (1 - 10 / 25)
      + TIME_WEIGHT * Qmax 0 (0 / 50 / 6).
Proof.
  apply (@assignment_score_formula Scenario.depot_distance_archive
           Scenario.LKW1 Scenario.AUF2 eq_refl eq_refl).
Defined.

(** ** The greedy strategies: invariants of the loops *)

Lemma nth_error_list_update {A : Type} (f : A -> A) (l : list A) (i j : nat) :
  nth_error (list_update i f l) j
  = if Nat.eqb i j then option_map f (nth_error l j) else nth_error l j.
Proof.
  revert i j. induction l as [|x l IH]; intros i j.
  - destruct i, j; simpl; try reflexivity. destruct (Nat.eqb i j); reflexivity.
  - destruct i, j; simpl; try reflexivity. apply IH.
Qed.

Lemma Forall2_nth_error {A : Type} (R : A -> A -> Prop) (l0 l : list A) (i : nat) (x : A) :
  Forall2 R l0 l -> nth_error l i = Some x ->
  exists x0, nth_error l0 i = Some x0 /\ R x0 x.
Proof.
  intros H. revert i. induction H as [|a b l0 l Hab _ IH]; intros i.
  - destruct i; discriminate.
  - destruct i; simpl.
    + intros [= <-]. exists a. auto.
    + apply IH.
Qed.

Lemma Forall2_nth_error_l {A : Type} (R : A -> A -> Prop) (l0 l : list A) (i : nat) (x0 : A) :
  Forall2 R l0 l -> nth_error l0 i = Some x0 ->
  exists x, nth_error l i = Some x /\ R x0 x.
Proof.
  intros H. revert i. induction H as [|a b l0 l Hab _ IH]; intros i.
  - destruct i; discriminate.
  - destruct i; simpl.
    + intros [= <-]. exists b. auto.
    + apply IH.
Qed.

Lemma Forall2_list_update {A : Type} (R : A -> A -> Prop) (f : A -> A)
    (l0 l : list A) (i : nat) :
  Forall2 R l0 l ->
  (forall x0 x, nth_error l0 i = Some x0 -> nth_error l i = Some x -> R x0 x ->
                R x0 (f x)) ->
  Forall2 R l0 (list_update i f l).
Proof.
  intros H. revert i. induction H as [|a b l0 l Hab Hl IH]; intros i Hf.
  - destruct i; constructor.
  - destruct i; simpl.
    + constructor; [apply Hf; auto | exact Hl].
    + constructor; [exact Hab|]. apply IH. intros x0 x H0 H1. apply Hf; assumption.
Qed.

Lemma Forall2_refl_on {A : Type} (R : A -> A -> Prop) (l : list A) :
  (forall x, In x l -> R x x) -> Forall2 R l l.
Proof.
  induction l as [|x l IH]; intros H; constructor.
  - apply H. left. reflexivity.
  - apply IH. intros y Hy. apply H. right. exact Hy.
Qed.

Section Loops.
Variable calculate_distance : point -> point -> Q.
Variable trucks0 : list Truck.
Variable orders0 : list Order.
Hypothesis Htrucks : Forall valid_truck trucks0.
Hypothesis Horders : Forall valid_order orders0.

Local Abbreviation invariant := (invariant trucks0 orders0).
Local Abbreviation scan_trucks := (scan_trucks calculate_distance).
Local Abbreviation scan_orders := (scan_orders calculate_distance).

Lemma truck_rel_valid (t0 t : Truck) :
  In t0 trucks0 -> truck_rel t0 t ->
  0 < capacity t /\ 0 <= current_load t /\ current_load t <= capacity t.
Proof.
  intros Hin (_ & Ec & Hl & Hc).
  rewrite Forall_forall in Htrucks. apply Htrucks, Truck_post_init_ok in Hin.
  rewrite Ec. destruct Hin as (H1 & H2 & H3). rewrite Ec in Hc.
  repeat split; auto. apply (Qle_trans _ _ _ H2 Hl).
Qed.

Lemma order_rel_valid (o0 o : Order) :
  In o0 orders0 -> order_rel o0 o -> 0 < volume o /\ 0 < deadline_hours o.
Proof.
  intros Hin (_ & Ev & Ed).
  rewrite Forall_forall in Horders. apply Horders, Order_post_init_ok in Hin.
  rewrite Ev, Ed. exact Hin.
Qed.

Lemma state_truck (st : State) (i : nat) (t : Truck) :
  invariant st -> nth_error (trucks st) i = Some t ->
  exists t0, nth_error trucks0 i = Some t0 /\ In t0 trucks0 /\ truck_rel t0 t /\
             0 < capacity t /\ 0 <= current_load t /\ current_load t <= capacity t.
Proof.
  intros Hinv Hn.
  destruct (Forall2_nth_error _ (inv_trucks Hinv) Hn) as (t0 & H0 & Hr).
  pose proof (nth_error_In _ _ H0) as Hin.
  exists t0. split; [exact H0|]. split; [exact Hin|]. split; [exact Hr|].
  apply (truck_rel_valid Hin Hr).
Qed.

Lemma state_order (st : State) (i : nat) (o : Order) :
  invariant st -> nth_error (orders st) i = Some o ->
  exists o0, nth_error orders0 i = Some o0 /\ In o0 orders0 /\ order_rel o0 o /\
             0 < volume o /\ 0 < deadline_hours o.
Proof.
  intros Hinv Hn.
  destruct (Forall2_nth_error _ (inv_orders Hinv) Hn) as (o0 & H0 & Hr).
  pose proof (nth_error_In _ _ H0) as Hin.
  exists o0. split; [exact H0|]. split; [exact Hin|]. split; [exact Hr|].
  apply (order_rel_valid Hin Hr).
Qed.

Lemma positive_nonzero (x : Q) : 0 < x -> ~ x == 0.
Proof. intros H E. rewrite E in H. discriminate. Qed.

(** The scan over the trucks returns, without raising, the candidate
    it started with or a truck of the list that can handle the order. *)
Lemma scan_trucks_ok (order : Order) (ts : list Truck) :
  0 < deadline_hours order ->
  Forall (fun t => 0 < capacity t) ts ->
  forall (i : nat) (best : option candidate),
  exists best',
    scan_trucks order i ts best = Ok best' /\
    (best' = best \/
     exists j t s d,
       best' = Some (i + j, s, d)%nat /\ nth_error ts j = Some t /\
       can_handle_order t order = true).
Proof.
  intros Hd Hts. induction Hts as [|t ts Ht _ IH]; intros i best; simpl.
  - exists best. auto.
  - destruct (can_handle_order t order) eqn:Ec.
    + destruct (calculate_assignment_score_ok calculate_distance t order
                  (positive_nonzero Ht) (positive_nonzero Hd))
        as (s & d & Hs & _).
      rewrite Hs. cbn [bind].
      destruct (IH (S i) (if improves s best then Some (i, s, d) else best))
        as (best' & Hb & Hcase).
      exists best'. split; [exact Hb|].
      destruct Hcase as [->|(j & t' & s' & d' & -> & Hn & Hc)].
      * destruct (improves s best); [|left; reflexivity].
        right. exists 0%nat, t, s, d. rewrite Nat.add_0_r. auto.
      * right. exists (S j), t', s', d'.
        rewrite Nat.add_succ_r. auto.
    + destruct (IH (S i) best) as (best' & Hb & Hcase).
      exists best'. split; [exact Hb|].
      destruct Hcase as [->|(j & t' & s' & d' & -> & Hn & Hc)]; [left; reflexivity|].
      right. exists (S j), t', s', d'. rewrite Nat.add_succ_r. auto.
Qed.

(** The scan over the orders, likewise. *)
Lemma scan_orders_ok (truck : Truck) (os : list Order) :
  0 < capacity truck ->
  Forall (fun o => 0 < deadline_hours o) os ->
  forall (refs : list nat) (best : option candidate),
  exists best',
    scan_orders truck os refs best = Ok best' /\
    (best' = best \/
     exists r o s d,
       best' = Some (r, s, d) /\ nth_error os r = Some o /\
       can_handle_order truck o = true).
Proof.
  intros Ht Hos refs. induction refs as [|r refs IH]; intros best; simpl.
  - exists best. auto.
  - destruct (nth_error os r) as [o|] eqn:En; [|apply IH].
    destruct (can_handle_order truck o) eqn:Ec; [|apply IH].
    assert (Hd : 0 < deadline_hours o).
    { rewrite Forall_forall in Hos. apply Hos. apply (nth_error_In _ _ En). }
    destruct (calculate_assignment_score_ok calculate_distance truck o
                (positive_nonzero Ht) (positive_nonzero Hd))
      as (s & d & Hs & _).
    rewrite Hs. cbn [bind].
    destruct (IH (if improves s best then Some (r, s, d) else best))
      as (best' & Hb & Hcase).
    exists best'. split; [exact Hb|].
    destruct Hcase as [->|Hcase]; [|right; exact Hcase].
    destruct (improves s best); [|left; reflexivity].
    right. exists r, o, s, d. auto.
Qed.

Lemma invariant_capacities (st : State) :
  invariant st -> Forall (fun t => 0 < capacity t) (trucks st).
Proof.
  intros Hinv. apply Forall_forall. intros t Hin.
  apply In_nth_error in Hin. destruct Hin as [i Hi].
  destruct (state_truck i Hinv Hi) as (_ & _ & _ & _ & H & _). exact H.
Qed.

Lemma invariant_deadlines (st : State) :
  invariant st -> Forall (fun o => 0 < deadline_hours o) (orders st).
Proof.
  intros Hinv. apply Forall_forall. intros o Hin.
  apply In_nth_error in Hin. destruct Hin as [i Hi].
  destruct (state_order i Hinv Hi) as (_ & _ & _ & _ & _ & H). exact H.
Qed.

(** A commit that passed [can_handle_order] keeps the invariant. *)
Lemma commit_invariant (st : State) (ti oi : nat) (t : Truck) (o : Order)
    (s : Q) (d : ScoreDetails) :
  invariant st ->
  nth_error (trucks st) ti = Some t -> nth_error (orders st) oi = Some o ->
  can_handle_order t o = true ->
  invariant (commit st ti t oi o s d).
Proof.
  intros Hinv Ht Ho Hc.
  destruct (state_truck ti Hinv Ht) as (t0 & Ht0 & Hin0 & Hrel & Hcap & Hl0 & Hl1).
  destruct (state_order oi Hinv Ho) as (o0 & Ho0 & Hino & Horel & Hv & Hd).
  apply can_handle_order_le in Hc.
  destruct Hrel as (Eid & Ecap & Hload & Hle).
  destruct Horel as (Eoid & Evol & Edl).
  constructor; cbn [commit trucks orders assignments].
  - apply Forall2_list_update; [apply (inv_trucks Hinv)|].
    intros x0 x H0 H1 (E1 & E2 & H3 & H4).
    assert (x = t) by congruence. subst x.
    unfold truck_rel, add_load. cbn.
    repeat split; auto; Lqa.lra.
  - apply Forall2_list_update; [apply (inv_orders Hinv)|].
    intros x0 x H0 H1 Hr. exact Hr.
  - apply Forall_app. split; [apply (inv_assignments Hinv)|].
    constructor; [|constructor].
    exists t0, o0. cbn. repeat split; auto.
    rewrite <- Evol, <- Ecap. Lqa.lra.
Qed.

Lemma priority_step_cases (st : State) (oi : nat) :
  invariant st ->
  exists st', priority_step calculate_distance st oi = Ok st' /\ step_result st st'.
Proof.
  intros Hinv. unfold priority_step.
  destruct (nth_error (orders st) oi) as [order|] eqn:Eo;
    [|exists st; split; [reflexivity | left; reflexivity]].
  destruct (state_order oi Hinv Eo) as (_ & _ & _ & _ & _ & Hd).
  destruct (scan_trucks_ok order Hd (invariant_capacities Hinv) 0 None)
    as (best & Hb & Hcase).
  rewrite Hb. cbn [bind].
  destruct Hcase as [->|(j & t & s & d & -> & Hn & Hc)];
    [exists st; split; [reflexivity | left; reflexivity]|].
  cbn [Nat.add]. rewrite Hn.
  eexists. split; [reflexivity|]. right. exists j, t, oi, order, s, d. auto.
Qed.

Lemma greedy_step_cases (st : State) (ti : nat) :
  invariant st ->
  exists st', greedy_step calculate_distance st ti = Ok st' /\ step_result st st'.
Proof.
  intros Hinv. unfold greedy_step.
  destruct (nth_error (trucks st) ti) as [truck|] eqn:Et;
    [|exists st; split; [reflexivity | left; reflexivity]].
  destruct (state_truck ti Hinv Et) as (_ & _ & _ & _ & Hcap & _).
  destruct (scan_orders_ok truck Hcap (invariant_deadlines Hinv)
              (available_orders st) None)
    as (best & Hb & Hcase).
  rewrite Hb. cbn [bind].
  destruct Hcase as [->|(r & o & s & d & -> & Hn & Hc)];
    [exists st; split; [reflexivity | left; reflexivity]|].
  rewrite Hn.
  eexists. split; [reflexivity|]. right. exists ti, truck, r, o, s, d. auto.
Qed.

(** Whatever commits preserve, the loops establish. *)
Section Preserved.
Variable P : State -> Prop.
Hypothesis commit_P :
  forall st ti t oi o s d,
    invariant st -> P st ->
    nth_error (trucks st) ti = Some t -> nth_error (orders st) oi = Some o ->
    can_handle_order t o = true ->
    P (commit st ti t oi o s d).

Lemma step_result_preserves (st st' : State) :
  invariant st -> P st -> step_result st st' -> invariant st' /\ P st'.
Proof.
  intros Hinv HP [->|(ti & t & oi & o & s & d & -> & Ht & Ho & Hc)]; [auto|].
  split; [apply commit_invariant | apply commit_P]; assumption.
Qed.

Lemma priority_loop_preserves (refs : list nat) (st : State) :
  invariant st -> P st ->
  exists st',
    priority_loop calculate_distance refs st = Ok st' /\ invariant st' /\ P st'.
Proof.
  revert st. induction refs as [|r refs IH]; intros st Hinv HP; simpl.
  - exists st. auto.
  - destruct (priority_step_cases r Hinv) as (st1 & H1 & Hres).
    rewrite H1. cbn [bind].
    destruct (step_result_preserves Hinv HP Hres). apply IH; assumption.
Qed.

Lemma greedy_loop_preserves (refs : list nat) (st : State) :
  invariant st -> P st ->
  exists st',
    greedy_loop calculate_distance refs st = Ok st' /\ invariant st' /\ P st'.
Proof.
  revert st. induction refs as [|r refs IH]; intros st Hinv HP; simpl.
  - exists st. auto.
  - destruct (greedy_step_cases r Hinv) as (st1 & H1 & Hres).
    rewrite H1. cbn [bind].
    destruct (step_result_preserves Hinv HP Hres). apply IH; assumption.
Qed.
End Preserved.

Lemma initial_invariant : invariant (initial_state trucks0 orders0).
Proof.
  constructor; cbn.
  - apply Forall2_refl_on. intros t Hin.
    rewrite Forall_forall in Htrucks. apply Htrucks, Truck_post_init_ok in Hin.
    unfold truck_rel. repeat split; try apply Qle_refl. apply Hin.
  - apply Forall2_refl_on. intros o _. unfold order_rel. auto.
  - constructor.
Qed.

(** *** The load of a truck is accounted for by its assignments *)

Hypothesis Htruck_ids : NoDup (map truck_id trucks0).
Hypothesis Horder_ids : NoDup (map order_id orders0).

Lemma volume_of_unique (os : list Order) (o : Order) :
  NoDup (map order_id os) -> In o os -> volume_of os (order_id o) = volume o.
Proof.
  induction os as [|x os IH]; simpl; [tauto|].
  intros Hnd Hin. inversion Hnd as [|? ? Hnin Hnd']; subst.
  destruct (String.eqb (order_id x) (order_id o)) eqn:E.
  - destruct Hin as [->|Hin]; [reflexivity|].
    apply String.eqb_eq in E. exfalso. apply Hnin. rewrite E. apply in_map, Hin.
  - destruct Hin as [->|Hin]; [rewrite String.eqb_refl in E; discriminate|].
    apply IH; assumption.
Qed.

Lemma assigned_volume_snoc (os : list Order) (asg : list Assignment)
    (a : Assignment) (id : string) :
  assigned_volume os (asg ++ [a]) id
  == assigned_volume os asg id
     + (if String.eqb (a_truck_id a) id then volume_of os (a_order_id a) else 0).
Proof.
  unfold assigned_volume. rewrite filter_app, map_app, Qsum_app. cbn [filter].
  destruct (String.eqb (a_truck_id a) id); cbn [map].
  - rewrite Qsum_cons. unfold Qsum at 2. cbn. ring.
  - unfold Qsum at 2. cbn. ring.
Qed.

Lemma unique_index {A : Type} (f : A -> string) (l : list A) (i j : nat) (x y : A) :
  NoDup (map f l) -> nth_error l i = Some x -> nth_error l j = Some y ->
  f x = f y -> i = j.
Proof.
  intros Hnd Hi Hj E.
  apply (proj1 (NoDup_nth_error (map f l)) Hnd).
  - rewrite length_map. apply nth_error_Some. congruence.
  - rewrite (map_nth_error f _ _ Hi), (map_nth_error f _ _ Hj), E. reflexivity.
Qed.

Lemma commit_accounted (st : State) (ti oi : nat) (t : Truck) (o : Order)
    (s : Q) (d : ScoreDetails) :
  invariant st -> loads_accounted trucks0 orders0 st ->
  nth_error (trucks st) ti = Some t -> nth_error (orders st) oi = Some o ->
  can_handle_order t o = true ->
  loads_accounted trucks0 orders0 (commit st ti t oi o s d).
Proof.
  intros Hinv Hacc Ht Ho _ i t0 t' H0 H1.
  cbn [commit trucks assignments] in *.
  rewrite nth_error_list_update in H1.
  destruct (state_truck ti Hinv Ht) as (tt0 & Htt0 & _ & (Eid & _) & _).
  destruct (state_order oi Hinv Ho) as (o0 & Ho0 & Hino & (Eoid & Evol & _) & _).
  rewrite assigned_volume_snoc. cbn [a_truck_id a_order_id].
  destruct (Nat.eqb ti i) eqn:Ei.
  - apply Nat.eqb_eq in Ei. subst i.
    rewrite Ht in H1. cbn in H1. injection H1 as <-.
    assert (tt0 = t0) by congruence. subst tt0.
    rewrite Eid, String.eqb_refl, Eoid, (@volume_of_unique orders0 o0 Horder_ids Hino).
    cbn [add_load current_load]. rewrite (Hacc ti t0 t H0 Ht), Evol. ring.
  - apply Nat.eqb_neq in Ei.
    destruct (String.eqb (truck_id t) (truck_id t0)) eqn:E.
    + exfalso. apply Ei. apply String.eqb_eq in E.
      apply (@unique_index Truck truck_id trucks0 ti i tt0 t0 Htruck_ids Htt0 H0). congruence.
    + rewrite (Hacc i t0 t' H0 H1). ring.
Qed.

Lemma initial_accounted : loads_accounted trucks0 orders0 (initial_state trucks0 orders0).
Proof.
  intros i t0 t H0 H1. cbn in H1. assert (t = t0) by congruence. subst.
  unfold assigned_volume, Qsum. cbn. ring.
Qed.
End Loops.

(** ** The greedy strategies: the runs *)

Section Runs.
Variable calculate_distance : point -> point -> Q.
Variable trucks0 : list Truck.
Variable orders0 : list Order.
Hypothesis Htrucks : Forall valid_truck trucks0.
Hypothesis Horders : Forall valid_order orders0.

Lemma priority_first_within_capacity :
  exists st,
    PriorityFirstStrategy_assign calculate_distance trucks0 orders0 = Ok st /\
    Forall (within_capacity trucks0 orders0) (assignments st).
Proof.
  unfold PriorityFirstStrategy_assign.
  set (refs := stable_sort _ _).
  destruct (@priority_loop_preserves calculate_distance trucks0 orders0
              Htrucks Horders (fun _ => True)
              (fun _ _ _ _ _ _ _ _ _ _ _ _ => I) refs
              (initial_state trucks0 orders0)
              (initial_invariant orders0 Htrucks) I)
    as (st & Hst & Hinv & _).
  exists st. split; [exact Hst | apply (inv_assignments Hinv)].
Qed.

Lemma greedy_nearest_within_capacity :
  exists st,
    GreedyNearestStrategy_assign calculate_distance trucks0 orders0 = Ok st /\
    Forall (within_capacity trucks0 orders0) (assignments st).
Proof.
  unfold GreedyNearestStrategy_assign.
  set (refs := stable_sort _ _).
  destruct (@greedy_loop_preserves calculate_distance trucks0 orders0
              Htrucks Horders (fun _ => True)
              (fun _ _ _ _ _ _ _ _ _ _ _ _ => I) refs
              (initial_state trucks0 orders0)
              (initial_invariant orders0 Htrucks) I)
    as (st & Hst & Hinv & _).
  exists st. split; [exact Hst | apply (inv_assignments Hinv)].
Qed.

Hypothesis Htruck_ids : NoDup (map truck_id trucks0).
Hypothesis Horder_ids : NoDup (map order_id orders0).

Lemma accounted_within_capacity (st : State) :
  invariant trucks0 orders0 st -> loads_accounted trucks0 orders0 st ->
  loads_within_capacity trucks0 orders0 st.
Proof.
  intros Hinv Hacc i t0 H0.
  destruct (Forall2_nth_error_l _ (inv_trucks Hinv) H0) as (t & Ht & Hrel).
  destruct Hrel as (_ & Ecap & _ & Hle).
  exists t. split; [exact Ht|]. split; [exact Ecap|]. split; [exact Hle|].
  pose proof (Hacc i t0 t H0 Ht) as E.
  split; [exact E|]. rewrite <- E, <- Ecap. exact Hle.
Qed.

Lemma priority_loop_loads (refs : list nat) :
  exists st,
    priority_loop calculate_distance refs (initial_state trucks0 orders0) = Ok st /\
    loads_within_capacity trucks0 orders0 st.
Proof.
  destruct (@priority_loop_preserves calculate_distance trucks0 orders0
              Htrucks Horders (loads_accounted trucks0 orders0)
              (fun st ti t oi o s d =>
                 @commit_accounted trucks0 orders0 Htrucks Horders
                   Htruck_ids Horder_ids st ti oi t o s d)
              refs (initial_state trucks0 orders0)
              (initial_invariant orders0 Htrucks)
              (initial_accounted trucks0 orders0))
    as (st & Hst & Hinv & Hacc).
  exists st. split; [exact Hst | apply accounted_within_capacity; assumption].
Qed.
End Runs.



(** ** The analysis of an empty assignment set *)

Lemma len_nonzero {A : Type} (x : A) (l : list A) : ~ len (x :: l) == 0.
Proof.
  unfold len, Qeq. cbn [List.length Qnum Qden inject_Z]. lia.
Qed.

Lemma priority_stat_ok (orders : list Order) (p : Priority) :
  exists s, priority_stat orders p = Ok s.
Proof.
  unfold priority_stat.
  destruct (filter _ orders) as [|o os] eqn:Ef; cbn [bind].
  - eexists. reflexivity.
  - rewrite (py_div_ok _ (@len_nonzero _ o os)). cbn [bind]. eexists. reflexivity.
Qed.

Lemma priority_stats_ok (orders : list Order) (ps : list Priority) :
  exists ss, priority_stats orders ps = Ok ss.
Proof.
  induction ps as [|p ps [ss IH]]; simpl.
  - eexists. reflexivity.
  - destruct (priority_stat_ok orders p) as [s Hs]. rewrite Hs, IH. cbn [bind].
    eexists. reflexivity.
Qed.

(** With no assignment the analysis raises nothing and its aggregate
    metrics are zero. *)
Lemma analyze_no_assignments (trucks : list Truck) (orders : list Order)
    (unassigned : list nat) :
  exists analysis,
    analyze_assignments [] trucks orders unassigned = Ok analysis /\
    total_assignments analysis = 0%nat /\
    assignment_rate analysis == 0 /\
    avg_distance_km analysis == 0 /\
    min_distance_km analysis == 0 /\
    max_distance_km analysis == 0 /\
    total_distance_km analysis == 0 /\
    total_cost_euro analysis == 0 /\
    avg_cost_euro analysis == 0 /\
    assigned_volume_tons analysis == 0 /\
    volume_assignment_rate analysis == 0.
Proof.
  unfold analyze_assignments.
  assert (Hrate : exists r,
             match orders with
             | [] => Ok 0
             | _ :: _ => bind (py_div (len (@nil Assignment)) (len orders))
                              (fun q => Ok (q * 100))
             end = Ok r /\ r == 0).
  { destruct orders as [|o os].
    - exists 0. split; reflexivity.
    - rewrite (py_div_ok _ (@len_nonzero _ o os)). cbn [bind].
      eexists. split; [reflexivity|]. unfold len at 1. cbn [List.length].
      unfold Qdiv. change (inject_Z (Z.of_nat 0)) with 0. ring. }
  destruct Hrate as (r & -> & Hr). cbn [bind assigned_volumes].
  set (total_volume := Qsum (map volume orders)).
  assert (Hvol : exists v,
             (if Qeq_bool total_volume 0 then Ok 0
              else bind (py_div (Qsum []) total_volume) (fun q => Ok (q * 100)))
             = Ok v /\ v == 0).
  { destruct (Qeq_bool total_volume 0) eqn:E.
    - exists 0. split; reflexivity.
    - assert (Hnz : ~ total_volume == 0).
      { intros H. apply Qeq_bool_iff in H. congruence. }
      rewrite (py_div_ok _ Hnz). cbn [bind].
      eexists. split; [reflexivity|]. unfold Qsum. cbn [fold_left].
      unfold Qdiv. ring. }
  destruct Hvol as (v & -> & Hv). cbn [bind].
  assert (Hutil : exists u,
             match map utilization_percent trucks with
             | [] => Ok 0
             | _ :: _ => py_div (Qsum (map utilization_percent trucks))
                                (len (map utilization_percent trucks))
             end = Ok u).
  { destruct (map utilization_percent trucks) as [|x xs].
    - eexists. reflexivity.
    - rewrite (py_div_ok _ (@len_nonzero _ x xs)). eexists. reflexivity. }
  destruct Hutil as (u & ->). cbn [bind].
  destruct (priority_stats_ok orders [URGENT; HIGH; NORMAL; LOW]) as (ss & ->).
  cbn [bind]. eexists. split; [reflexivity|].
  cbn. repeat split; try reflexivity; assumption.
Qed.

End ArchiveFacts.

(** ** Across the strategies *)

Import Py.

(** C3. In every assignment a strategy produces, the order's weight does
    not exceed the truck's capacity.  Optimal: every assignment names a
    pair of the inputs that passed the capacity check (only such pairs get
    a variable), and with unique identifiers the weight and capacity the
    assignment reports are in that relation.  Greedy strategies, for
    trucks and orders that passed their constructors: the run returns
    without raising, and every assignment names a truck and an order of
    the inputs with [volume <= capacity]. *)
Theorem assignments_respect_capacity :
  (forall (calculate_distance : Dispo.point -> Dispo.point -> Q) (cfg : Dispo.Config)
          (truck_list : list Dispo.Truck) (order_list : list Dispo.Order)
          (stdout : list Dispo.output) (varValue : Dispo.solution)
          (status : Dispo.LpStatus) (d : Dispo.Detail),
      In d (Dispo.assigned_orders_details
              (Dispo.optimal_run calculate_distance cfg truck_list order_list stdout
                 varValue status)) ->
      (exists truck order,
          Dispo.names_pair truck_list order_list (Dispo.detail_key d) truck order /\
          (Dispo.weight_kg order <= Dispo.capacity_kg truck)%Q) /\
      (NoDup (map Dispo.truck_id truck_list) ->
       NoDup (map Dispo.order_id order_list) ->
       (Dispo.auftrag_gewicht_kg d <= Dispo.lkw_kapazitaet_kg d)%Q)) /\
  (forall (calculate_distance : Archive.point -> Archive.point -> Q)
          (trucks : list Archive.Truck) (orders : list Archive.Order),
      Forall Archive.valid_truck trucks -> Forall Archive.valid_order orders ->
      (exists st,
          Archive.GreedyNearestStrategy_assign calculate_distance trucks orders = Ok st /\
          Forall (Archive.within_capacity trucks orders) (Archive.assignments st)) /\
      (exists st,
          Archive.PriorityFirstStrategy_assign calculate_distance trucks orders = Ok st /\
          Forall (Archive.within_capacity trucks orders) (Archive.assignments st))).
Proof.
  split.
  - intros dist cfg ts os out v status d Hin.
    destruct (DispoFacts.optimal_run_capacity dist cfg ts os out v status d Hin)
      as [(t & o & Hn & _ & Hle) Hu].
    split; [exists t, o; auto | exact Hu].
  - intros dist ts os Hts Hos. split.
    + apply ArchiveFacts.greedy_nearest_within_capacity; assumption.
    + apply ArchiveFacts.priority_first_within_capacity; assumption.
Qed.

Lemma assignments_respect_capacity_witness :
  exists st,
    Archive.GreedyNearestStrategy_assign Scenario.depot_distance_archive
      [Scenario.LKW1] [Scenario.AUF1; Scenario.AUF2; Scenario.AUF3] = Ok st /\
    Forall (Archive.within_capacity [Scenario.LKW1]
              [Scenario.AUF1; Scenario.AUF2; Scenario.AUF3])
           (Archive.assignments st).
Proof.
  apply (proj2 assignments_respect_capacity Scenario.depot_distance_archive
           [Scenario.LKW1] [Scenario.AUF1; Scenario.AUF2; Scenario.AUF3]);
    repeat constructor.
Defined.



(* ================================================================== *)
(** * Part III: further properties of the code *)
(* ================================================================== *)

(** ** The great-circle distance: identical points, bounds *)

Module HaversineMore.
Import Haversine HaversineFacts.
Local Open Scope R_scope.

Lemma central_angle_same (p : point) : central_angle p p = Some 0.
Proof.
  destruct p as [lat1 lon1].
  unfold central_angle, haversine_a.
  replace ((radians lat1 - radians lat1) / 2) with 0 by lra.
  replace ((radians lon1 - radians lon1) / 2) with 0 by lra.
  rewrite sin_0.
  replace (0 ^ 2 + cos (radians lat1) * cos (radians lat1) * 0 ^ 2) with 0 by ring.
  unfold math_sqrt. destruct (Rlt_dec 0 0) as [H|_]; [lra|].
  rewrite sqrt_0. unfold math_asin.
  destruct (Rlt_dec 0 (-1)) as [H|_]; [lra|].
  destruct (Rlt_dec 1 0) as [H|_]; [lra|].
  rewrite asin_0. f_equal. ring.
Qed.

Lemma central_angle_le_PI (p q : point) (c : R) :
  central_angle p q = Some c -> 0 <= c <= PI.
Proof.
  destruct (central_angle_total p q) as (c' & Hc & H0).
  rewrite Hc. intros [= <-]. split; [exact H0|].
  destruct p as [lat1 lon1], q as [lat2 lon2]. unfold central_angle in Hc.
  destruct (math_sqrt _) as [s|]; [|discriminate].
  unfold math_asin in Hc.
  destruct (Rlt_dec s (-1)); [discriminate|].
  destruct (Rlt_dec 1 s); [discriminate|].
  injection Hc as <-. pose proof (asin_bound s). lra.
Qed.

(** X1. Identical points are at distance 0, in both variants. *)
Theorem calculate_distance_identical (p : point) :
  calculate_distance p p = Some 0 /\
  calculate_distance_archive p p = Finite 0.
Proof.
  split; [apply calculate_distance_same|].
  unfold calculate_distance_archive. rewrite central_angle_same.
  cbv zeta. f_equal. ring.
Qed.

(** X2. No distance exceeds half the circumference of the earth: the archive
    variant returns a finite [6371 * c] with [c <= PI] (never the
    [float('inf')] of its [except] branch), and the canonical variant
    returns that value rounded, at most 0.005 km away from it. *)
Theorem calculate_distance_bounded (p q : point) :
  exists exact : R,
    0 <= exact <= 6371 * PI /\
    calculate_distance_archive p q = Finite exact /\
    exists d : R,
      calculate_distance p q = Some d /\
      Rabs (d - exact) <= 1 / 200 /\
      d <= 6371 * PI + 1 / 200.
Proof.
  destruct (central_angle_total p q) as (c & Hc & H0).
  destruct (central_angle_le_PI p q Hc) as [_ Hpi].
  exists (6371 * c). split; [split; nra|].
  unfold calculate_distance_archive, calculate_distance. rewrite Hc. cbv zeta.
  split; [reflexivity|].
  exists (round2 (c * 6371)). split; [reflexivity|].
  pose proof (round2_close (c * 6371)) as Hr.
  replace (6371 * c) with (c * 6371) by ring.
  split; [exact Hr|].
  unfold Rabs in Hr. destruct (Rcase_abs _) in Hr; nra.
Qed.

End HaversineMore.

(** ** Sums and sorting *)

Module PyMore.
Import Py PyFacts.

Lemma Qsum_perm (l1 l2 : list Q) : Permutation l1 l2 -> (Qsum l1 == Qsum l2)%Q.
Proof.
  induction 1 as [|x l l' _ IH|x y l|l l' l'' _ IH1 _ IH2].
  - reflexivity.
  - rewrite !Qsum_cons, IH. reflexivity.
  - rewrite !Qsum_cons. ring.
  - rewrite IH1. exact IH2.
Qed.

Section SortSorted.
Context {A : Type} (leb : A -> A -> bool).
Hypothesis leb_total : forall x y, leb x y = true \/ leb y x = true.

Local Abbreviation le := (fun x y => leb x y = true).

Lemma insert_sorted_hd (x a : A) (l : list A) :
  leb a x = true -> HdRel le a l -> HdRel le a (insert_sorted leb x l).
Proof.
  intros Hax Hl. destruct l as [|y l]; simpl.
  - constructor. exact Hax.
  - destruct (leb x y); constructor; [exact Hax|].
    inversion Hl; subst. assumption.
Qed.

Lemma insert_sorted_sorted (x : A) (l : list A) :
  Sorted le l -> Sorted le (insert_sorted leb x l).
Proof.
  induction 1 as [|y l Hs IH Hh]; simpl.
  - repeat constructor.
  - destruct (leb x y) eqn:E.
    + constructor; [constructor; assumption|]. constructor. exact E.
    + constructor; [exact IH|].
      apply insert_sorted_hd; [|exact Hh].
      destruct (leb_total x y) as [H|H]; [congruence|exact H].
Qed.

Lemma stable_sort_sorted (l : list A) : Sorted le (stable_sort leb l).
Proof.
  induction l as [|x l IH]; simpl.
  - constructor.
  - apply insert_sorted_sorted, IH.
Qed.
End SortSorted.

(** Elements with equal keys keep their order: sorting a list that is
    already in order changes nothing. *)
Lemma stable_sort_id {A : Type} (leb : A -> A -> bool) (l : list A) :
  Sorted (fun x y => leb x y = true) l -> stable_sort leb l = l.
Proof.
  induction 1 as [|x l Hs IH Hh]; [reflexivity|].
  change (stable_sort leb (x :: l)) with (insert_sorted leb x (stable_sort leb l)).
  rewrite IH.
  destruct Hh as [|y l Hxy]; simpl; [reflexivity|].
  rewrite Hxy. reflexivity.
Qed.

Lemma string_leb_total (s1 s2 : string) :
  String.leb s1 s2 = true \/ String.leb s2 s1 = true.
Proof.
  destruct (String.leb_total s1 s2) as [H|H]; auto.
Qed.

Lemma string_compare_lt_trans (s1 s2 s3 : string) :
  String.compare s1 s2 = Lt -> String.compare s2 s3 = Lt ->
  String.compare s1 s3 = Lt.
Proof.
  revert s2 s3. induction s1 as [|a1 s1 IH]; intros [|a2 s2] [|a3 s3];
    cbn [String.compare]; try discriminate; try reflexivity.
  unfold Ascii.compare.
  destruct (N.compare_spec (N_of_ascii a1) (N_of_ascii a2)) as [E12|L12|L12];
    try discriminate;
    destruct (N.compare_spec (N_of_ascii a2) (N_of_ascii a3)) as [E23|L23|L23];
    try discriminate; intros H1 H2.
  - rewrite E12, E23, N.compare_refl. apply (IH s2 s3 H1 H2).
  - rewrite E12. apply N.compare_lt_iff in L23. rewrite L23. reflexivity.
  - rewrite <- E23. apply N.compare_lt_iff in L12. rewrite L12. reflexivity.
  - assert (L : (N_of_ascii a1 < N_of_ascii a3)%N) by lia.
    apply N.compare_lt_iff in L. rewrite L. reflexivity.
Qed.

Lemma string_leb_trans (s1 s2 s3 : string) :
  String.leb s1 s2 = true -> String.leb s2 s3 = true -> String.leb s1 s3 = true.
Proof.
  unfold String.leb. intros H1 H2.
  destruct (String.compare s1 s2) eqn:E1; try discriminate;
    destruct (String.compare s2 s3) eqn:E2; try discriminate.
  - apply String.compare_eq_iff in E1. subst. rewrite E2. reflexivity.
  - apply String.compare_eq_iff in E1. subst. rewrite E2. reflexivity.
  - apply String.compare_eq_iff in E2. subst. rewrite E1. reflexivity.
  - rewrite (string_compare_lt_trans _ _ _ E1 E2). reflexivity.
Qed.

Lemma key_le_trans (a b c : Z * string) : key_le a b -> key_le b c -> key_le a c.
Proof.
  unfold key_le. intros [H1|[E1 L1]] [H2|[E2 L2]]; try (left; lia).
  right. split; [lia|]. apply (string_leb_trans _ _ _ L1 L2).
Qed.

Lemma key_leb_le (p q : Z) (s t : string) :
  Z.ltb p q || (Z.eqb p q && String.leb s t) = true <-> key_le (p, s) (q, t).
Proof.
  unfold key_le. cbn [fst snd].
  rewrite orb_true_iff, andb_true_iff, Z.ltb_lt, Z.eqb_eq. tauto.
Qed.

Lemma key_leb_total (p q : Z) (s t : string) :
  Z.ltb p q || (Z.eqb p q && String.leb s t) = true \/
  Z.ltb q p || (Z.eqb q p && String.leb t s) = true.
Proof.
  rewrite !key_leb_le. unfold key_le. cbn [fst snd].
  destruct (Z.lt_total p q) as [H|[H|H]]; auto.
  destruct (string_leb_total s t); auto.
Qed.

End PyMore.

(** ** The 0/1 program: which valuations solve it *)

Module DispoMore.
Import Py PyFacts Dispo DispoFacts.
Local Open Scope Q_scope.

Section ModelSolutions.
Variable calculate_distance : point -> point -> Q.
Variable cfg : Config.

Local Abbreviation pairs_of := (pairs_of calculate_distance cfg).
Local Abbreviation optimal_model := (optimal_model calculate_distance cfg).

Lemma optimal_model_constraints (truck_list : list Truck) (order_list : list Order)
    (stdout : list output) :
  let x_vars := snd (optimal_model truck_list order_list stdout) in
  constraints (fst (optimal_model truck_list order_list stdout))
  = map (order_constraint truck_list x_vars) order_list
    ++ map (truck_constraint order_list x_vars) truck_list.
Proof.
  unfold Dispo.optimal_model. apply create_lp_model_constraints.
Qed.

Lemma lhs_value_zero (l : list pair_key) : lhs_value (fun _ => 0) l == 0.
Proof.
  induction l as [|k l IH]; [reflexivity|].
  rewrite lhs_value_cons, IH. reflexivity.
Qed.

Lemma lhs_value_all_zero (varValue : solution) (l : list pair_key) :
  (forall k, In k l -> varValue k == 0) -> lhs_value varValue l == 0.
Proof.
  induction l as [|k l IH]; intros H; [reflexivity|].
  rewrite lhs_value_cons, (H k (or_introl eq_refl)), IH; [reflexivity|].
  intros k' Hk'. apply H. right. exact Hk'.
Qed.

(** A sum of 0/1 values, of which at most one is 1, is at most 1. *)
Lemma lhs_value_at_most_one (varValue : solution) (l : list pair_key) :
  NoDup l ->
  (forall k, In k l -> varValue k == 0 \/ varValue k == 1) ->
  (forall k1 k2, In k1 l -> In k2 l -> varValue k1 == 1 -> varValue k2 == 1 ->
                 k1 = k2) ->
  lhs_value varValue l <= 1.
Proof.
  induction l as [|x l IH]; intros Hnd Hbin Hone.
  - discriminate.
  - inversion Hnd as [|? ? Hnin Hnd']; subst.
    rewrite lhs_value_cons.
    assert (IH' : lhs_value varValue l <= 1).
    { apply IH; auto.
      - intros k Hk. apply Hbin. right. exact Hk.
      - intros k1 k2 H1 H2. apply Hone; right; assumption. }
    destruct (Hbin x (or_introl eq_refl)) as [E|E]; rewrite E; [Lqa.lra|].
    assert (Hz : lhs_value varValue l == 0).
    { apply lhs_value_all_zero. intros y Hy.
      destruct (Hbin y (or_intror Hy)) as [E0|E1]; [exact E0|].
      exfalso. apply Hnin.
      rewrite <- (Hone y x (or_intror Hy) (or_introl eq_refl) E1 E). exact Hy. }
    rewrite Hz. discriminate.
Qed.

Lemma NoDup_map_pair_l {A : Type} (f : A -> string) (b : string) (l : list A) :
  NoDup (map f l) -> NoDup (map (fun x => (f x, b)) l).
Proof.
  intros H. rewrite <- (map_map f (fun a => (a, b))).
  apply NoDup_map_NoDup_ForallPairs; [|exact H].
  intros x y _ _ E. inversion E. reflexivity.
Qed.

Lemma NoDup_map_pair_r {A : Type} (f : A -> string) (a : string) (l : list A) :
  NoDup (map f l) -> NoDup (map (fun x => (a, f x)) l).
Proof.
  intros H. rewrite <- (map_map f (fun b => (a, b))).
  apply NoDup_map_NoDup_ForallPairs; [|exact H].
  intros x y _ _ E. inversion E. reflexivity.
Qed.

(** *** Assigning nothing is always allowed *)

(** X3. The model of a run always has a solution: the valuation that sets
    every variable to 0 satisfies every constraint, and its objective
    value is 0. *)
Theorem zero_solution_solves (truck_list : list Truck) (order_list : list Order)
    (stdout : list output) :
  let model := optimal_model truck_list order_list stdout in
  solves (fst model) (snd model) (fun _ => 0) /\
  objective_value (fun _ => 0) (objective (fst model)) == 0.
Proof.
  cbv zeta. split; [split|].
  - intros k _. left. reflexivity.
  - rewrite optimal_model_constraints. apply Forall_forall. intros c Hc.
    apply in_app_or in Hc. unfold satisfies.
    destruct Hc as [Hc|Hc]; apply in_map_iff in Hc; destruct Hc as (x & <- & _);
      cbn [lhs rhs order_constraint truck_constraint];
      rewrite lhs_value_zero; discriminate.
  - unfold objective_value.
    induction (objective (fst (optimal_model truck_list order_list stdout)))
      as [|t l IH]; [reflexivity|].
    cbn [map]. rewrite Qsum_cons, IH. ring.
Qed.

(** *** Every matching is allowed *)

(** X4. With unique identifiers, a 0/1 valuation in which no two variables
    at 1 share a truck or an order satisfies every constraint of the
    model: the constraints exclude nothing but shared trucks and orders. *)
Theorem matching_solves (truck_list : list Truck) (order_list : list Order)
    (stdout : list output) (varValue : solution) :
  let model := optimal_model truck_list order_list stdout in
  NoDup (map truck_id truck_list) -> NoDup (map order_id order_list) ->
  binary_on (snd model) varValue ->
  (forall k1 k2, In k1 (snd model) -> In k2 (snd model) ->
     varValue k1 == 1 -> varValue k2 == 1 ->
     fst k1 = fst k2 \/ snd k1 = snd k2 -> k1 = k2) ->
  solves (fst model) (snd model) varValue.
Proof.
  cbv zeta. intros Hts Hos Hbin Hmatch. split; [exact Hbin|].
  rewrite optimal_model_constraints. apply Forall_forall. intros c Hc.
  set (x_vars := snd (optimal_model truck_list order_list stdout)) in *.
  apply in_app_or in Hc. unfold satisfies.
  destruct Hc as [Hc|Hc]; apply in_map_iff in Hc; destruct Hc as (x & <- & Hx);
    cbn [lhs rhs order_constraint truck_constraint];
    apply lhs_value_at_most_one.
  - apply NoDup_filter. apply (NoDup_map_pair_l truck_id (order_id x)), Hts.
  - intros k Hk. apply filter_In in Hk. apply Hbin, in_x_vars_In, Hk.
  - intros k1 k2 H1 H2 E1 E2. apply filter_In in H1, H2.
    destruct H1 as [H1 X1], H2 as [H2 X2].
    apply in_x_vars_In in X1, X2. apply Hmatch; auto. right.
    apply in_map_iff in H1, H2.
    destruct H1 as (t1 & <- & _), H2 as (t2 & <- & _). reflexivity.
  - apply NoDup_filter. apply (NoDup_map_pair_r order_id (truck_id x)), Hos.
  - intros k Hk. apply filter_In in Hk. apply Hbin, in_x_vars_In, Hk.
  - intros k1 k2 H1 H2 E1 E2. apply filter_In in H1, H2.
    destruct H1 as [H1 X1], H2 as [H2 X2].
    apply in_x_vars_In in X1, X2. apply Hmatch; auto. left.
    apply in_map_iff in H1, H2.
    destruct H1 as (o1 & <- & _), H2 as (o2 & <- & _). reflexivity.
Qed.

End ModelSolutions.

Lemma matching_solves_witness :
  let model := optimal_model Scenario.depot_distance constants
                 [Scenario.T1; Scenario.T2] [Scenario.O1; Scenario.O2] [] in
  solves (fst model) (snd model) Scenario.chosen.
Proof.
  apply (@matching_solves Scenario.depot_distance constants
           [Scenario.T1; Scenario.T2] [Scenario.O1; Scenario.O2] []
           Scenario.chosen).
  - repeat constructor; simpl; intuition discriminate.
  - repeat constructor; simpl; intuition discriminate.
  - intros k Hin. vm_compute in Hin.
    destruct Hin as [<-|[<-|[<-|[]]]]; [right | left | right]; reflexivity.
  - intros k1 k2 H1 H2. vm_compute in H1, H2.
    destruct H1 as [<-|[<-|[<-|[]]]], H2 as [<-|[<-|[<-|[]]]];
      intros E1 E2 [E|E]; try reflexivity;
      solve [ vm_compute in E1; discriminate
            | vm_compute in E2; discriminate
            | vm_compute in E; discriminate ].
Defined.

(** ** The results of a run of the Optimal strategy *)

Section RunFacts.
Variable calculate_distance : point -> point -> Q.
Variable cfg : Config.

Local Abbreviation recorded := (recorded calculate_distance cfg).
Local Abbreviation pairs_of := (pairs_of calculate_distance cfg).
Local Abbreviation optimal_model := (optimal_model calculate_distance cfg).
Local Abbreviation optimal_run := (optimal_run calculate_distance cfg).

Lemma find_truck_some (truck_list : list Truck) (id : string) (t : Truck) :
  In t truck_list -> truck_id t = id ->
  exists t', find_truck truck_list id = Some t'.
Proof.
  intros Hin E. unfold find_truck.
  destruct (find _ truck_list) as [t'|] eqn:Ef; [exists t'; reflexivity|].
  pose proof (find_none _ _ Ef t Hin) as Hn. cbv beta in Hn.
  rewrite E, String.eqb_refl in Hn. discriminate.
Qed.

Lemma find_order_some (order_list : list Order) (i : nat) (id : string) (o : Order) :
  In o order_list -> order_id o = id ->
  exists r o', find_order i order_list id = Some (r, o').
Proof.
  revert i. induction order_list as [|x os IH]; intros i Hin E; [destruct Hin|].
  simpl. destruct (String.eqb (order_id x) id) eqn:Ex.
  - exists i, x. reflexivity.
  - destruct Hin as [->|Hin].
    + rewrite E, String.eqb_refl in Ex. discriminate.
    + apply IH; assumption.
Qed.

Lemma find_order_nth (order_list : list Order) (i : nat) (id : string)
    (r : nat) (o : Order) :
  find_order i order_list id = Some (r, o) ->
  (i <= r)%nat /\ nth_error order_list (r - i) = Some o /\ order_id o = id.
Proof.
  revert i. induction order_list as [|x os IH]; intros i; simpl; [discriminate|].
  destruct (String.eqb (order_id x) id) eqn:Ex.
  - intros [= <- <-]. rewrite Nat.sub_diag. apply String.eqb_eq in Ex. auto.
  - intros Hf. destruct (IH _ Hf) as (Hle & Hn & E).
    split; [lia|]. split; [|exact E].
    replace (r - i)%nat with (S (r - S i)) by lia. exact Hn.
Qed.

(** In a run every key of the dictionary passes the three lookups. *)
Lemma run_lookup (truck_list : list Truck) (order_list : list Order) (k : pair_key) :
  In k (dict_keys (pairs_of truck_list order_list)) ->
  exists v t r o,
    lookup_assignment truck_list order_list (pairs_of truck_list order_list) k
    = Some (v, t, r, o) /\
    dict_get (pairs_of truck_list order_list) k = Some v /\
    In t truck_list /\ truck_id t = fst k /\
    nth_error order_list r = Some o /\ order_id o = snd k.
Proof.
  intros Hin. pose proof Hin as Hmem. apply dict_mem_In in Hmem.
  unfold dict_mem in Hmem.
  destruct (dict_get (pairs_of truck_list order_list) k) as [v|] eqn:Eg;
    [|discriminate].
  apply pairs_of_keys in Hin. destruct Hin as (t0 & o0 & (Ht & Ho & Et & Eo) & _).
  destruct (find_truck_some truck_list t0 Ht Et) as (t & Hft).
  destruct (find_order_some order_list 0 o0 Ho Eo) as (r & o & Hfo).
  exists v, t, r, o. unfold lookup_assignment. rewrite Eg, Hft, Hfo.
  destruct (find_truck_In _ _ Hft) as [Ht1 Ht2].
  destruct (find_order_nth _ _ _ Hfo) as (_ & Hn & Eid).
  rewrite Nat.sub_0_r in Hn. auto 10.
Qed.

(** With unique identifiers, an assignment is the detail of a pair of
    the inputs that the feasibility analysis recorded. *)
Lemma optimal_run_detail_pair (truck_list : list Truck) (order_list : list Order)
    (stdout : list output) (varValue : solution) (status : LpStatus) (d : Detail) :
  NoDup (map truck_id truck_list) -> NoDup (map order_id order_list) ->
  In d (assigned_orders_details
          (optimal_run truck_list order_list stdout varValue status)) ->
  exists truck order v,
    In truck truck_list /\ In order order_list /\
    recorded truck order = Some v /\
    d = make_detail (truck_id truck, order_id order) v truck order.
Proof.
  intros Hts Hos Hin. apply optimal_run_details in Hin.
  destruct Hin as (k & Hact & Hres).
  unfold active_keys in Hact. apply filter_In in Hact. destruct Hact as [Hkeys _].
  destruct (run_lookup truck_list order_list k Hkeys)
    as (v & t & r & o & Hl & Hg & Ht & Et & Hn & Eo).
  unfold resolve in Hres. rewrite Hl in Hres. destruct Hres as [<-|[]].
  apply dict_get_Some_In in Hg.
  pose proof (pairs_of_items calculate_distance cfg truck_list order_list) as Hall.
  rewrite Forall_forall in Hall.
  destruct (Hall _ Hg) as (t0 & o0 & (Ht0 & Ho0 & Et0 & Eo0) & Hr).
  cbn [fst snd] in *.
  pose proof (nth_error_In _ _ Hn) as Ho.
  assert (t0 = t) by (apply (unique_id truck_id truck_list); congruence).
  assert (o0 = o) by (apply (unique_id order_id order_list); congruence).
  subst t0 o0. exists t, o, v.
  destruct k as [tid oid]. cbn [fst snd] in *. subst tid oid. auto.
Qed.

(** The times the code records for a pair, for a positive speed. *)
Lemma recorded_times (truck : Truck) (order : Order) (v : PairValues) :
  0 < AVERAGE_SPEED_KMH cfg ->
  recorded truck order = Some v ->
  let start := loadingStart calculate_distance cfg truck order in
  let finish :=
    loadingEnd calculate_distance cfg truck order
    + travelTime cfg (calculate_distance (loading_site order) (unloading_site order))
    + unloading_duration_h order in
  ladebeginn_calc_h v = Fin start /\
  ladeende_calc_h v = Fin (start + loading_duration_h order) /\
  entladung_ende_calc_h v = Fin finish /\
  gesamtdauer_auftrag_ab_lkw_start_h v = Fin (finish - available_from_h truck) /\
  feasible calculate_distance cfg truck order.
Proof.
  intros Hspeed Hr. cbv zeta.
  assert (Hf : feasible calculate_distance cfg truck order).
  { apply (recorded_feasible calculate_distance cfg truck order Hspeed). congruence. }
  split; [|split; [|split; [|split; [|exact Hf]]]];
    revert Hr;
    unfold Dispo.recorded, Dispo.check_pair, Dispo.loadingEnd, Dispo.loadingStart,
      Dispo.travelTime, Dispo.calculate_travel_time_h;
    (assert (Hs : Qle_bool (AVERAGE_SPEED_KMH cfg) 0 = false)
       by (apply Qle_bool_gt; exact Hspeed));
    rewrite Hs; cbn [num_add num_max num_sub];
    (destruct (Qltb _ _); [discriminate|]);
    (destruct (num_gtb _ _); [discriminate|]);
    (destruct (num_gtb _ _); [discriminate|]);
    cbn [dict_set dict_get]; rewrite keqb_refl; intros [= <-]; reflexivity.
Qed.

Lemma remove_ref_In (r x : nat) (l : list nat) :
  NoDup l -> (In x (remove_ref r l) <-> In x l /\ x <> r).
Proof.
  induction l as [|y l IH]; intros Hnd; simpl; [tauto|].
  inversion Hnd as [|? ? Hnin Hnd']; subst.
  destruct (Nat.eqb y r) eqn:E.
  - apply Nat.eqb_eq in E. subst y. split.
    + intros H. split; [right; exact H|]. intros ->. contradiction.
    + intros [[->|H] Hne]; [congruence | exact H].
  - apply Nat.eqb_neq in E. simpl. rewrite (IH Hnd'). split.
    + intros [->|[H Hne]]; auto.
    + intros [[->|H] Hne]; auto.
Qed.

Lemma remove_ref_NoDup (r : nat) (l : list nat) : NoDup l -> NoDup (remove_ref r l).
Proof.
  induction l as [|y l IH]; intros Hnd; simpl; [constructor|].
  inversion Hnd as [|? ? Hnin Hnd']; subst.
  destruct (Nat.eqb y r); [exact Hnd'|].
  constructor; [|apply IH, Hnd'].
  intros H. apply remove_ref_In in H; [|exact Hnd']. apply Hnin, H.
Qed.

(** What the loop leaves in [unassigned_orders_obj]. *)
Lemma extract_loop_unassigned (truck_list : list Truck) (order_list : list Order)
    (pairs : dict pair_key PairValues) (keys : list pair_key) (res : Results) :
  NoDup (unassigned_orders_obj res) ->
  let res' := fold_left (extract_step truck_list order_list pairs) keys res in
  NoDup (unassigned_orders_obj res') /\
  forall r, In r (unassigned_orders_obj res') <->
            In r (unassigned_orders_obj res) /\
            ~ In r (removed_refs truck_list order_list pairs keys).
Proof.
  revert res. induction keys as [|k keys IH]; intros res Hnd; cbn [fold_left].
  - cbv zeta. split; [exact Hnd|]. intros r. simpl. tauto.
  - cbv zeta. unfold removed_refs. cbn [flat_map]. fold (removed_refs truck_list order_list pairs keys).
    unfold extract_step at 2 4.
    destruct (lookup_assignment truck_list order_list pairs k)
      as [[[[v t] r0] o]|] eqn:El.
    + match goal with |- context [fold_left _ keys ?r] =>
        destruct (IH r) as [Hnd' Hiff] end.
      { cbn. apply remove_ref_NoDup, Hnd. }
      split; [exact Hnd'|]. intros r. rewrite Hiff.
      cbn [unassigned_orders_obj]. rewrite (remove_ref_In r0 r Hnd).
      cbn [app In]. intuition congruence.
    + destruct (IH res Hnd) as [Hnd' Hiff].
      split; [exact Hnd'|]. intros r. rewrite Hiff. cbn [app]. tauto.
Qed.

(** The unassigned references of any results: those that no active key
    removed. *)
Lemma extract_unassigned (prob : LpProblem) (varValue : solution)
    (x_vars : list pair_key) (truck_list : list Truck) (order_list : list Order)
    (pairs : dict pair_key PairValues) (status : LpStatus) (r : nat) :
  In r (unassigned_orders_obj
          (extract_and_show_results prob varValue x_vars truck_list order_list
             pairs status)) <->
  (r < List.length order_list)%nat /\
  match status with
  | LpStatusOptimal | LpStatusFeasible =>
      ~ In r (removed_refs truck_list order_list pairs (active_keys varValue x_vars))
  | _ => True
  end.
Proof.
  unfold extract_and_show_results. cbn [unassigned_orders_obj].
  rewrite <- (Permutation_in' eq_refl (stable_sort_perm (order_ref_leb order_list) _)).
  destruct status; cbn [unassigned_orders_obj];
    try (rewrite in_seq; split; [intros H; split; [lia | exact I] | intros [H _]; lia]);
    (match goal with |- context [fold_left ?f ?keys ?res] =>
       destruct (extract_loop_unassigned truck_list order_list pairs keys res)
         as [_ Hiff]; [cbn; apply seq_NoDup|] end;
     rewrite Hiff; cbn [unassigned_orders_obj]; rewrite in_seq;
     split; [intros [H1 H2]; split; [lia | exact H2]
            | intros [H1 H2]; split; [lia | exact H2]]).
Qed.

End RunFacts.

Section RunProperties.
Variable calculate_distance : point -> point -> Q.
Variable cfg : Config.

Local Abbreviation recorded := (recorded calculate_distance cfg).
Local Abbreviation pairs_of := (pairs_of calculate_distance cfg).
Local Abbreviation optimal_model := (optimal_model calculate_distance cfg).
Local Abbreviation optimal_run := (optimal_run calculate_distance cfg).

(** The reference of an order is removed exactly when an assignment
    names the order. *)
Lemma removed_iff_assigned (truck_list : list Truck) (order_list : list Order)
    (varValue : solution) (r : nat) (o : Order) :
  NoDup (map order_id order_list) ->
  nth_error order_list r = Some o ->
  let pairs := pairs_of truck_list order_list in
  let keys := active_keys varValue (dict_keys pairs) in
  (In r (removed_refs truck_list order_list pairs keys) <->
   In (order_id o)
      (map auftrag_id (flat_map (resolve truck_list order_list pairs) keys))).
Proof.
  intros Hos Hn. cbv zeta.
  set (pairs := pairs_of truck_list order_list).
  set (keys := active_keys varValue (dict_keys pairs)).
  unfold removed_refs. rewrite in_flat_map, in_map_iff. split.
  - intros (k & Hk & Hr).
    destruct (lookup_assignment truck_list order_list pairs k)
      as [[[[v t] r0] o0]|] eqn:El; [|destruct Hr].
    destruct Hr as [<-|[]].
    exists (make_detail k v t o0). split.
    + unfold lookup_assignment in El.
      destruct (dict_get pairs k); [|discriminate].
      destruct (find_truck truck_list (fst k)); [|discriminate].
      destruct (find_order 0 order_list (snd k)) as [[r1 o1]|] eqn:Ef; [|discriminate].
      injection El as <- <- <- <-.
      destruct (find_order_nth _ _ _ Ef) as (_ & Hn1 & E1).
      rewrite Nat.sub_0_r in Hn1. assert (o1 = o) by congruence. subst o1.
      destruct k. cbn in *. congruence.
    + apply in_flat_map. exists k. split; [exact Hk|].
      unfold resolve. rewrite El. left. reflexivity.
  - intros (d & Ed & Hd). apply in_flat_map in Hd. destruct Hd as (k & Hk & Hd).
    exists k. split; [exact Hk|].
    pose proof (resolve_key _ _ _ _ _ Hd) as Ek.
    unfold resolve in Hd.
    destruct (lookup_assignment truck_list order_list pairs k)
      as [[[[v t] r0] o0]|] eqn:El; [|destruct Hd].
    left. unfold lookup_assignment in El.
    destruct (dict_get pairs k); [|discriminate].
    destruct (find_truck truck_list (fst k)); [|discriminate].
    destruct (find_order 0 order_list (snd k)) as [[r1 o1]|] eqn:Ef; [|discriminate].
    injection El as <- <- <- <-.
    destruct (find_order_nth _ _ _ Ef) as (_ & Hn1 & E1).
    rewrite Nat.sub_0_r in Hn1.
    apply (@ArchiveFacts.unique_index Order order_id order_list r1 r o1 o Hos Hn1 Hn).
    rewrite E1, <- Ek in *. unfold detail_key in Ed. cbn in Ed |- *. congruence.
Qed.




End RunProperties.

(** X7. With the module's constants and unique identifiers, every assignment
    of a run keeps the time windows of its pair: loading starts no
    earlier than the truck can arrive and than the window opens, and at
    most 0.01 h after the latest start of the window; unloading ends at
    most 0.01 h after the truck's availability ends. *)
Theorem assignments_keep_time_windows (calculate_distance : point -> point -> Q)
    (truck_list : list Truck) (order_list : list Order)
    (stdout : list output) (varValue : solution) (status : LpStatus) (d : Detail) :
  NoDup (map truck_id truck_list) -> NoDup (map order_id order_list) ->
  In d (assigned_orders_details
          (optimal_run calculate_distance constants truck_list order_list stdout
             varValue status)) ->
  exists truck order start finish,
    In truck truck_list /\ In order order_list /\
    lkw_id d = truck_id truck /\ auftrag_id d = order_id order /\
    ladebeginn_h d = Fin start /\
    ladeende_h d = Fin (start + loading_duration_h order) /\
    entladung_ende_h d = Fin finish /\
    available_from_h truck
      + calculate_distance (location truck) (loading_site order) / 80 <= start /\
    loading_window_early_h order <= start /\
    start <= loading_window_late_h order - loading_duration_h order + (1 # 100) /\
    finish ==
      start + loading_duration_h order
      + calculate_distance (loading_site order) (unloading_site order) / 80
      + unloading_duration_h order /\
    finish <= available_until_h truck + (1 # 100).
Proof.
  intros Hts Hos Hin.
  destruct (optimal_run_detail_pair calculate_distance constants truck_list
              order_list stdout varValue status d Hts Hos Hin)
    as (t & o & v & Ht & Ho & Hr & ->).
  destruct (recorded_times calculate_distance constants t o
              (eq_refl : 0 < AVERAGE_SPEED_KMH constants) Hr)
    as (E1 & E2 & E3 & _ & Hf).
  destruct Hf as (_ & Hf2 & Hf3).
  exists t, o. eexists. eexists.
  split; [exact Ht|]. split; [exact Ho|].
  split; [reflexivity|]. split; [reflexivity|].
  cbn [make_detail ladebeginn_h ladeende_h entladung_ende_h].
  split; [exact E1|]. split; [exact E2|]. split; [exact E3|].
  split; [apply Q.le_max_l|]. split; [apply Q.le_max_r|].
  split; [exact Hf2|]. split; [reflexivity|]. exact Hf3.
Qed.

Section Reports.
Variable calculate_distance : point -> point -> Q.
Variable cfg : Config.

Local Abbreviation pairs_of := (pairs_of calculate_distance cfg).
Local Abbreviation optimal_model := (optimal_model calculate_distance cfg).
Local Abbreviation optimal_run := (optimal_run calculate_distance cfg).

Lemma Sorted_impl {A : Type} (R R' : A -> A -> Prop) (l : list A) :
  (forall x y, R x y -> R' x y) -> Sorted R l -> Sorted R' l.
Proof.
  intros Himp. induction 1 as [|x l Hs IH Hh]; constructor; [exact IH|].
  destruct Hh; constructor. apply Himp. assumption.
Qed.

Lemma detail_leb_total (a b : Detail) :
  detail_leb a b = true \/ detail_leb b a = true.
Proof. apply PyMore.key_leb_total. Qed.

Lemma order_ref_leb_total (order_list : list Order) (a b : nat) :
  order_ref_leb order_list a b = true \/ order_ref_leb order_list b a = true.
Proof.
  unfold order_ref_leb.
  destruct (nth_error order_list a), (nth_error order_list b); auto.
  apply PyMore.key_leb_total.
Qed.

Lemma orders_of_sorted (order_list : list Order) (refs : list nat) :
  Forall (fun r => (r < List.length order_list)%nat) refs ->
  Sorted (fun a b => order_ref_leb order_list a b = true) refs ->
  Sorted (fun x y => key_le (priority x, order_id x) (priority y, order_id y))
    (orders_of order_list refs).
Proof.
  intros Hall Hs. induction Hs as [|r refs Hs IH Hh]; [constructor|].
  inversion Hall as [|? ? Hr Hall']; subst.
  unfold orders_of. cbn [flat_map]. fold (orders_of order_list refs).
  destruct (nth_error order_list r) as [o|] eqn:En;
    [|apply nth_error_None in En; lia].
  cbn [app]. constructor; [apply IH, Hall'|].
  destruct Hh as [|r' refs' Hrr']; [constructor|].
  inversion Hall' as [|? ? Hr' _]; subst.
  unfold orders_of. cbn [flat_map].
  destruct (nth_error order_list r') as [o'|] eqn:En';
    [|apply nth_error_None in En'; lia].
  cbn [app]. constructor.
  unfold order_ref_leb in Hrr'. rewrite En, En' in Hrr'.
  apply PyMore.key_leb_le, Hrr'.
Qed.

(** X8. Both returned lists are in order: an assignment never comes after
    one of a larger priority number or, at the same priority, of a
    larger truck identifier; an unassigned order never comes after one
    of a larger priority number or, at the same priority, of a larger
    order identifier. *)
Theorem results_sorted (prob : LpProblem) (varValue : solution)
    (x_vars : list pair_key) (truck_list : list Truck) (order_list : list Order)
    (pairs : dict pair_key PairValues) (status : LpStatus) :
  let res := extract_and_show_results prob varValue x_vars truck_list order_list
               pairs status in
  StronglySorted
    (fun a b => key_le (auftrag_prio_original a, lkw_id a)
                       (auftrag_prio_original b, lkw_id b))
    (assigned_orders_details res) /\
  StronglySorted
    (fun x y => key_le (priority x, order_id x) (priority y, order_id y))
    (orders_of order_list (unassigned_orders_obj res)).
Proof.
  cbv zeta. split.
  - apply Sorted_StronglySorted.
    { intros a b c. apply PyMore.key_le_trans. }
    apply (Sorted_impl (R := fun a b => detail_leb a b = true)).
    { intros a b H. apply PyMore.key_leb_le, H. }
    unfold extract_and_show_results.
    destruct status; cbn [assigned_orders_details];
      first [ apply PyMore.stable_sort_sorted, detail_leb_total | constructor ].
  - apply Sorted_StronglySorted.
    { intros a b c. apply PyMore.key_le_trans. }
    apply orders_of_sorted.
    + apply Forall_forall. intros r Hr. apply extract_unassigned in Hr. apply Hr.
    + unfold extract_and_show_results. cbn [unassigned_orders_obj].
      apply PyMore.stable_sort_sorted, order_ref_leb_total.
Qed.

Lemma resolve_run (truck_list : list Truck) (order_list : list Order) (k : pair_key) :
  In k (dict_keys (pairs_of truck_list order_list)) ->
  exists v t o,
    dict_get (pairs_of truck_list order_list) k = Some v /\
    resolve truck_list order_list (pairs_of truck_list order_list) k
    = [make_detail k v t o].
Proof.
  intros Hin.
  destruct (run_lookup calculate_distance cfg truck_list order_list k Hin)
    as (v & t & r & o & Hl & Hg & _).
  exists v, t, o. split; [exact Hg|]. unfold resolve. rewrite Hl. reflexivity.
Qed.

Lemma objective_of_active (truck_list : list Truck) (order_list : list Order)
    (varValue : solution) (items : list (pair_key * PairValues)) :
  (forall k v, In (k, v) items ->
     dict_get (pairs_of truck_list order_list) k = Some v) ->
  binary_on (map fst items) varValue ->
  objective_value varValue
    (map (fun item : pair_key * PairValues =>
            (PRIORITY_WEIGHT_FACTOR cfg * prio_gewicht (snd item)
             - DISTANCE_COST_FACTOR cfg * distanz_gesamt_fuer_auftrag (snd item),
             fst item)) items)
  == Qsum (map (detail_value cfg)
             (flat_map (resolve truck_list order_list (pairs_of truck_list order_list))
                (active_keys varValue (map fst items)))).
Proof.
  unfold objective_value, active_keys.
  induction items as [|[k v] items IH]; intros Hget Hbin.
  - reflexivity.
  - cbn [map filter fst snd]. rewrite Qsum_cons.
    rewrite IH.
    2:{ intros k' v' Hin. apply Hget. right. exact Hin. }
    2:{ intros k' Hin. apply Hbin. right. exact Hin. }
    assert (Hk : In k (dict_keys (pairs_of truck_list order_list))).
    { apply dict_mem_In. unfold dict_mem. rewrite (Hget k v (or_introl eq_refl)).
      reflexivity. }
    destruct (resolve_run truck_list order_list k Hk) as (v' & t & o & Hg & Hres).
    rewrite (Hget k v (or_introl eq_refl)) in Hg. inversion Hg; subst v'.
    destruct (Hbin k (or_introl eq_refl)) as [E|E].
    + assert (Ef : Qltb (1 # 2) (varValue k) = false).
      { destruct (Qltb (1 # 2) (varValue k)) eqn:Eq; [|reflexivity].
        apply Qltb_lt in Eq. rewrite E in Eq. discriminate Eq. }
      rewrite Ef, E. ring.
    + assert (Ef : Qltb (1 # 2) (varValue k) = true).
      { destruct (Qltb (1 # 2) (varValue k)) eqn:Eq; [reflexivity|].
        apply Qltb_ge in Eq. rewrite E in Eq. exfalso. apply Eq. reflexivity. }
      rewrite Ef, E. cbn [flat_map]. rewrite Hres. cbn [app map].
      rewrite Qsum_cons. unfold detail_value, make_detail. destruct k.
      cbn [auftrag_prio_gewicht gesamtdistanz_fuer_auftrag_km]. ring.
Qed.

Lemma resolve_length (truck_list : list Truck) (order_list : list Order)
    (keys : list pair_key) :
  incl keys (dict_keys (pairs_of truck_list order_list)) ->
  List.length (flat_map (resolve truck_list order_list (pairs_of truck_list order_list))
                 keys)
  = List.length keys.
Proof.
  induction keys as [|k keys IH]; intros Hincl; [reflexivity|].
  cbn [flat_map]. rewrite length_app, IH.
  2:{ intros x Hx. apply Hincl. right. exact Hx. }
  destruct (resolve_run truck_list order_list k (Hincl k (or_introl eq_refl)))
    as (v & t & o & _ & ->).
  reflexivity.
Qed.

(** X9. The totals of a run are those of the assignments it reports: their
    number, the sum of their distances and, when the solver left 0/1
    values, the sum of their objective coefficients. *)
Theorem reported_totals (truck_list : list Truck) (order_list : list Order)
    (stdout : list output) (varValue : solution) (status : LpStatus) :
  binary_on (snd (optimal_model truck_list order_list stdout)) varValue ->
  let res := optimal_run truck_list order_list stdout varValue status in
  number_of_assigned_orders res = List.length (assigned_orders_details res) /\
  total_distance_final_km res
  == Qsum (map gesamtdistanz_fuer_auftrag_km (assigned_orders_details res)) /\
  total_objective_value res
  == Qsum (map (detail_value cfg) (assigned_orders_details res)).
Proof.
  intros Hbin. cbv zeta.
  pose proof (extract_details
                (fst (optimal_model truck_list order_list stdout)) varValue
                (snd (optimal_model truck_list order_list stdout))
                truck_list order_list (pairs_of truck_list order_list) status) as Hperm.
  cbv zeta in Hperm.
  change (optimal_run truck_list order_list stdout varValue status)
    with (extract_and_show_results
            (fst (optimal_model truck_list order_list stdout)) varValue
            (snd (optimal_model truck_list order_list stdout))
            truck_list order_list (pairs_of truck_list order_list) status).
  rewrite (Permutation_length Hperm).
  rewrite (PyMore.Qsum_perm (Permutation_map gesamtdistanz_fuer_auftrag_km Hperm)).
  rewrite (PyMore.Qsum_perm (Permutation_map (detail_value cfg) Hperm)).
  clear Hperm.
  change (snd (optimal_model truck_list order_list stdout))
    with (dict_keys (pairs_of truck_list order_list)) in *.
  assert (Hobj : objective_value varValue
                   (objective (fst (optimal_model truck_list order_list stdout)))
                 == Qsum (map (detail_value cfg)
                            (flat_map (resolve truck_list order_list
                                         (pairs_of truck_list order_list))
                               (active_keys varValue
                                  (dict_keys (pairs_of truck_list order_list)))))).
  { destruct (create_lp_model_objective cfg truck_list order_list
                (pairs_of truck_list order_list)) as [_ Ho].
    change (fst (optimal_model truck_list order_list stdout))
      with (fst (create_lp_model cfg truck_list order_list
                   (pairs_of truck_list order_list))).
    rewrite Ho.
    apply (@objective_of_active truck_list order_list varValue
             (pairs_of truck_list order_list)).
    - intros k v Hin. apply dict_get_In_NoDup; [|exact Hin].
      apply (pairs_of_NoDup calculate_distance cfg).
    - exact Hbin. }
  unfold extract_and_show_results.
  destruct status; cbn [number_of_assigned_orders total_distance_final_km
                        total_objective_value];
    try (split; [reflexivity|split; reflexivity]);
    (match goal with |- context [fold_left ?f ?keys ?r] =>
       destruct (extract_loop truck_list order_list
                   (pairs_of truck_list order_list) keys r)
         as (_ & Ht & Hn & Ho & _) end;
     cbv zeta in Ht, Hn, Ho; rewrite Ht, Hn, Ho;
     cbn [number_of_assigned_orders total_distance_final_km total_objective_value];
     split; [|split]).
  all: try (symmetry; apply resolve_length; intros x Hx;
            unfold active_keys in Hx; apply filter_In in Hx; apply Hx).
  all: try (rewrite Qplus_0_l; reflexivity).
  all: try exact Hobj.
Qed.

End Reports.

Section Relaxation.
Variable calculate_distance : point -> point -> Q.
Variable cfg : Config.

Local Abbreviation recorded := (recorded calculate_distance cfg).
Local Abbreviation pairs_of := (pairs_of calculate_distance cfg).

Lemma recorded_relaxed (truck truck' : Truck) (order : Order) :
  location truck' = location truck ->
  capacity_kg truck <= capacity_kg truck' ->
  available_from_h truck' <= available_from_h truck ->
  available_until_h truck <= available_until_h truck' ->
  recorded truck order <> None -> recorded truck' order <> None.
Proof.
  intros Hloc Hcap Hfrom Huntil Hr.
  destruct (Qlt_le_dec 0 (AVERAGE_SPEED_KMH cfg)) as [Hspeed|Hspeed].
  - apply (recorded_feasible calculate_distance cfg truck order Hspeed) in Hr.
    apply (recorded_feasible calculate_distance cfg truck' order Hspeed).
    destruct Hr as (H1 & H2 & H3).
    assert (Hstart : loadingStart calculate_distance cfg truck' order
                     <= loadingStart calculate_distance cfg truck order).
    { unfold loadingStart. rewrite Hloc. apply Q.max_le_compat_r.
      apply Qplus_le_l. exact Hfrom. }
    unfold feasible, loadingEnd in *.
    split; [Lqa.lra|]. split; Lqa.lra.
  - rewrite (recorded_no_speed calculate_distance cfg truck order Hspeed) in Hr.
    congruence.
Qed.

(** X10. A truck replaced by one at the same place, with at least its
    capacity and an availability that contains its own, keeps every
    permissible pair it had (unique identifiers in the first run). *)
Theorem relaxed_truck_keeps_pairs (trucks1 trucks2 : list Truck)
    (order_list : list Order) (truck truck' : Truck) (order : Order) :
  NoDup (map truck_id (trucks1 ++ truck :: trucks2)) ->
  NoDup (map order_id order_list) ->
  In order order_list ->
  location truck' = location truck ->
  capacity_kg truck <= capacity_kg truck' ->
  available_from_h truck' <= available_from_h truck ->
  available_until_h truck <= available_until_h truck' ->
  dict_mem (pairs_of (trucks1 ++ truck :: trucks2) order_list)
    (truck_id truck, order_id order) = true ->
  dict_mem (pairs_of (trucks1 ++ truck' :: trucks2) order_list)
    (truck_id truck', order_id order) = true.
Proof.
  intros Hts Hos Ho Hloc Hcap Hfrom Huntil Hmem.
  apply dict_mem_In in Hmem. apply dict_mem_In.
  apply pairs_of_keys in Hmem. apply pairs_of_keys.
  destruct Hmem as (t0 & o0 & (Ht0 & Ho0 & Et & Eo) & Hr).
  cbn [fst snd] in Et, Eo.
  assert (t0 = truck).
  { apply (unique_id truck_id (trucks1 ++ truck :: trucks2)); auto.
    apply in_or_app. right. left. reflexivity. }
  assert (o0 = order) by (apply (unique_id order_id order_list); auto).
  subst t0 o0.
  exists truck', order. split.
  - split; [apply in_or_app; right; left; reflexivity|].
    split; [exact Ho|]. split; reflexivity.
  - apply (recorded_relaxed truck truck' order); assumption.
Qed.

End Relaxation.



Lemma assignments_keep_time_windows_witness :
  exists d,
    In d (assigned_orders_details
            (optimal_run Scenario.depot_distance constants
               [Scenario.T1; Scenario.T2] [Scenario.O1; Scenario.O2] []
               Scenario.chosen LpStatusOptimal)) /\
    exists truck order start finish,
      In truck [Scenario.T1; Scenario.T2] /\ In order [Scenario.O1; Scenario.O2] /\
      lkw_id d = truck_id truck /\ auftrag_id d = order_id order /\
      ladebeginn_h d = Fin start /\
      ladeende_h d = Fin (start + loading_duration_h order) /\
      entladung_ende_h d = Fin finish /\
      available_from_h truck
        + Scenario.depot_distance (location truck) (loading_site order) / 80 <= start /\
      loading_window_early_h order <= start /\
      start <= loading_window_late_h order - loading_duration_h order + (1 # 100) /\
      finish ==
        start + loading_duration_h order
        + Scenario.depot_distance (loading_site order) (unloading_site order) / 80
        + unloading_duration_h order /\
      finish <= available_until_h truck + (1 # 100).
Proof.
  eexists. split.
  - vm_compute. left. reflexivity.
  - apply (@assignments_keep_time_windows Scenario.depot_distance
             [Scenario.T1; Scenario.T2] [Scenario.O1; Scenario.O2] []
             Scenario.chosen LpStatusOptimal).
    + repeat constructor; simpl; intuition discriminate.
    + repeat constructor; simpl; intuition discriminate.
    + vm_compute. left. reflexivity.
Defined.

Lemma reported_totals_witness :
  let res := optimal_run Scenario.depot_distance constants
               [Scenario.T1; Scenario.T2] [Scenario.O1; Scenario.O2] []
               Scenario.chosen LpStatusOptimal in
  number_of_assigned_orders res = List.length (assigned_orders_details res) /\
  total_distance_final_km res
  == Qsum (map gesamtdistanz_fuer_auftrag_km (assigned_orders_details res)) /\
  total_objective_value res
  == Qsum (map (detail_value constants) (assigned_orders_details res)).
Proof.
  apply (@reported_totals Scenario.depot_distance constants
           [Scenario.T1; Scenario.T2] [Scenario.O1; Scenario.O2] []
           Scenario.chosen LpStatusOptimal).
  intros k Hin. vm_compute in Hin.
  destruct Hin as [<-|[<-|[<-|[]]]]; [right | left | right]; reflexivity.
Defined.

Lemma relaxed_truck_keeps_pairs_witness :
  dict_mem (pairs_of Scenario.depot_distance constants
              [Scenario.T3] [Scenario.O1; Scenario.O2])
    (truck_id Scenario.T3, order_id Scenario.O1) = true.
Proof.
  apply (@relaxed_truck_keeps_pairs Scenario.depot_distance constants
           [] [] [Scenario.O1; Scenario.O2] Scenario.T1 Scenario.T3 Scenario.O1).
  - repeat constructor; simpl; intuition discriminate.
  - repeat constructor; simpl; intuition discriminate.
  - left. reflexivity.
  - reflexivity.
  - vm_compute. discriminate.
  - vm_compute. discriminate.
  - vm_compute. discriminate.
  - reflexivity.
Defined.

End DispoMore.

(** ** The greedy strategies: what the scans select *)

Module ArchiveMore.
Import Py PyFacts Archive ArchiveFacts.
Local Open Scope Q_scope.

Section Selection.
Variable calculate_distance : point -> point -> Q.

Local Abbreviation score_of := (calculate_assignment_score calculate_distance).
Local Abbreviation scan_trucks := (scan_trucks calculate_distance).
Local Abbreviation scan_orders := (scan_orders calculate_distance).
Local Abbreviation best_truck := (best_truck calculate_distance).
Local Abbreviation best_order := (best_order calculate_distance).

Lemma nth_error_snoc {A : Type} (l : list A) (x y : A) (j : nat) :
  nth_error (l ++ [x]) j = Some y ->
  nth_error l j = Some y \/ (j = List.length l /\ y = x).
Proof.
  intros H. destruct (Nat.lt_ge_cases j (List.length l)) as [Hlt|Hge].
  - left. rewrite nth_error_app1 in H by exact Hlt. exact H.
  - right. rewrite nth_error_app2 in H by exact Hge.
    destruct (j - List.length l)%nat as [|k] eqn:E.
    + cbn in H. split; [lia | congruence].
    + cbn in H. destruct k; discriminate.
Qed.

Lemma nth_error_lt {A : Type} (l : list A) (x : A) (j : nat) :
  nth_error l j = Some x -> (j < List.length l)%nat.
Proof. intros H. apply nth_error_Some. congruence. Qed.

(** A truck that cannot handle the order leaves the candidate. *)
Lemma best_truck_skip (order : Order) (pre : list Truck) (t : Truck)
    (best : option candidate) :
  can_handle_order t order = false ->
  best_truck order pre best -> best_truck order (pre ++ [t]) best.
Proof.
  intros Hc. destruct best as [[[i s] d]|]; cbn.
  - intros (t0 & Hn & Hc0 & Hs & Hmin). exists t0.
    split; [rewrite nth_error_app1 by apply (nth_error_lt _ _ Hn); exact Hn|].
    split; [exact Hc0|]. split; [exact Hs|].
    intros j t' s' d' Hj Hc' Hs'.
    destruct (nth_error_snoc _ _ _ Hj) as [Hj'|[_ ->]]; [|congruence].
    apply (Hmin j t' s' d' Hj' Hc' Hs').
  - intros Hall t' Hin. apply in_app_or in Hin.
    destruct Hin as [Hin|[<-|[]]]; [apply Hall, Hin | exact Hc].
Qed.

(** A truck that can handle the order replaces the candidate when its
    score is less. *)
Lemma best_truck_take (order : Order) (pre : list Truck) (t : Truck)
    (s : Q) (d : ScoreDetails) (best : option candidate) :
  can_handle_order t order = true -> score_of t order = Ok (s, d) ->
  best_truck order pre best ->
  best_truck order (pre ++ [t])
    (if improves s best then Some (List.length pre, s, d) else best).
Proof.
  intros Hc Hs. destruct best as [[[i s0] d0]|]; cbn [improves].
  - intros (t0 & Hn & Hc0 & Hs0 & Hmin).
    pose proof (nth_error_lt _ _ Hn) as Hi.
    destruct (Qltb s s0) eqn:E.
    + apply Qltb_lt in E. cbn. exists t.
      split; [rewrite nth_error_app2, Nat.sub_diag by lia; reflexivity|].
      split; [exact Hc|]. split; [exact Hs|].
      intros j t' s' d' Hj Hc' Hs'.
      destruct (nth_error_snoc _ _ _ Hj) as [Hj'|[-> ->]].
      * destruct (Hmin j t' s' d' Hj' Hc' Hs') as [Hle _].
        split; [|intros _]; Lqa.lra.
      * assert (s' = s) by congruence. subst s'.
        split; [apply Qle_refl | lia].
    + apply Qltb_ge in E. cbn. exists t0.
      split; [rewrite nth_error_app1 by exact Hi; exact Hn|].
      split; [exact Hc0|]. split; [exact Hs0|].
      intros j t' s' d' Hj Hc' Hs'.
      destruct (nth_error_snoc _ _ _ Hj) as [Hj'|[-> ->]].
      * apply (Hmin j t' s' d' Hj' Hc' Hs').
      * assert (s' = s) by congruence. subst s'.
        split; [exact E | lia].
  - intros Hall. cbn. exists t.
    split; [rewrite nth_error_app2, Nat.sub_diag by lia; reflexivity|].
    split; [exact Hc|]. split; [exact Hs|].
    intros j t' s' d' Hj Hc' Hs'.
    destruct (nth_error_snoc _ _ _ Hj) as [Hj'|[-> ->]].
    + rewrite (Hall t' (nth_error_In _ _ Hj')) in Hc'. discriminate.
    + assert (s' = s) by congruence. subst s'.
      split; [apply Qle_refl | lia].
Qed.

Lemma scan_trucks_best (order : Order) (ts pre : list Truck)
    (best : option candidate) :
  ~ deadline_hours order == 0 ->
  Forall (fun t => ~ capacity t == 0) ts ->
  best_truck order pre best ->
  exists best',
    scan_trucks order (List.length pre) ts best = Ok best' /\
    best_truck order (pre ++ ts) best'.
Proof.
  intros Hd Hts. revert pre best.
  induction Hts as [|t ts Ht _ IH]; intros pre best Hb; cbn [Archive.scan_trucks].
  - exists best. rewrite app_nil_r. auto.
  - replace (pre ++ t :: ts) with ((pre ++ [t]) ++ ts)
      by (rewrite <- app_assoc; reflexivity).
    replace (S (List.length pre)) with (List.length (pre ++ [t]))
      by (rewrite length_app; cbn; lia).
    destruct (can_handle_order t order) eqn:Ec.
    + destruct (calculate_assignment_score_ok calculate_distance t order Ht Hd)
        as (s & d & Hs & _).
      rewrite Hs. cbn [bind].
      apply IH, best_truck_take; assumption.
    + apply IH, best_truck_skip; assumption.
Qed.


Lemma best_order_skip (truck : Truck) (os : list Order) (pre : list nat) (r : nat)
    (best : option candidate) :
  (forall o, nth_error os r = Some o -> can_handle_order truck o = false) ->
  best_order truck os pre best -> best_order truck os (pre ++ [r]) best.
Proof.
  intros Hc. destruct best as [[[i s] d]|]; cbn.
  - intros (p & o & Hp & Hn & Hc0 & Hs & Hmin). exists p, o.
    split; [rewrite nth_error_app1 by apply (nth_error_lt _ _ Hp); exact Hp|].
    split; [exact Hn|]. split; [exact Hc0|]. split; [exact Hs|].
    intros q r' o' s' d' Hq Hn' Hc' Hs'.
    destruct (nth_error_snoc _ _ _ Hq) as [Hq'|[_ ->]].
    + apply (Hmin q r' o' s' d' Hq' Hn' Hc' Hs').
    + rewrite (Hc o' Hn') in Hc'. discriminate.
  - intros Hall r' o' Hin Hn'. apply in_app_or in Hin.
    destruct Hin as [Hin|[<-|[]]]; [apply (Hall r' o' Hin Hn') | apply Hc, Hn'].
Qed.

Lemma best_order_take (truck : Truck) (os : list Order) (pre : list nat) (r : nat)
    (o : Order) (s : Q) (d : ScoreDetails) (best : option candidate) :
  nth_error os r = Some o ->
  can_handle_order truck o = true -> score_of truck o = Ok (s, d) ->
  best_order truck os pre best ->
  best_order truck os (pre ++ [r]) (if improves s best then Some (r, s, d) else best).
Proof.
  intros Hn Hc Hs. destruct best as [[[i s0] d0]|]; cbn [improves].
  - intros (p & o0 & Hp & Hn0 & Hc0 & Hs0 & Hmin).
    pose proof (nth_error_lt _ _ Hp) as Hi.
    destruct (Qltb s s0) eqn:E.
    + apply Qltb_lt in E. cbn. exists (List.length pre), o.
      split; [rewrite nth_error_app2, Nat.sub_diag by lia; reflexivity|].
      split; [exact Hn|]. split; [exact Hc|]. split; [exact Hs|].
      intros q r' o' s' d' Hq Hn' Hc' Hs'.
      destruct (nth_error_snoc _ _ _ Hq) as [Hq'|[-> ->]].
      * destruct (Hmin q r' o' s' d' Hq' Hn' Hc' Hs') as [Hle _].
        split; [|intros _]; Lqa.lra.
      * assert (o' = o) by congruence. subst o'.
        assert (s' = s) by congruence. subst s'.
        split; [apply Qle_refl | lia].
    + apply Qltb_ge in E. cbn. exists p, o0.
      split; [rewrite nth_error_app1 by exact Hi; exact Hp|].
      split; [exact Hn0|]. split; [exact Hc0|]. split; [exact Hs0|].
      intros q r' o' s' d' Hq Hn' Hc' Hs'.
      destruct (nth_error_snoc _ _ _ Hq) as [Hq'|[-> ->]].
      * apply (Hmin q r' o' s' d' Hq' Hn' Hc' Hs').
      * assert (o' = o) by congruence. subst o'.
        assert (s' = s) by congruence. subst s'.
        split; [exact E | lia].
  - intros Hall. cbn. exists (List.length pre), o.
    split; [rewrite nth_error_app2, Nat.sub_diag by lia; reflexivity|].
    split; [exact Hn|]. split; [exact Hc|]. split; [exact Hs|].
    intros q r' o' s' d' Hq Hn' Hc' Hs'.
    destruct (nth_error_snoc _ _ _ Hq) as [Hq'|[-> ->]].
    + rewrite (Hall r' o' (nth_error_In _ _ Hq') Hn') in Hc'. discriminate.
    + assert (o' = o) by congruence. subst o'.
      assert (s' = s) by congruence. subst s'.
      split; [apply Qle_refl | lia].
Qed.

Lemma scan_orders_best (truck : Truck) (os : list Order) (refs pre : list nat)
    (best : option candidate) :
  ~ capacity truck == 0 ->
  Forall (fun o => ~ deadline_hours o == 0) os ->
  best_order truck os pre best ->
  exists best',
    scan_orders truck os refs best = Ok best' /\
    best_order truck os (pre ++ refs) best'.
Proof.
  intros Ht Hos. revert pre best.
  induction refs as [|r refs IH]; intros pre best Hb; cbn [Archive.scan_orders].
  - exists best. rewrite app_nil_r. auto.
  - replace (pre ++ r :: refs) with ((pre ++ [r]) ++ refs)
      by (rewrite <- app_assoc; reflexivity).
    destruct (nth_error os r) as [o|] eqn:En.
    + destruct (can_handle_order truck o) eqn:Ec.
      * assert (Hd : ~ deadline_hours o == 0).
        { rewrite Forall_forall in Hos. apply Hos, (nth_error_In _ _ En). }
        destruct (calculate_assignment_score_ok calculate_distance truck o Ht Hd)
          as (s & d & Hs & _).
        rewrite Hs. cbn [bind].
        apply IH. apply (@best_order_take truck os pre r o s d best En Ec Hs Hb).
      * apply IH, best_order_skip; [|exact Hb].
        intros o' Ho'. congruence.
    + apply IH, best_order_skip; [|exact Hb].
      intros o' Ho'. congruence.
Qed.

(** X11. The scan of [PriorityFirstStrategy] over the trucks never raises
    when no capacity and no deadline is zero, and it selects the first
    truck with the least score among those that can handle the order,
    or none when no truck can. *)
Theorem best_truck_selected (order : Order) (ts : list Truck) :
  ~ deadline_hours order == 0 ->
  Forall (fun t => ~ capacity t == 0) ts ->
  exists best,
    scan_trucks order 0 ts None = Ok best /\ best_truck order ts best.
Proof.
  intros Hd Hts.
  apply (@scan_trucks_best order ts [] None Hd Hts).
  intros t [].
Qed.

(** X12. The scan of [GreedyNearestStrategy] over the available orders,
    likewise: the first of the available orders with the least score
    among those the truck can handle, or none. *)
Theorem best_order_selected (truck : Truck) (os : list Order) (refs : list nat) :
  ~ capacity truck == 0 ->
  Forall (fun o => ~ deadline_hours o == 0) os ->
  exists best,
    scan_orders truck os refs None = Ok best /\ best_order truck os refs best.
Proof.
  intros Ht Hos.
  apply (@scan_orders_best truck os refs [] None Ht Hos).
  intros r o [].
Qed.

End Selection.

(** ** The greedy strategies: the books of a run *)

Lemma remove_ref_perm (r : nat) (l : list nat) :
  In r l -> Permutation l (r :: remove_ref r l).
Proof.
  induction l as [|y l IH]; simpl; [tauto|].
  destruct (Nat.eqb y r) eqn:E.
  - apply Nat.eqb_eq in E. subst y. reflexivity.
  - apply Nat.eqb_neq in E. intros [H|H]; [congruence|].
    rewrite perm_swap. constructor. apply IH, H.
Qed.

Lemma orders_at_perm (os : list Order) (refs refs' : list nat) :
  Permutation refs refs' -> Permutation (orders_at os refs) (orders_at os refs').
Proof. intros H. unfold orders_at. apply Permutation_flat_map, H. Qed.

Lemma orders_at_update (os : list Order) (f : Order -> Order) (oi : nat)
    (refs : list nat) :
  ~ In oi refs -> orders_at (list_update oi f os) refs = orders_at os refs.
Proof.
  induction refs as [|r refs IH]; intros Hnin; [reflexivity|].
  unfold orders_at. cbn [flat_map]. fold (orders_at (list_update oi f os) refs).
  fold (orders_at os refs).
  rewrite IH by (intros H; apply Hnin; right; exact H).
  rewrite nth_error_list_update.
  destruct (Nat.eqb oi r) eqn:E; [|reflexivity].
  apply Nat.eqb_eq in E. exfalso. apply Hnin. left. congruence.
Qed.

Lemma unassigned_refs_spec (os : list Order) (i r : nat) :
  In r (unassigned_refs i os) <->
  (i <= r)%nat /\ exists o, nth_error os (r - i) = Some o /\ is_assigned o = false.
Proof.
  revert i. induction os as [|x os IH]; intros i; cbn [unassigned_refs].
  - split; [intros [] | intros (_ & o & H & _)]. destruct (r - i)%nat; discriminate.
  - assert (Hrest : In r (unassigned_refs (S i) os) <->
                    (i < r)%nat /\
                    exists o, nth_error (x :: os) (r - i) = Some o /\
                              is_assigned o = false).
    { rewrite IH. split.
      - intros (Hle & o & Hn & Ha). split; [lia|]. exists o. split; [|exact Ha].
        replace (r - i)%nat with (S (r - S i)) by lia. exact Hn.
      - intros (Hlt & o & Hn & Ha). split; [lia|]. exists o. split; [|exact Ha].
        replace (r - i)%nat with (S (r - S i)) in Hn by lia. exact Hn. }
    destruct (is_assigned x) eqn:Ex.
    + rewrite Hrest. split.
      * intros (Hlt & H). split; [lia | exact H].
      * intros (Hle & o & Hn & Ha). split; [|exists o; auto].
        destruct (Nat.eq_dec r i) as [->|Hne]; [|lia].
        rewrite Nat.sub_diag in Hn. cbn in Hn. congruence.
    + cbn [In]. rewrite Hrest. split.
      * intros [<-|(Hlt & H)].
        -- split; [lia|]. exists x. rewrite Nat.sub_diag. auto.
        -- split; [lia | exact H].
      * intros (Hle & o & Hn & Ha).
        destruct (Nat.eq_dec r i) as [->|Hne]; [left; reflexivity|].
        right. split; [lia|]. exists o. auto.
Qed.

Lemma unassigned_refs_NoDup (os : list Order) (i : nat) :
  NoDup (unassigned_refs i os).
Proof.
  revert i. induction os as [|x os IH]; intros i; cbn [unassigned_refs].
  - constructor.
  - destruct (is_assigned x); [apply IH|].
    constructor; [|apply IH].
    intros H. apply unassigned_refs_spec in H. lia.
Qed.

Lemma orders_at_unassigned (pre os : list Order) :
  orders_at (pre ++ os) (unassigned_refs (List.length pre) os)
  = filter (fun o => negb (is_assigned o)) os.
Proof.
  revert pre. induction os as [|x os IH]; intros pre; [reflexivity|].
  cbn [unassigned_refs filter].
  assert (Hnext : orders_at (pre ++ x :: os) (unassigned_refs (S (List.length pre)) os)
                  = filter (fun o => negb (is_assigned o)) os).
  { replace (pre ++ x :: os) with ((pre ++ [x]) ++ os)
      by (rewrite <- app_assoc; reflexivity).
    replace (S (List.length pre)) with (List.length (pre ++ [x]))
      by (rewrite length_app; cbn; lia).
    apply IH. }
  destruct (is_assigned x); cbn [negb]; [exact Hnext|].
  unfold orders_at. cbn [flat_map].
  fold (orders_at (pre ++ x :: os) (unassigned_refs (S (List.length pre)) os)).
  rewrite Hnext, nth_error_app2, Nat.sub_diag by lia. reflexivity.
Qed.

Lemma In_list_update {A : Type} (f : A -> A) (l : list A) (i : nat) (x : A) :
  In x (list_update i f l) ->
  In x l \/ exists y, nth_error l i = Some y /\ x = f y.
Proof.
  intros H. apply In_nth_error in H. destruct H as [j Hj].
  rewrite nth_error_list_update in Hj.
  destruct (Nat.eqb i j) eqn:E.
  - apply Nat.eqb_eq in E. subst j.
    destruct (nth_error l i) as [y|]; [|discriminate].
    right. exists y. cbn in Hj. split; congruence.
  - left. apply (nth_error_In _ _ Hj).
Qed.

Lemma can_handle_add_load (t : Truck) (o : Order) (v : Q) :
  0 <= v -> can_handle_order t o = false ->
  can_handle_order (add_load v t) o = false.
Proof.
  unfold can_handle_order, available_capacity, add_load. cbn.
  intros Hv H. apply Qle_bool_gt in H. apply Qle_bool_gt. Lqa.lra.
Qed.

Section Books.
Variable calculate_distance : point -> point -> Q.
Variable trucks0 : list Truck.
Variable orders0 : list Order.
Hypothesis Htrucks : Forall valid_truck trucks0.
Hypothesis Horders : Forall valid_order orders0.

Local Abbreviation invariant := (invariant trucks0 orders0).
Local Abbreviation bookkeeping := (bookkeeping orders0).
Local Abbreviation priority_step := (priority_step calculate_distance).
Local Abbreviation greedy_step := (greedy_step calculate_distance).
Local Abbreviation priority_loop := (priority_loop calculate_distance).
Local Abbreviation greedy_loop := (greedy_loop calculate_distance).

Lemma initial_bookkeeping : bookkeeping (initial_state trucks0 orders0).
Proof.
  constructor; cbn [initial_state available_orders orders assignments].
  - apply unassigned_refs_NoDup.
  - intros r Hr. apply unassigned_refs_spec in Hr.
    destruct Hr as (_ & o & Hn & Ha). rewrite Nat.sub_0_r in Hn. eauto.
  - cbn [map]. rewrite app_nil_r.
    pose proof (orders_at_unassigned [] orders0) as E. cbn [app List.length] in E.
    rewrite E. reflexivity.
  - intros a [].
Qed.

Lemma commit_bookkeeping (st : State) (ti oi : nat) (t : Truck) (o : Order)
    (s : Q) (d : ScoreDetails) :
  bookkeeping st -> In oi (available_orders st) ->
  nth_error (orders st) oi = Some o ->
  bookkeeping (commit st ti t oi o s d).
Proof.
  intros Hbk Hin Ho.
  destruct (bk_avail Hbk oi Hin) as (o' & Ho' & Hun).
  assert (o' = o) by congruence. subst o'.
  assert (Hnin : ~ In oi (remove_ref oi (available_orders st))).
  { intros H. apply DispoMore.remove_ref_In in H; [|apply (bk_nodup Hbk)].
    destruct H as [_ H]. congruence. }
  constructor; cbn [commit available_orders orders assignments].
  - apply DispoMore.remove_ref_NoDup, (bk_nodup Hbk).
  - intros r Hr. apply DispoMore.remove_ref_In in Hr; [|apply (bk_nodup Hbk)].
    destruct Hr as [Hr Hne]. rewrite nth_error_list_update.
    destruct (Nat.eqb oi r) eqn:E; [apply Nat.eqb_eq in E; congruence|].
    apply (bk_avail Hbk r Hr).
  - rewrite orders_at_update by exact Hnin.
    rewrite map_app. cbn [map a_order_id].
    rewrite (bk_part Hbk).
    rewrite (Permutation_map order_id
               (orders_at_perm (orders st) (remove_ref_perm _ _ Hin))).
    unfold orders_at at 1. cbn [flat_map]. rewrite Ho. cbn [app map].
    fold (orders_at (orders st) (remove_ref oi (available_orders st))).
    rewrite app_assoc. apply Permutation_cons_append.
  - intros a Ha. apply in_app_or in Ha. destruct Ha as [Ha|[<-|[]]].
    + destruct (bk_marked Hbk a Ha) as (o1 & Hin1 & E1 & E2).
      exists o1. split; [|auto].
      apply In_nth_error in Hin1. destruct Hin1 as [r1 Hr1].
      apply (nth_error_In _ r1). rewrite nth_error_list_update.
      destruct (Nat.eqb oi r1) eqn:E; [|exact Hr1].
      apply Nat.eqb_eq in E. subst r1. assert (o1 = o) by congruence. subst o1.
      unfold is_assigned in Hun. rewrite E2 in Hun. discriminate.
    + exists (set_assigned_truck (truck_id t) o). cbn. split; [|auto].
      apply (nth_error_In _ oi).
      rewrite nth_error_list_update, Nat.eqb_refl, Ho. reflexivity.
Qed.

Lemma nonzero_capacities (st : State) :
  invariant st -> Forall (fun t => ~ capacity t == 0) (trucks st).
Proof.
  intros Hinv. apply (Forall_impl _ (fun t H => positive_nonzero H)).
  apply (invariant_capacities Htrucks Hinv).
Qed.

Lemma nonzero_deadlines (st : State) :
  invariant st -> Forall (fun o => ~ deadline_hours o == 0) (orders st).
Proof.
  intros Hinv. apply (Forall_impl _ (fun t H => positive_nonzero H)).
  apply (invariant_deadlines Horders Hinv).
Qed.

(** A turn of the loop of [PriorityFirstStrategy]: no truck can handle
    the order, or a truck that can takes it. *)
Lemma priority_step_full (st : State) (oi : nat) (o : Order) :
  invariant st -> nth_error (orders st) oi = Some o ->
  (priority_step st oi = Ok st /\
   forall t, In t (trucks st) -> can_handle_order t o = false) \/
  (exists ti t s d,
      priority_step st oi = Ok (commit st ti t oi o s d) /\
      nth_error (trucks st) ti = Some t /\ can_handle_order t o = true /\
      calculate_assignment_score calculate_distance t o = Ok (s, d)).
Proof.
  intros Hinv Ho. unfold Archive.priority_step. rewrite Ho.
  destruct (state_order Horders oi Hinv Ho) as (_ & _ & _ & _ & _ & Hd).
  destruct (@scan_trucks_best calculate_distance o (trucks st) [] None
              (positive_nonzero Hd) (nonzero_capacities Hinv))
    as (best & Hb & Hbest); [intros t []|].
  cbn [List.length] in Hb. rewrite Hb. cbn [bind app] in *.
  destruct best as [[[ti s] d]|]; cbn in Hbest.
  - destruct Hbest as (t & Hn & Hc & Hs & _). rewrite Hn.
    right. exists ti, t, s, d. auto.
  - left. auto.
Qed.

(** A turn of the loop of [GreedyNearestStrategy], likewise. *)
Lemma greedy_step_full (st : State) (ti : nat) (t : Truck) :
  invariant st -> nth_error (trucks st) ti = Some t ->
  (greedy_step st ti = Ok st /\
   forall r o, In r (available_orders st) -> nth_error (orders st) r = Some o ->
               can_handle_order t o = false) \/
  (exists oi o s d,
      greedy_step st ti = Ok (commit st ti t oi o s d) /\
      In oi (available_orders st) /\
      nth_error (orders st) oi = Some o /\ can_handle_order t o = true /\
      calculate_assignment_score calculate_distance t o = Ok (s, d)).
Proof.
  intros Hinv Ht. unfold Archive.greedy_step. rewrite Ht.
  destruct (state_truck Htrucks ti Hinv Ht) as (_ & _ & _ & _ & Hcap & _).
  destruct (@scan_orders_best calculate_distance t (orders st)
              (available_orders st) [] None
              (positive_nonzero Hcap) (nonzero_deadlines Hinv))
    as (best & Hb & Hbest); [intros r o []|].
  rewrite Hb. cbn [bind app] in *.
  destruct best as [[[oi s] d]|]; cbn in Hbest.
  - destruct Hbest as (p & o & Hp & Hn & Hc & Hs & _). rewrite Hn.
    right. exists oi, o, s, d. split; [reflexivity|].
    split; [apply (nth_error_In _ _ Hp)|]. auto.
  - left. auto.
Qed.

Lemma priority_loop_books (refs : list nat) :
  forall (done : list nat) (st : State),
    invariant st -> bookkeeping st ->
    NoDup refs -> incl refs (available_orders st) ->
    (forall r o t, In r done -> In r (available_orders st) ->
       nth_error (orders st) r = Some o -> In t (trucks st) ->
       can_handle_order t o = false) ->
    exists st',
      priority_loop refs st = Ok st' /\ invariant st' /\ bookkeeping st' /\
      incl (available_orders st') (available_orders st) /\
      (forall r o t, In r (done ++ refs) -> In r (available_orders st') ->
         nth_error (orders st') r = Some o -> In t (trucks st') ->
         can_handle_order t o = false).
Proof.
  induction refs as [|oi refs IH]; intros done st Hinv Hbk Hnd Hincl Hmax;
    cbn [Archive.priority_loop].
  - exists st. rewrite app_nil_r.
    split; [reflexivity|]. split; [exact Hinv|]. split; [exact Hbk|].
    split; [apply incl_refl | exact Hmax].
  - inversion Hnd as [|? ? Hnin Hnd']; subst.
    assert (Hoi : In oi (available_orders st)) by (apply Hincl; left; reflexivity).
    destruct (bk_avail Hbk oi Hoi) as (o & Ho & _).
    destruct (@priority_step_full st oi o Hinv Ho)
      as [[Hstep Hnone]|(ti & t & s & d & Hstep & Ht & Hc & _)];
      rewrite Hstep; cbn [bind].
    + destruct (IH (done ++ [oi]) st Hinv Hbk Hnd') as (st' & Hl & H1 & H2 & H3 & H4).
      * intros r Hr. apply Hincl. right. exact Hr.
      * intros r o1 t1 Hr Hav Hn Hin. apply in_app_or in Hr.
        destruct Hr as [Hr|[<-|[]]]; [apply (Hmax r o1 t1 Hr Hav Hn Hin)|].
        assert (o1 = o) by congruence. subst o1. apply Hnone, Hin.
      * exists st'. rewrite <- app_assoc in H4. auto.
    + destruct (state_order Horders oi Hinv Ho) as (_ & _ & _ & _ & Hv & _).
      destruct (IH (done ++ [oi]) (commit st ti t oi o s d))
        as (st' & Hl & H1 & H2 & H3 & H4).
      * apply (commit_invariant Htrucks Horders); assumption.
      * apply commit_bookkeeping; assumption.
      * exact Hnd'.
      * intros r Hr. cbn [commit available_orders].
        apply DispoMore.remove_ref_In; [apply (bk_nodup Hbk)|].
        split; [apply Hincl; right; exact Hr|]. intros ->. contradiction.
      * cbn [commit available_orders orders trucks].
        intros r o1 t1 Hr Hav Hn Hin.
        apply DispoMore.remove_ref_In in Hav; [|apply (bk_nodup Hbk)].
        destruct Hav as [Hav Hne].
        rewrite nth_error_list_update in Hn.
        destruct (Nat.eqb oi r) eqn:E; [apply Nat.eqb_eq in E; congruence|].
        apply in_app_or in Hr. destruct Hr as [Hr|[E'|[]]]; [|congruence].
        apply In_list_update in Hin.
        destruct Hin as [Hin|(t' & Ht' & ->)].
        -- apply (Hmax r o1 t1 Hr Hav Hn Hin).
        -- apply can_handle_add_load; [Lqa.lra|].
           apply (Hmax r o1 t' Hr Hav Hn (nth_error_In _ _ Ht')).
      * exists st'. rewrite <- app_assoc in H4.
        split; [exact Hl|]. split; [exact H1|]. split; [exact H2|].
        split; [|exact H4].
        intros r Hr. apply H3 in Hr. cbn [commit available_orders] in Hr.
        apply DispoMore.remove_ref_In in Hr; [|apply (bk_nodup Hbk)]. apply Hr.
Qed.

Local Abbreviation ids_at refs :=
  (flat_map (fun r => match nth_error trucks0 r with
                      | Some t => [truck_id t]
                      | None => []
                      end) refs).

Lemma greedy_loop_books (refs : list nat) :
  forall (done : list nat) (st : State),
    invariant st -> bookkeeping st ->
    (forall i t0 t r o, In i done ->
       nth_error trucks0 i = Some t0 -> nth_error (trucks st) i = Some t ->
       current_load t == current_load t0 ->
       In r (available_orders st) -> nth_error (orders st) r = Some o ->
       can_handle_order t o = false) ->
    exists st',
      greedy_loop refs st = Ok st' /\ invariant st' /\ bookkeeping st' /\
      (NoDup (map a_truck_id (assignments st) ++ ids_at refs) ->
       NoDup (map a_truck_id (assignments st'))) /\
      (forall i t0 t r o, In i (done ++ refs) ->
         nth_error trucks0 i = Some t0 -> nth_error (trucks st') i = Some t ->
         current_load t == current_load t0 ->
         In r (available_orders st') -> nth_error (orders st') r = Some o ->
         can_handle_order t o = false).
Proof.
  induction refs as [|ti refs IH]; intros done st Hinv Hbk Hmax;
    cbn [Archive.greedy_loop].
  - exists st. rewrite !app_nil_r.
    split; [reflexivity|]. split; [exact Hinv|]. split; [exact Hbk|].
    split; [auto | exact Hmax].
  - destruct (nth_error (trucks st) ti) as [t|] eqn:Et.
    + destruct (state_truck Htrucks ti Hinv Et)
        as (t0 & Ht0 & _ & (Eid & _ & Hload0 & _) & _).
      destruct (@greedy_step_full st ti t Hinv Et)
        as [[Hstep Hnone]|(oi & o & s & d & Hstep & Hoi & Ho & Hc & _)];
        rewrite Hstep; cbn [bind].
      * destruct (IH (done ++ [ti]) st Hinv Hbk) as (st' & Hl & H1 & H2 & H3 & H4).
        { intros i t0' t1 r o1 Hi H0 Hi1 Hload Hav Hn. apply in_app_or in Hi.
          destruct Hi as [Hi|[<-|[]]];
            [apply (Hmax i t0' t1 r o1 Hi H0 Hi1 Hload Hav Hn)|].
          assert (t1 = t) by congruence. subst t1. apply (Hnone r o1 Hav Hn). }
        exists st'. rewrite <- app_assoc in H4.
        split; [exact Hl|]. split; [exact H1|]. split; [exact H2|].
        split; [|exact H4].
        intros Hd. apply H3. cbn [flat_map] in Hd. rewrite Ht0 in Hd.
        cbn [app] in Hd. apply NoDup_remove_1 in Hd. exact Hd.
      * destruct (state_order Horders oi Hinv Ho) as (_ & _ & _ & _ & Hv & _).
        destruct (IH (done ++ [ti]) (commit st ti t oi o s d))
          as (st' & Hl & H1 & H2 & H3 & H4).
        { apply (commit_invariant Htrucks Horders); assumption. }
        { apply commit_bookkeeping; assumption. }
        { cbn [commit available_orders orders trucks].
          intros i t0' t1 r o1 Hi H0 Hi1 Hload Hav Hn.
          apply DispoMore.remove_ref_In in Hav; [|apply (bk_nodup Hbk)].
          destruct Hav as [Hav Hne].
          rewrite nth_error_list_update in Hn.
          destruct (Nat.eqb oi r) eqn:E; [apply Nat.eqb_eq in E; congruence|].
          rewrite nth_error_list_update in Hi1.
          destruct (Nat.eqb ti i) eqn:E'.
          - apply Nat.eqb_eq in E'. subst i. rewrite Et in Hi1. cbn in Hi1.
            assert (t0' = t0) by congruence. subst t0'.
            injection Hi1 as <-. cbn in Hload. exfalso. Lqa.lra.
          - apply Nat.eqb_neq in E'. apply in_app_or in Hi.
            destruct Hi as [Hi|[E''|[]]]; [|congruence].
            apply (Hmax i t0' t1 r o1 Hi H0 Hi1 Hload Hav Hn). }
        exists st'. rewrite <- app_assoc in H4.
        split; [exact Hl|]. split; [exact H1|]. split; [exact H2|].
        split; [|exact H4].
        intros Hd. apply H3. cbn [commit assignments].
        rewrite map_app. cbn [map a_truck_id]. rewrite <- app_assoc. cbn [app].
        cbn [flat_map] in Hd. rewrite Ht0 in Hd. cbn [app] in Hd.
        rewrite Eid. exact Hd.
    + assert (Hstep : greedy_step st ti = Ok st)
        by (unfold Archive.greedy_step; rewrite Et; reflexivity).
      rewrite Hstep. cbn [bind].
      assert (Ht0 : nth_error trucks0 ti = None).
      { destruct (nth_error trucks0 ti) as [t0|] eqn:E; [|reflexivity].
        destruct (Forall2_nth_error_l _ (inv_trucks Hinv) E) as (t & Ht & _).
        congruence. }
      destruct (IH (done ++ [ti]) st Hinv Hbk) as (st' & Hl & H1 & H2 & H3 & H4).
      { intros i t0' t1 r o1 Hi H0 Hi1 Hload Hav Hn. apply in_app_or in Hi.
        destruct Hi as [Hi|[<-|[]]];
          [apply (Hmax i t0' t1 r o1 Hi H0 Hi1 Hload Hav Hn) | congruence]. }
      exists st'. rewrite <- app_assoc in H4.
      split; [exact Hl|]. split; [exact H1|]. split; [exact H2|].
      split; [|exact H4].
      intros Hd. apply H3. cbn [flat_map] in Hd. rewrite Ht0 in Hd. exact Hd.
Qed.

End Books.

(** ** The greedy strategies: what a run returns *)

Lemma truck_ids_seq (pre l : list Truck) :
  flat_map (fun r => match nth_error (pre ++ l) r with
                     | Some t => [truck_id t]
                     | None => []
                     end) (seq (List.length pre) (List.length l))
  = map truck_id l.
Proof.
  revert pre. induction l as [|x l IH]; intros pre; [reflexivity|].
  cbn [List.length seq flat_map map].
  rewrite nth_error_app2, Nat.sub_diag by lia. cbn [nth_error app]. f_equal.
  replace (pre ++ x :: l) with ((pre ++ [x]) ++ l)
    by (rewrite <- app_assoc; reflexivity).
  replace (S (List.length pre)) with (List.length (pre ++ [x]))
    by (rewrite length_app; cbn; lia).
  apply IH.
Qed.

Lemma available_unassigned (os : list Order) (refs : list nat) :
  (forall r, In r refs ->
     exists o, nth_error os r = Some o /\ is_assigned o = false) ->
  Forall (fun o => assigned_truck o = None) (orders_at os refs).
Proof.
  intros H. apply Forall_forall. intros o Hin. unfold orders_at in Hin.
  apply in_flat_map in Hin. destruct Hin as (r & Hr & Hin).
  destruct (H r Hr) as (o' & Hn & Ha). rewrite Hn in Hin.
  destruct Hin as [<-|[]]. unfold is_assigned in Ha.
  destruct (assigned_truck o'); [discriminate | reflexivity].
Qed.

Section Outcomes.
Variable calculate_distance : point -> point -> Q.
Variable trucks0 : list Truck.
Variable orders0 : list Order.
Hypothesis Htrucks : Forall valid_truck trucks0.
Hypothesis Horders : Forall valid_order orders0.

Local Abbreviation PriorityFirstStrategy_assign :=
  (PriorityFirstStrategy_assign calculate_distance).
Local Abbreviation GreedyNearestStrategy_assign :=
  (GreedyNearestStrategy_assign calculate_distance).

Lemma priority_first_run :
  exists st,
    PriorityFirstStrategy_assign trucks0 orders0 = Ok st /\
    invariant trucks0 orders0 st /\ bookkeeping orders0 st /\
    forall r o t, In r (available_orders st) ->
      nth_error (orders st) r = Some o -> In t (trucks st) ->
      can_handle_order t o = false.
Proof.
  unfold Archive.PriorityFirstStrategy_assign.
  set (st0 := initial_state trucks0 orders0).
  set (refs := stable_sort _ _).
  assert (Hperm : Permutation (available_orders st0) refs)
    by apply stable_sort_perm.
  pose proof (initial_bookkeeping trucks0 orders0) as Hbk0. fold st0 in Hbk0.
  destruct (@priority_loop_books calculate_distance trucks0 orders0 Htrucks Horders
              refs [] st0)
    as (st & Hl & Hinv & Hbk & Hincl & Hmax).
  - apply (initial_invariant orders0 Htrucks).
  - exact Hbk0.
  - apply (Permutation_NoDup Hperm), (bk_nodup Hbk0).
  - intros r Hr. apply (Permutation_in _ (Permutation_sym Hperm) Hr).
  - intros r o t [].
  - exists st. split; [exact Hl|]. split; [exact Hinv|]. split; [exact Hbk|].
    intros r o t Hr Hn Ht.
    apply (Hmax r o t); [|exact Hr|exact Hn|exact Ht]. cbn [app].
    apply (Permutation_in _ Hperm), Hincl, Hr.
Qed.

Lemma greedy_nearest_run :
  exists st,
    GreedyNearestStrategy_assign trucks0 orders0 = Ok st /\
    invariant trucks0 orders0 st /\ bookkeeping orders0 st /\
    (NoDup (map truck_id trucks0) -> NoDup (map a_truck_id (assignments st))) /\
    forall i t0 t r o,
      nth_error trucks0 i = Some t0 -> nth_error (trucks st) i = Some t ->
      current_load t == current_load t0 ->
      In r (available_orders st) -> nth_error (orders st) r = Some o ->
      can_handle_order t o = false.
Proof.
  unfold Archive.GreedyNearestStrategy_assign.
  set (refs := stable_sort _ _).
  assert (Hperm : Permutation (seq 0 (List.length trucks0)) refs)
    by apply stable_sort_perm.
  destruct (@greedy_loop_books calculate_distance trucks0 orders0 Htrucks Horders
              refs [] (initial_state trucks0 orders0))
    as (st & Hl & Hinv & Hbk & Hnd & Hmax).
  - apply (initial_invariant orders0 Htrucks).
  - apply initial_bookkeeping.
  - intros i t0 t r o [].
  - exists st. split; [exact Hl|]. split; [exact Hinv|]. split; [exact Hbk|]. split.
    + intros Hids. apply Hnd. cbn [initial_state assignments map app].
      apply (Permutation_NoDup (Permutation_flat_map _ Hperm)).
      pose proof (truck_ids_seq [] trucks0) as E. cbn [app List.length] in E.
      rewrite E. exact Hids.
    + intros i t0 t r o H0 Ht Hload Hr Hn.
      apply (Hmax i t0 t r o); try assumption. cbn [app].
      apply (Permutation_in _ Hperm), in_seq.
      pose proof (nth_error_lt _ _ H0). lia.
Qed.

(** X13. [PriorityFirstStrategy.assign] on trucks and orders that passed
    their constructors returns, and keeps its books: the orders that
    had no truck at the start are, by their identifiers, those returned
    as unassigned together with those the assignments name; the
    returned unassigned orders still have no truck; the order of every
    assignment carries the assignment's truck. *)
Theorem priority_first_books :
  exists st,
    PriorityFirstStrategy_assign trucks0 orders0 = Ok st /\
    Permutation
      (map order_id (filter (fun o => negb (is_assigned o)) orders0))
      (map order_id (orders_at (orders st) (available_orders st))
       ++ map a_order_id (assignments st)) /\
    Forall (fun o => assigned_truck o = None)
      (orders_at (orders st) (available_orders st)) /\
    forall a, In a (assignments st) ->
      exists o, In o (orders st) /\ order_id o = a_order_id a /\
                assigned_truck o = Some (a_truck_id a).
Proof.
  destruct priority_first_run as (st & Hl & _ & Hbk & _).
  exists st. split; [exact Hl|].
  split; [apply (bk_part Hbk)|].
  split; [apply available_unassigned, (bk_avail Hbk) | apply (bk_marked Hbk)].
Qed.

(** X14. [GreedyNearestStrategy.assign] keeps the same books. *)
Theorem greedy_nearest_books :
  exists st,
    GreedyNearestStrategy_assign trucks0 orders0 = Ok st /\
    Permutation
      (map order_id (filter (fun o => negb (is_assigned o)) orders0))
      (map order_id (orders_at (orders st) (available_orders st))
       ++ map a_order_id (assignments st)) /\
    Forall (fun o => assigned_truck o = None)
      (orders_at (orders st) (available_orders st)) /\
    forall a, In a (assignments st) ->
      exists o, In o (orders st) /\ order_id o = a_order_id a /\
                assigned_truck o = Some (a_truck_id a).
Proof.
  destruct greedy_nearest_run as (st & Hl & _ & Hbk & _).
  exists st. split; [exact Hl|].
  split; [apply (bk_part Hbk)|].
  split; [apply available_unassigned, (bk_avail Hbk) | apply (bk_marked Hbk)].
Qed.



(** X17. With unique truck identifiers [GreedyNearestStrategy.assign] gives
    every truck at most one order: no truck identifier occurs in two
    assignments, and there are at most as many assignments as trucks. *)
Theorem greedy_one_order_per_truck :
  NoDup (map truck_id trucks0) ->
  exists st,
    GreedyNearestStrategy_assign trucks0 orders0 = Ok st /\
    NoDup (map a_truck_id (assignments st)) /\
    (List.length (assignments st) <= List.length trucks0)%nat.
Proof.
  intros Hids.
  destruct greedy_nearest_run as (st & Hl & Hinv & _ & Hnd & _).
  exists st. split; [exact Hl|]. split; [exact (Hnd Hids)|].
  rewrite <- (length_map a_truck_id), <- (length_map truck_id trucks0).
  apply NoDup_incl_length; [exact (Hnd Hids)|].
  intros id Hin. apply in_map_iff in Hin. destruct Hin as (a & <- & Ha).
  pose proof (inv_assignments Hinv) as Hall. rewrite Forall_forall in Hall.
  destruct (Hall a Ha) as (t & _ & Ht & _ & E & _).
  rewrite E. apply in_map, Ht.
Qed.

End Outcomes.

Lemma best_truck_selected_witness :
  exists best,
    scan_trucks Scenario.depot_distance_archive Scenario.AUF1 0 [Scenario.LKW1] None
    = Ok best /\
    best_truck Scenario.depot_distance_archive Scenario.AUF1 [Scenario.LKW1] best.
Proof.
  apply (@best_truck_selected Scenario.depot_distance_archive Scenario.AUF1
           [Scenario.LKW1]).
  - intros H. vm_compute in H. discriminate.
  - repeat constructor. intros H. vm_compute in H. discriminate.
Defined.

Lemma best_order_selected_witness :
  exists best,
    scan_orders Scenario.depot_distance_archive Scenario.LKW1
      [Scenario.AUF1; Scenario.AUF2; Scenario.AUF3] [0; 1; 2]%nat None = Ok best /\
    best_order Scenario.depot_distance_archive Scenario.LKW1
      [Scenario.AUF1; Scenario.AUF2; Scenario.AUF3] [0; 1; 2]%nat best.
Proof.
  apply (@best_order_selected Scenario.depot_distance_archive Scenario.LKW1
           [Scenario.AUF1; Scenario.AUF2; Scenario.AUF3] [0; 1; 2]%nat).
  - intros H. vm_compute in H. discriminate.
  - repeat constructor; intros H; vm_compute in H; discriminate.
Defined.

Lemma priority_first_books_witness :
  exists st,
    PriorityFirstStrategy_assign Scenario.depot_distance_archive
      [Scenario.LKW1] [Scenario.AUF1; Scenario.AUF2; Scenario.AUF3] = Ok st /\
    Permutation
      (map order_id (filter (fun o => negb (is_assigned o))
                       [Scenario.AUF1; Scenario.AUF2; Scenario.AUF3]))
      (map order_id (orders_at (orders st) (available_orders st))
       ++ map a_order_id (assignments st)) /\
    Forall (fun o => assigned_truck o = None)
      (orders_at (orders st) (available_orders st)) /\
    forall a, In a (assignments st) ->
      exists o, In o (orders st) /\ order_id o = a_order_id a /\
                assigned_truck o = Some (a_truck_id a).
Proof.
  apply (@priority_first_books Scenario.depot_distance_archive
           [Scenario.LKW1] [Scenario.AUF1; Scenario.AUF2; Scenario.AUF3]);
    repeat constructor.
Defined.

Lemma greedy_nearest_books_witness :
  exists st,
    GreedyNearestStrategy_assign Scenario.depot_distance_archive
      [Scenario.LKW1] [Scenario.AUF1; Scenario.AUF2; Scenario.AUF3] = Ok st /\
    Permutation
      (map order_id (filter (fun o => negb (is_assigned o))
                       [Scenario.AUF1; Scenario.AUF2; Scenario.AUF3]))
      (map order_id (orders_at (orders st) (available_orders st))
       ++ map a_order_id (assignments st)) /\
    Forall (fun o => assigned_truck o = None)
      (orders_at (orders st) (available_orders st)) /\
    forall a, In a (assignments st) ->
      exists o, In o (orders st) /\ order_id o = a_order_id a /\
                assigned_truck o = Some (a_truck_id a).
Proof.
  apply (@greedy_nearest_books Scenario.depot_distance_archive
           [Scenario.LKW1] [Scenario.AUF1; Scenario.AUF2; Scenario.AUF3]);
    repeat constructor.
Defined.



Lemma greedy_one_order_per_truck_witness :
  exists st,
    GreedyNearestStrategy_assign Scenario.depot_distance_archive
      [Scenario.LKW1] [Scenario.AUF1; Scenario.AUF2; Scenario.AUF3] = Ok st /\
    NoDup (map a_truck_id (assignments st)) /\
    (List.length (assignments st) <= List.length [Scenario.LKW1])%nat.
Proof.
  apply (@greedy_one_order_per_truck Scenario.depot_distance_archive
           [Scenario.LKW1] [Scenario.AUF1; Scenario.AUF2; Scenario.AUF3]).
  - repeat constructor.
  - repeat constructor.
  - repeat constructor. simpl. tauto.
Defined.

(** ** The analysis of a run *)

Lemma len_cons {A : Type} (x : A) (l : list A) : len (x :: l) == 1 + len l.
Proof.
  unfold len. cbn [List.length]. rewrite Nat2Z.inj_succ, <- Z.add_1_l.
  rewrite inject_Z_plus. reflexivity.
Qed.

Lemma len_nonneg {A : Type} (l : list A) : 0 <= len l.
Proof.
  unfold len. change 0 with (inject_Z 0). rewrite <- Zle_Qle. lia.
Qed.

Lemma len_map {A B : Type} (f : A -> B) (l : list A) : len (map f l) = len l.
Proof. unfold len. rewrite length_map. reflexivity. Qed.

Lemma fold_min_le (l : list Q) (x : Q) :
  fold_left Qmin l x <= x /\ Forall (fun y => fold_left Qmin l x <= y) l.
Proof.
  revert x. induction l as [|y l IH]; intros x; cbn [fold_left].
  - split; [apply Qle_refl | constructor].
  - destruct (IH (Qmin x y)) as [H1 H2].
    split; [apply (Qle_trans _ _ _ H1), Q.le_min_l|].
    constructor; [apply (Qle_trans _ _ _ H1), Q.le_min_r | exact H2].
Qed.

Lemma fold_max_ge (l : list Q) (x : Q) :
  x <= fold_left Qmax l x /\ Forall (fun y => y <= fold_left Qmax l x) l.
Proof.
  revert x. induction l as [|y l IH]; intros x; cbn [fold_left].
  - split; [apply Qle_refl | constructor].
  - destruct (IH (Qmax x y)) as [H1 H2].
    split; [apply (Qle_trans _ (Qmax x y)); [apply Q.le_max_l | exact H1]|].
    constructor; [apply (Qle_trans _ (Qmax x y)); [apply Q.le_max_r | exact H1]
                 | exact H2].
Qed.

Lemma Qsum_bounds (l : list Q) (m M : Q) :
  Forall (fun y => m <= y /\ y <= M) l ->
  len l * m <= Qsum l /\ Qsum l <= len l * M.
Proof.
  induction 1 as [|y l [Hm HM] _ [IH1 IH2]].
  - change (len (@nil Q)) with 0. unfold Qsum. cbn [fold_left]. split; Lqa.lra.
  - rewrite Qsum_cons, len_cons. split; Lqa.nra.
Qed.

Lemma average_bounds (x : Q) (l : list Q) (m M : Q) :
  Forall (fun y => m <= y /\ y <= M) (x :: l) ->
  m <= Qsum (x :: l) / len (x :: l) /\ Qsum (x :: l) / len (x :: l) <= M.
Proof.
  intros H. destruct (Qsum_bounds H) as [H1 H2].
  assert (Hpos : 0 < len (x :: l)).
  { rewrite len_cons. pose proof (len_nonneg l). Lqa.lra. }
  split.
  - apply Qle_shift_div_l; [exact Hpos|]. rewrite Qmult_comm. exact H1.
  - apply Qle_shift_div_r; [exact Hpos|]. rewrite Qmult_comm. exact H2.
Qed.

Lemma next_volume_cases (os : list Order) (id : string) :
  (In id (map order_id os) /\ next_volume os id = Ok (volume_of os id)) \/
  (~ In id (map order_id os) /\ next_volume os id = Raise RuntimeError).
Proof.
  induction os as [|o os IH]; cbn [next_volume volume_of map In].
  - right. split; [tauto | reflexivity].
  - destruct (String.eqb (order_id o) id) eqn:E.
    + apply String.eqb_eq in E. left. auto.
    + apply String.eqb_neq in E. destruct IH as [[H1 H2]|[H1 H2]].
      * left. auto.
      * right. split; [|exact H2]. intros [H|H]; auto.
Qed.

Lemma assigned_volumes_cases (os : list Order) (asg : list Assignment) :
  (Forall (fun a => In (a_order_id a) (map order_id os)) asg /\
   assigned_volumes os asg
   = Ok (map (fun a => volume_of os (a_order_id a)) asg)) \/
  (Exists (fun a => ~ In (a_order_id a) (map order_id os)) asg /\
   assigned_volumes os asg = Raise RuntimeError).
Proof.
  induction asg as [|a asg IH]; cbn [assigned_volumes map].
  - left. split; [constructor | reflexivity].
  - destruct (next_volume_cases os (a_order_id a)) as [[H1 H2]|[H1 H2]];
      rewrite H2; cbn [bind].
    + destruct IH as [[H3 H4]|[H3 H4]]; rewrite H4; cbn [bind].
      * left. split; [constructor; assumption | reflexivity].
      * right. split; [apply Exists_cons_tl, H3 | reflexivity].
    + right. split; [apply Exists_cons_hd, H1 | reflexivity].
Qed.

Section Analysis.
Variable assignments : list Assignment.
Variable trucks : list Truck.
Variable orders : list Order.
Variable unassigned : list nat.

Local Abbreviation distances := (map distance_km assignments).
Local Abbreviation costs := (map total_cost assignments).

(** Up to the volumes the analysis raises nothing; then it raises what
    the volumes raise, or it returns. *)
Lemma analyze_assignments_cases :
  match assigned_volumes orders assignments with
  | Ok volumes =>
      exists analysis,
        analyze_assignments assignments trucks orders unassigned = Ok analysis /\
        total_assignments analysis = List.length assignments /\
        total_orders analysis = List.length orders /\
        unassigned_orders analysis = List.length unassigned /\
        total_distance_km analysis == Qsum distances /\
        avg_distance_km analysis * len assignments == Qsum distances /\
        Forall (fun d => min_distance_km analysis <= d /\
                         d <= max_distance_km analysis) distances /\
        (min_distance_km analysis <= avg_distance_km analysis /\
         avg_distance_km analysis <= max_distance_km analysis) /\
        total_cost_euro analysis == Qsum costs /\
        avg_cost_euro analysis * len assignments == Qsum costs /\
        assigned_volume_tons analysis = Qsum volumes /\
        total_volume_tons analysis = Qsum (map volume orders) /\
        avg_truck_utilization analysis
        = match map utilization_percent trucks with
          | [] => 0
          | _ :: _ => Qsum (map utilization_percent trucks)
                      / len (map utilization_percent trucks)
          end
  | Raise e =>
      analyze_assignments assignments trucks orders unassigned = Raise e
  end.
Proof.
  unfold analyze_assignments.
  assert (Hrate : exists r,
             match orders with
             | [] => Ok 0
             | _ :: _ => bind (py_div (len assignments) (len orders))
                              (fun q => Ok (q * 100))
             end = Ok r).
  { destruct orders as [|o os].
    - exists 0. reflexivity.
    - rewrite (py_div_ok _ (@len_nonzero _ o os)). cbn [bind]. eexists. reflexivity. }
  destruct Hrate as (r & ->). cbn [bind].
  assert (Hutil : exists u,
             match map utilization_percent trucks with
             | [] => Ok 0
             | _ :: _ => py_div (Qsum (map utilization_percent trucks))
                                (len (map utilization_percent trucks))
             end = Ok u /\
             u = match map utilization_percent trucks with
                 | [] => 0
                 | _ :: _ => Qsum (map utilization_percent trucks)
                             / len (map utilization_percent trucks)
                 end).
  { destruct (map utilization_percent trucks) as [|x xs].
    - eexists. split; reflexivity.
    - rewrite (py_div_ok _ (@len_nonzero _ x xs)). eexists. split; reflexivity. }
  destruct Hutil as (u & Hu & Hu').
  destruct (priority_stats_ok orders [URGENT; HIGH; NORMAL; LOW]) as (ss & Hss).
  destruct assignments as [|a rest] eqn:Easg.
  - cbn [bind assigned_volumes map].
    set (total_volume := Qsum (map volume orders)).
    assert (Hvol : exists v,
               (if Qeq_bool total_volume 0 then Ok 0
                else bind (py_div (Qsum []) total_volume) (fun q => Ok (q * 100)))
               = Ok v).
    { destruct (Qeq_bool total_volume 0) eqn:E.
      - exists 0. reflexivity.
      - assert (Hnz : ~ total_volume == 0).
        { intros H. apply Qeq_bool_iff in H. congruence. }
        rewrite (py_div_ok _ Hnz). cbn [bind]. eexists. reflexivity. }
    destruct Hvol as (v & ->). cbn [bind]. rewrite Hu. cbn [bind].
    rewrite Hss. cbn [bind]. eexists. split; [reflexivity|].
    cbn [total_assignments total_orders unassigned_orders total_distance_km
         avg_distance_km min_distance_km max_distance_km total_cost_euro
         avg_cost_euro assigned_volume_tons total_volume_tons
         avg_truck_utilization List.length].
    split; [reflexivity|]. split; [reflexivity|]. split; [reflexivity|].
    split; [reflexivity|]. split; [unfold Qsum, len; cbn; reflexivity|].
    split; [constructor|]. split; [split; apply Qle_refl|].
    split; [reflexivity|]. split; [unfold Qsum, len; cbn; reflexivity|].
    split; [reflexivity|]. split; [reflexivity | exact Hu'].
  - cbn [map].
    rewrite (py_div_ok _ (@len_nonzero _ (distance_km a) (map distance_km rest))).
    rewrite (py_div_ok _ (@len_nonzero _ (total_cost a) (map total_cost rest))).
    cbn [bind py_min py_max].
    destruct (assigned_volumes orders (a :: rest)) as [volumes|e]; cbn [bind];
      [|reflexivity].
    set (total_volume := Qsum (map volume orders)).
    assert (Hvol : exists v,
               (if Qeq_bool total_volume 0 then Ok 0
                else bind (py_div (Qsum volumes) total_volume)
                          (fun q => Ok (q * 100)))
               = Ok v).
    { destruct (Qeq_bool total_volume 0) eqn:E.
      - exists 0. reflexivity.
      - assert (Hnz : ~ total_volume == 0).
        { intros H. apply Qeq_bool_iff in H. congruence. }
        rewrite (py_div_ok _ Hnz). cbn [bind]. eexists. reflexivity. }
    destruct Hvol as (v & ->). cbn [bind]. rewrite Hu. cbn [bind].
    rewrite Hss. cbn [bind]. eexists. split; [reflexivity|].
    cbn [total_assignments total_orders unassigned_orders total_distance_km
         avg_distance_km min_distance_km max_distance_km total_cost_euro
         avg_cost_euro assigned_volume_tons total_volume_tons
         avg_truck_utilization].
    set (ds := distance_km a :: map distance_km rest).
    set (cs := total_cost a :: map total_cost rest).
    assert (Hlen : ~ len (a :: rest) == 0) by apply len_nonzero.
    assert (Hld : len ds = len (a :: rest))
      by (unfold ds; apply (len_map distance_km (a :: rest))).
    assert (Hlc : len cs = len (a :: rest))
      by (unfold cs; apply (len_map total_cost (a :: rest))).
    assert (Hb : Forall (fun d => fold_left Qmin (map distance_km rest) (distance_km a)
                                  <= d /\
                                  d <= fold_left Qmax (map distance_km rest)
                                         (distance_km a)) ds).
    { destruct (fold_min_le (map distance_km rest) (distance_km a)) as [H1 H2].
      destruct (fold_max_ge (map distance_km rest) (distance_km a)) as [H3 H4].
      constructor; [split; assumption|].
      rewrite Forall_forall in *. intros d Hd. split; [apply H2 | apply H4]; exact Hd. }
    split; [reflexivity|]. split; [reflexivity|]. split; [reflexivity|].
    split; [reflexivity|].
    split; [rewrite Hld; field; exact Hlen|].
    split; [exact Hb|].
    split; [apply (average_bounds Hb)|].
    split; [reflexivity|].
    split; [rewrite Hlc; field; exact Hlen|].
    split; [reflexivity|]. split; [reflexivity | exact Hu'].
Qed.

End Analysis.

(** X18. [analyze_assignments] returns exactly when every assignment names
    an order of the list; when one does not, the search for its volume
    ends the generator and the call raises [RuntimeError].  Nothing
    else is raised, for any trucks, orders and assignments. *)
Theorem analysis_raises_on_unknown_order (assignments : list Assignment)
    (trucks : list Truck) (orders : list Order) (unassigned : list nat) :
  (Forall (fun a => In (a_order_id a) (map order_id orders)) assignments <->
   exists analysis,
     analyze_assignments assignments trucks orders unassigned = Ok analysis) /\
  (Exists (fun a => ~ In (a_order_id a) (map order_id orders)) assignments <->
   analyze_assignments assignments trucks orders unassigned = Raise RuntimeError).
Proof.
  pose proof (analyze_assignments_cases assignments trucks orders unassigned) as Hc.
  destruct (assigned_volumes_cases orders assignments) as [[HF E]|[HE E]];
    rewrite E in Hc.
  - destruct Hc as (analysis & Ha & _). split; split.
    + intros _. exists analysis. exact Ha.
    + intros _. exact HF.
    + intros HE. exfalso. apply Exists_exists in HE.
      destruct HE as (a & Hin & Hn). rewrite Forall_forall in HF.
      apply Hn, HF, Hin.
    + intros H. rewrite Ha in H. discriminate.
  - split; split.
    + intros HF. exfalso. apply Exists_exists in HE.
      destruct HE as (a & Hin & Hn). rewrite Forall_forall in HF.
      apply Hn, HF, Hin.
    + intros (analysis & Ha). rewrite Hc in Ha. discriminate.
    + intros _. exact Hc.
    + intros _. exact HE.
Qed.



(** ** main: the loads across the strategies *)

Section Loads.
Variable calculate_distance : point -> point -> Q.
Variable trucks0 : list Truck.
Variable orders0 : list Order.
Hypothesis Htrucks : Forall valid_truck trucks0.
Hypothesis Horders : Forall valid_order orders0.
Hypothesis Htruck_ids : NoDup (map truck_id trucks0).
Hypothesis Horder_ids : NoDup (map order_id orders0).

Lemma greedy_nearest_loads :
  exists st,
    GreedyNearestStrategy_assign calculate_distance trucks0 orders0 = Ok st /\
    invariant trucks0 orders0 st /\ loads_within_capacity trucks0 orders0 st.
Proof.
  unfold GreedyNearestStrategy_assign.
  set (refs := stable_sort _ _).
  destruct (@greedy_loop_preserves calculate_distance trucks0 orders0
              Htrucks Horders (loads_accounted trucks0 orders0)
              (fun st ti t oi o s d =>
                 @commit_accounted trucks0 orders0 Htrucks Horders
                   Htruck_ids Horder_ids st ti oi t o s d)
              refs (initial_state trucks0 orders0)
              (initial_invariant orders0 Htrucks)
              (initial_accounted trucks0 orders0))
    as (st & Hst & Hinv & Hacc).
  exists st. split; [exact Hst|]. split; [exact Hinv|].
  apply accounted_within_capacity; assumption.
Qed.

Lemma priority_first_loads :
  exists st,
    PriorityFirstStrategy_assign calculate_distance trucks0 orders0 = Ok st /\
    invariant trucks0 orders0 st /\ loads_within_capacity trucks0 orders0 st.
Proof.
  unfold PriorityFirstStrategy_assign.
  set (refs := stable_sort _ _).
  destruct (@priority_loop_preserves calculate_distance trucks0 orders0
              Htrucks Horders (loads_accounted trucks0 orders0)
              (fun st ti t oi o s d =>
                 @commit_accounted trucks0 orders0 Htrucks Horders
                   Htruck_ids Horder_ids st ti oi t o s d)
              refs (initial_state trucks0 orders0)
              (initial_invariant orders0 Htrucks)
              (initial_accounted trucks0 orders0))
    as (st & Hst & Hinv & Hacc).
  exists st. split; [exact Hst|]. split; [exact Hinv|].
  apply accounted_within_capacity; assumption.
Qed.

Lemma state_trucks_valid (st : State) :
  invariant trucks0 orders0 st ->
  Forall valid_truck (trucks st) /\ map truck_id (trucks st) = map truck_id trucks0.
Proof.
  intros Hinv. pose proof (inv_trucks Hinv) as H.
  clear Hinv Htruck_ids. induction H as [|t0 t l0 l Hrel _ IH]; cbn [map].
  - split; [constructor | reflexivity].
  - inversion Htrucks as [|? ? Hv Hvs]; subst.
    destruct (IH Hvs) as [IH1 IH2].
    destruct Hrel as (Eid & Ecap & Hload & Hle).
    apply Truck_post_init_ok in Hv. destruct Hv as (H1 & H2 & H3).
    split; [|rewrite Eid, IH2; reflexivity].
    constructor; [|exact IH1].
    apply Truck_post_init_ok. rewrite Ecap.
    split; [exact H1|]. split; [Lqa.lra|]. rewrite <- Ecap. exact Hle.
Qed.

End Loads.

Lemma reset_assignment_valid (os : list Order) :
  Forall valid_order os -> Forall valid_order (map reset_assignment os).
Proof.
  intros H. apply Forall_map. apply (Forall_impl _ (fun o Ho => Ho) H).
Qed.

Lemma reset_assignment_ids (os : list Order) :
  map order_id (map reset_assignment os) = map order_id os.
Proof. rewrite map_map. reflexivity. Qed.

Lemma order_rel_reset (os : list Order) : Forall2 order_rel os (map reset_assignment os).
Proof.
  induction os as [|o os IH]; cbn [map]; constructor; [|exact IH].
  unfold order_rel. cbn. auto.
Qed.

Lemma order_rel_trans (l1 l2 l3 : list Order) :
  Forall2 order_rel l1 l2 -> Forall2 order_rel l2 l3 -> Forall2 order_rel l1 l3.
Proof.
  intros H. revert l3. induction H as [|a b l1 l2 (E1 & E2 & E3) _ IH]; intros l3 H3.
  - inversion H3. constructor.
  - inversion H3 as [|? c ? l3' (F1 & F2 & F3) Hrest]; subst.
    constructor; [|apply IH, Hrest].
    unfold order_rel. rewrite F1, F2, F3. auto.
Qed.

Lemma order_rel_valid_all (os os' : list Order) :
  Forall2 order_rel os os' -> Forall valid_order os ->
  Forall valid_order os' /\ map order_id os' = map order_id os.
Proof.
  induction 1 as [|o o' l l' (E1 & E2 & E3) _ IH]; intros Hv; cbn [map].
  - split; [constructor | reflexivity].
  - inversion Hv as [|? ? Ho Hl]; subst. destruct (IH Hl) as [IH1 IH2].
    split; [|rewrite E1, IH2; reflexivity].
    constructor; [|exact IH1].
    apply Order_post_init_ok. rewrite E2, E3. apply Order_post_init_ok, Ho.
Qed.

Lemma volume_of_same (os os' : list Order) (id : string) :
  Forall2 order_rel os os' -> volume_of os' id = volume_of os id.
Proof.
  induction 1 as [|o o' l l' (E1 & E2 & _) _ IH]; cbn [volume_of]; [reflexivity|].
  rewrite E1, E2, IH. reflexivity.
Qed.

Lemma assigned_volume_same (os os' : list Order) (asg : list Assignment)
    (id : string) :
  Forall2 order_rel os os' -> assigned_volume os' asg id = assigned_volume os asg id.
Proof.
  intros H. unfold assigned_volume. f_equal. apply map_ext.
  intros a. apply volume_of_same, H.
Qed.

Lemma len_map_nonzero {A B : Type} (f : A -> B) (l : list A) :
  l <> [] -> ~ len (map f l) == 0.
Proof.
  destruct l as [|x l]; [congruence|]. intros _. cbn [map]. apply len_nonzero.
Qed.



End ArchiveMore.

(** ** The truck rows of the result files *)

Module DispoRows.
Import Py PyFacts Dispo DispoFacts.
Local Open Scope Q_scope.

(** What [truck_utilization] holds for [id], given the assignments. *)
Local Abbreviation entry_agrees res id :=
  (match dict_get (truck_utilization res) id with
   | Some u =>
       match details u with
       | Some d =>
           In d (assigned_orders_details res) /\ lkw_id d = id /\
           zugewiesener_auftrag u = Some (auftrag_id d)
       | None =>
           zugewiesener_auftrag u = None /\
           forall d, In d (assigned_orders_details res) -> lkw_id d <> id
       end
   | None => forall d, In d (assigned_orders_details res) -> lkw_id d <> id
   end).

Lemma initial_utilization (truck_list : list Truck) (d0 : dict string Utilization)
    (id : string) :
  let d := fold_left
             (fun d truck =>
                dict_set d (truck_id truck)
                  {| zugewiesener_auftrag := None; details := None |})
             truck_list d0 in
  (dict_get d id = dict_get d0 id \/
   dict_get d id = Some {| zugewiesener_auftrag := None; details := None |}) /\
  ((In id (map truck_id truck_list) \/ dict_mem d0 id = true) ->
   dict_mem d id = true).
Proof.
  revert d0. induction truck_list as [|t ts IH]; intros d0; cbn [fold_left map In].
  - split; [left; reflexivity | intros [[]|H]; exact H].
  - cbv zeta in *. destruct (IH (dict_set d0 (truck_id t)
                                   {| zugewiesener_auftrag := None;
                                      details := None |})) as [H1 H2].
    split.
    + destruct H1 as [H1|H1]; [|right; exact H1].
      rewrite H1, dict_get_set. destruct (keqb id (truck_id t)); auto.
    + intros H. apply H2. rewrite dict_mem_set.
      destruct H as [[E|H]|H].
      * right. rewrite <- E, keqb_refl. reflexivity.
      * left. exact H.
      * right. rewrite H. apply orb_true_r.
Qed.

Section Rows.
Variable truck_list : list Truck.
Variable order_list : list Order.
Variable pairs : dict pair_key PairValues.

Local Abbreviation step := (extract_step truck_list order_list pairs).

Lemma extract_step_entries (res : Results) (k : pair_key) :
  (forall id, entry_agrees res id) ->
  (forall id, entry_agrees (step res k) id) /\
  (forall id, dict_mem (truck_utilization res) id = true ->
              dict_mem (truck_utilization (step res k)) id = true).
Proof.
  intros H. unfold extract_step.
  destruct (lookup_assignment truck_list order_list pairs k)
    as [[[[v t] r] o]|]; [|split; [exact H | auto]].
  cbn [truck_utilization assigned_orders_details]. split.
  - intros id. rewrite dict_get_set.
    destruct (keqb id (fst k)) eqn:E.
    + apply keqb_eq in E. subst id. cbn [details zugewiesener_auftrag].
      split; [apply in_or_app; right; left; reflexivity|].
      destruct k. split; reflexivity.
    + apply keqb_neq in E. specialize (H id).
      assert (Hnew : lkw_id (make_detail k v t o) <> id)
        by (destruct k; cbn in *; congruence).
      destruct (dict_get (truck_utilization res) id) as [u|].
      * destruct (details u) as [d|].
        -- destruct H as (H1 & H2 & H3).
           split; [apply in_or_app; left; exact H1 | auto].
        -- destruct H as (H1 & H2). split; [exact H1|].
           intros d Hd. apply in_app_or in Hd.
           destruct Hd as [Hd|[<-|[]]]; [apply H2, Hd | exact Hnew].
      * intros d Hd. apply in_app_or in Hd.
        destruct Hd as [Hd|[<-|[]]]; [apply H, Hd | exact Hnew].
  - intros id Hm. rewrite dict_mem_set, Hm. apply orb_true_r.
Qed.

Lemma extract_loop_entries (keys : list pair_key) (res : Results) :
  (forall id, entry_agrees res id) ->
  (forall id, entry_agrees (fold_left step keys res) id) /\
  (forall id, dict_mem (truck_utilization res) id = true ->
              dict_mem (truck_utilization (fold_left step keys res)) id = true).
Proof.
  revert res. induction keys as [|k keys IH]; intros res H; cbn [fold_left].
  - auto.
  - destruct (@extract_step_entries res k H) as [H1 H2].
    destruct (IH _ H1) as [H3 H4]. split; [exact H3|].
    intros id Hm. apply H4, H2, Hm.
Qed.

Lemma results_entries (prob : LpProblem) (varValue : solution)
    (x_vars : list pair_key) (status : LpStatus) :
  let res := extract_and_show_results prob varValue x_vars truck_list order_list
               pairs status in
  (forall id, entry_agrees res id) /\
  (forall id, In id (map truck_id truck_list) ->
              dict_mem (truck_utilization res) id = true).
Proof.
  cbv zeta.
  set (u0 := fold_left
               (fun d truck =>
                  dict_set d (truck_id truck)
                    {| zugewiesener_auftrag := None; details := None |})
               truck_list []).
  assert (Hstart : forall id,
             match dict_get u0 id with
             | Some u =>
                 match details u with
                 | Some d =>
                     In d (@nil Detail) /\ lkw_id d = id /\
                     zugewiesener_auftrag u = Some (auftrag_id d)
                 | None =>
                     zugewiesener_auftrag u = None /\
                     forall d, In d (@nil Detail) -> lkw_id d <> id
                 end
             | None => forall d, In d (@nil Detail) -> lkw_id d <> id
             end).
  { intros id.
    destruct (initial_utilization truck_list [] id) as [[E|E] _];
      cbv zeta in E; fold u0 in E; rewrite E; cbn;
      [intros d [] | split; [reflexivity | intros d []]]. }
  assert (Hmem : forall id, In id (map truck_id truck_list) -> dict_mem u0 id = true).
  { intros id Hin. apply (initial_utilization truck_list [] id). left. exact Hin. }
  unfold extract_and_show_results. fold u0.
  destruct status; cbn [truck_utilization assigned_orders_details];
    try (split; [exact Hstart | exact Hmem]);
    (match goal with |- context [fold_left ?f ?keys ?r] =>
       destruct (@extract_loop_entries keys r) as [H1 H2];
         [exact Hstart|] end;
     split;
     [ intros id; specialize (H1 id);
       destruct (dict_get _ id) as [u|];
       [ destruct (details u) as [d|];
         [ destruct H1 as (Ha & Hb & Hc); split;
           [ apply (Permutation_in _ (stable_sort_perm detail_leb _) Ha) | auto ]
         | destruct H1 as (Ha & Hb); split; [exact Ha|];
           intros d Hd; apply Hb;
           apply (Permutation_in _ (Permutation_sym (stable_sort_perm detail_leb _)) Hd) ]
       | intros d Hd; apply H1;
         apply (Permutation_in _ (Permutation_sym (stable_sort_perm detail_leb _)) Hd) ]
     | intros id Hin; apply H2, Hmem, Hin ]).
Qed.


End Rows.

End DispoRows.

(** ** The greedy strategies: the figures of the assignments *)

Module ArchiveFigures.
Import Py PyFacts Archive ArchiveFacts ArchiveMore.
Local Open Scope Q_scope.

Lemma utilization_in_range (t : Truck) :
  valid_truck t -> 0 <= utilization_percent t /\ utilization_percent t <= 100.
Proof.
  intros Hv. apply Truck_post_init_ok in Hv. destruct Hv as (Hc & Hl & Hle).
  unfold utilization_percent.
  assert (E : Qltb 0 (capacity t) = true) by (apply Qltb_lt; exact Hc).
  rewrite E.
  assert (H0 : 0 <= current_load t / capacity t)
    by (apply Qle_shift_div_l; [exact Hc | Lqa.lra]).
  assert (H1 : current_load t / capacity t <= 1)
    by (apply Qle_shift_div_r; [exact Hc | Lqa.lra]).
  split; Lqa.lra.
Qed.

Section Figures.
Variable calculate_distance : point -> point -> Q.

Local Abbreviation score_of := (calculate_assignment_score calculate_distance).

(** What a score that was returned holds. *)
Lemma score_details (t : Truck) (o : Order) (s : Q) (d : ScoreDetails) :
  score_of t o = Ok (s, d) ->
  let distance := calculate_distance (position t) (pickup_position o) in
  raw_distance_km d = distance /\
  travel_time_hours d = estimate_travel_time distance default_avg_speed_kmh /\
  s == cost distance t o.
Proof.
  unfold Archive.calculate_assignment_score, py_div.
  destruct (Qeq_bool (capacity t) 0); [discriminate|]. cbn [bind].
  destruct (Qeq_bool (deadline_hours o) 0); [discriminate|]. cbn [bind].
  intros [= <- <-]. cbv zeta. cbn [raw_distance_km travel_time_hours].
  split; [reflexivity|]. split; [reflexivity|].
  unfold cost, priorityScore. ring.
Qed.

Variable trucks0 : list Truck.
Variable orders0 : list Order.
Hypothesis Htrucks : Forall valid_truck trucks0.
Hypothesis Horders : Forall valid_order orders0.

Local Abbreviation invariant := (invariant trucks0 orders0).
Local Abbreviation figured st :=
  (Forall2 same_truck trucks0 (trucks st) /\
   Forall2 same_order orders0 (orders st) /\
   Forall (fun a => exists truck order,
                      In truck trucks0 /\ In order orders0 /\
                      figures (calculate_distance (position truck)
                                 (pickup_position order)) truck order a)
     (assignments st)).

Lemma initial_figured : figured (initial_state trucks0 orders0).
Proof.
  cbn [initial_state trucks orders assignments].
  split; [|split; [|constructor]].
  - apply Forall2_refl_on. intros t _. unfold same_truck. auto.
  - apply Forall2_refl_on. intros o _. unfold same_order. auto 10.
Qed.

Lemma commit_figured (st : State) (ti oi : nat) (t : Truck) (o : Order)
    (s : Q) (d : ScoreDetails) :
  figured st ->
  nth_error (trucks st) ti = Some t -> nth_error (orders st) oi = Some o ->
  score_of t o = Ok (s, d) ->
  figured (commit st ti t oi o s d).
Proof.
  intros (Hts & Hos & Has) Ht Ho Hs.
  destruct (Forall2_nth_error _ Hts Ht) as (t0 & Ht0 & (T1 & T2 & T3 & T4 & T5)).
  destruct (Forall2_nth_error _ Hos Ho)
    as (o0 & Ho0 & (O1 & O2 & O3 & O4 & O5 & O6)).
  destruct (@score_details t o s d Hs) as (D1 & D2 & D3). cbv zeta in D1, D2, D3.
  assert (Epos : position t = position t0)
    by (unfold position; rewrite T2, T3; reflexivity).
  assert (Epick : pickup_position o = pickup_position o0)
    by (unfold pickup_position; rewrite O2, O3; reflexivity).
  cbn [commit trucks orders assignments].
  split; [|split].
  - apply Forall2_list_update; [exact Hts|].
    intros x0 x H0 H1 Hr. assert (x = t) by congruence. subst x.
    unfold same_truck, add_load in *. cbn. exact Hr.
  - apply Forall2_list_update; [exact Hos|].
    intros x0 x H0 H1 Hr. unfold same_order, set_assigned_truck in *. cbn. exact Hr.
  - apply Forall_app. split; [exact Has|]. constructor; [|constructor].
    exists t0, o0.
    split; [apply (nth_error_In _ _ Ht0)|].
    split; [apply (nth_error_In _ _ Ho0)|].
    unfold figures. cbn [a_truck_id a_order_id distance_km estimated_duration
                         total_cost score].
    rewrite <- Epos, <- Epick.
    split; [exact T1|]. split; [exact O1|]. split; [exact D1|].
    split; [rewrite D2; reflexivity|].
    split; [rewrite D1, T5; reflexivity|].
    rewrite D3. unfold cost, priorityScore, priority_score.
    rewrite T4, O4, O5, O6. reflexivity.
Qed.

Lemma priority_loop_figured (refs : list nat) (st : State) :
  invariant st -> figured st ->
  exists st',
    priority_loop calculate_distance refs st = Ok st' /\
    invariant st' /\ figured st'.
Proof.
  revert st. induction refs as [|oi refs IH]; intros st Hinv Hfig;
    cbn [priority_loop].
  - exists st. auto.
  - destruct (nth_error (orders st) oi) as [o|] eqn:Eo.
    + destruct (@priority_step_full calculate_distance trucks0 orders0
                  Htrucks Horders st oi o Hinv Eo)
        as [[Hstep _]|(ti & t & s & d & Hstep & Ht & Hc & Hs)];
        rewrite Hstep; cbn [bind].
      * apply IH; assumption.
      * apply IH.
        -- apply (commit_invariant Htrucks Horders); assumption.
        -- apply commit_figured; assumption.
    + assert (Hstep : priority_step calculate_distance st oi = Ok st)
        by (unfold priority_step; rewrite Eo; reflexivity).
      rewrite Hstep. cbn [bind]. apply IH; assumption.
Qed.

Lemma greedy_loop_figured (refs : list nat) (st : State) :
  invariant st -> figured st ->
  exists st',
    greedy_loop calculate_distance refs st = Ok st' /\
    invariant st' /\ figured st'.
Proof.
  revert st. induction refs as [|ti refs IH]; intros st Hinv Hfig;
    cbn [greedy_loop].
  - exists st. auto.
  - destruct (nth_error (trucks st) ti) as [t|] eqn:Et.
    + destruct (@greedy_step_full calculate_distance trucks0 orders0
                  Htrucks Horders st ti t Hinv Et)
        as [[Hstep _]|(oi & o & s & d & Hstep & Hoi & Ho & Hc & Hs)];
        rewrite Hstep; cbn [bind].
      * apply IH; assumption.
      * apply IH.
        -- apply (commit_invariant Htrucks Horders); assumption.
        -- apply commit_figured; assumption.
    + assert (Hstep : greedy_step calculate_distance st ti = Ok st)
        by (unfold greedy_step; rewrite Et; reflexivity).
      rewrite Hstep. cbn [bind]. apply IH; assumption.
Qed.

End Figures.

Lemma cost_per_hour_figures (distance : Q) (truck : Truck) (order : Order)
    (a : Assignment) :
  figures distance truck order a ->
  cost_per_hour a
  == if Qltb 0 distance then default_avg_speed_kmh * cost_per_km truck else 0.
Proof.
  intros (_ & _ & _ & Ed & Ec & _). unfold cost_per_hour. rewrite Ed, Ec.
  unfold estimate_travel_time, default_avg_speed_kmh.
  assert (E50 : Qltb 0 50 = true) by reflexivity. rewrite E50.
  destruct (Qltb 0 distance) eqn:E.
  - apply Qltb_lt in E.
    assert (E' : Qltb 0 (distance / 50) = true).
    { apply Qltb_lt. apply Qlt_shift_div_l; [reflexivity | Lqa.lra]. }
    rewrite E'. field. intros H. rewrite H in E. discriminate E.
  - apply Qltb_ge in E.
    assert (E' : Qltb 0 (distance / 50) = false).
    { apply Qltb_ge. apply Qle_shift_div_r; [reflexivity | Lqa.lra]. }
    rewrite E'. reflexivity.
Qed.

Section FigureOutcomes.
Variable calculate_distance : point -> point -> Q.
Variable trucks0 : list Truck.
Variable orders0 : list Order.
Hypothesis Htrucks : Forall valid_truck trucks0.
Hypothesis Horders : Forall valid_order orders0.

Local Abbreviation figure_ok a :=
  (exists truck order,
      In truck trucks0 /\ In order orders0 /\
      figures (calculate_distance (position truck) (pickup_position order))
        truck order a /\
      cost_per_hour a
      == if Qltb 0 (distance_km a)
         then default_avg_speed_kmh * cost_per_km truck else 0).

Lemma figured_all (st : State) :
  Forall (fun a => exists truck order,
                     In truck trucks0 /\ In order orders0 /\
                     figures (calculate_distance (position truck)
                                (pickup_position order)) truck order a)
    (assignments st) ->
  Forall (fun a => figure_ok a) (assignments st).
Proof.
  apply Forall_impl. intros a (t & o & Ht & Ho & Hf).
  exists t, o. split; [exact Ht|]. split; [exact Ho|]. split; [exact Hf|].
  rewrite (cost_per_hour_figures Hf).
  destruct Hf as (_ & _ & -> & _). reflexivity.
Qed.


Lemma average_utilization_in_range (trucks : list Truck) :
  Forall valid_truck trucks ->
  let utils := map utilization_percent trucks in
  let avg := match utils with
             | [] => 0
             | _ :: _ => Qsum utils / len utils
             end in
  0 <= avg /\ avg <= 100.
Proof.
  intros Hv. cbv zeta.
  assert (Hb : Forall (fun u => 0 <= u /\ u <= 100) (map utilization_percent trucks)).
  { apply Forall_map. apply (Forall_impl _ utilization_in_range Hv). }
  destruct (map utilization_percent trucks) as [|x xs].
  - split; [apply Qle_refl | discriminate].
  - apply (average_bounds Hb).
Qed.


End FigureOutcomes.



End ArchiveFigures.

(** ** The greedy strategies: the order of the assignments *)

Module ArchiveOrder.
Import Py PyFacts Archive ArchiveFacts ArchiveMore.
Local Open Scope Q_scope.

Lemma StronglySorted_remove {A : Type} (R : A -> A -> Prop) (l l' : list A) (x : A) :
  StronglySorted R (l ++ x :: l') -> StronglySorted R (l ++ l').
Proof.
  induction l as [|y l IH]; cbn [app]; intros H.
  - inversion H; assumption.
  - inversion H as [|? ? Hs Hall]; subst. constructor; [apply IH, Hs|].
    apply Forall_app in Hall. destruct Hall as [H1 H2].
    apply Forall_app. split; [exact H1|]. inversion H2; assumption.
Qed.

(** [priority_order.index] *)
Local Abbreviation by_priority :=
  (fun x y : Order =>
     (priority_index (priority x) <= priority_index (priority y))%nat).

(** [available_capacity], the larger first *)
Local Abbreviation by_capacity :=
  (fun x y : Truck => available_capacity y <= available_capacity x).

Local Abbreviation trucks_at ts refs :=
  (flat_map (fun r => match nth_error ts r with
                      | Some t => [t]
                      | None => []
                      end) refs).

Lemma priority_leb_total (os : list Order) (a b : nat) :
  priority_leb os a b = true \/ priority_leb os b a = true.
Proof.
  unfold priority_leb.
  destruct (nth_error os a), (nth_error os b); auto.
  rewrite !Nat.leb_le. lia.
Qed.

Lemma capacity_geb_total (ts : list Truck) (a b : nat) :
  capacity_geb ts a b = true \/ capacity_geb ts b a = true.
Proof.
  unfold capacity_geb.
  destruct (nth_error ts a) as [x|], (nth_error ts b) as [y|]; auto.
  rewrite !Qle_bool_iff.
  destruct (Qlt_le_dec (available_capacity x) (available_capacity y)) as [H|H];
    [right; apply Qlt_le_weak, H | left; exact H].
Qed.

Lemma sorted_orders_at (os : list Order) (refs : list nat) :
  Forall (fun r => (r < List.length os)%nat) refs ->
  Sorted (fun a b => priority_leb os a b = true) refs ->
  StronglySorted by_priority (orders_at os refs).
Proof.
  intros Hall Hs. apply Sorted_StronglySorted; [intros x y z; cbn; lia|].
  induction Hs as [|r refs Hs IH Hh]; [constructor|].
  inversion Hall as [|? ? Hr Hall']; subst.
  unfold orders_at. cbn [flat_map]. fold (orders_at os refs).
  destruct (nth_error os r) as [o|] eqn:En;
    [|apply nth_error_None in En; lia].
  cbn [app]. constructor; [apply IH, Hall'|].
  destruct Hh as [|r' refs' Hrr']; [constructor|].
  inversion Hall' as [|? ? Hr' _]; subst.
  unfold orders_at. cbn [flat_map].
  destruct (nth_error os r') as [o'|] eqn:En';
    [|apply nth_error_None in En'; lia].
  cbn [app]. constructor.
  unfold priority_leb in Hrr'. rewrite En, En' in Hrr'.
  apply Nat.leb_le, Hrr'.
Qed.

Lemma sorted_trucks_at (ts : list Truck) (refs : list nat) :
  Forall (fun r => (r < List.length ts)%nat) refs ->
  Sorted (fun a b => capacity_geb ts a b = true) refs ->
  StronglySorted by_capacity (trucks_at ts refs).
Proof.
  intros Hall Hs.
  apply Sorted_StronglySorted;
    [intros x y z H1 H2; apply (Qle_trans _ _ _ H2 H1)|].
  induction Hs as [|r refs Hs IH Hh]; [constructor|].
  inversion Hall as [|? ? Hr Hall']; subst.
  cbn [flat_map].
  destruct (nth_error ts r) as [t|] eqn:En;
    [|apply nth_error_None in En; lia].
  cbn [app]. constructor; [apply IH, Hall'|].
  destruct Hh as [|r' refs' Hrr']; [constructor|].
  inversion Hall' as [|? ? Hr' _]; subst.
  cbn [flat_map].
  destruct (nth_error ts r') as [t'|] eqn:En';
    [|apply nth_error_None in En'; lia].
  cbn [app]. constructor.
  unfold capacity_geb in Hrr'. rewrite En, En' in Hrr'.
  apply Qle_bool_iff, Hrr'.
Qed.

Section Order.
Variable calculate_distance : point -> point -> Q.
Variable trucks0 : list Truck.
Variable orders0 : list Order.
Hypothesis Htrucks : Forall valid_truck trucks0.
Hypothesis Horders : Forall valid_order orders0.

Local Abbreviation invariant := (invariant trucks0 orders0).
Local Abbreviation names_order :=
  (fun (o : Order) (a : Assignment) => In o orders0 /\ order_id o = a_order_id a).
Local Abbreviation names_truck :=
  (fun (t : Truck) (a : Assignment) => In t trucks0 /\ truck_id t = a_truck_id a).

Lemma priority_loop_ordered (refs : list nat) :
  forall (st : State) (os : list Order),
    invariant st ->
    Forall2 names_order os (assignments st) ->
    StronglySorted by_priority (os ++ orders_at orders0 refs) ->
    exists st' os',
      priority_loop calculate_distance refs st = Ok st' /\
      Forall2 names_order os' (assignments st') /\
      StronglySorted by_priority os'.
Proof.
  induction refs as [|oi refs IH]; intros st os Hinv Hnames Hs;
    cbn [priority_loop].
  - exists st, os. unfold orders_at in Hs. cbn [flat_map] in Hs.
    rewrite app_nil_r in Hs. auto.
  - unfold orders_at in Hs. cbn [flat_map] in Hs. fold (orders_at orders0 refs) in Hs.
    destruct (nth_error (orders st) oi) as [o|] eqn:Eo.
    + destruct (state_order Horders oi Hinv Eo) as (o0 & Ho0 & Hin0 & (Eid & _) & _).
      rewrite Ho0 in Hs. cbn [app] in Hs.
      destruct (@priority_step_full calculate_distance trucks0 orders0
                  Htrucks Horders st oi o Hinv Eo)
        as [[Hstep _]|(ti & t & s & d & Hstep & Ht & Hc & _)];
        rewrite Hstep; cbn [bind].
      * apply (IH st os Hinv Hnames). apply (StronglySorted_remove _ _ _ Hs).
      * apply (IH (commit st ti t oi o s d) (os ++ [o0])).
        -- apply (commit_invariant Htrucks Horders); assumption.
        -- cbn [commit assignments]. apply Forall2_app; [exact Hnames|].
           constructor; [|constructor]. cbn. auto.
        -- rewrite <- app_assoc. exact Hs.
    + assert (Hstep : priority_step calculate_distance st oi = Ok st)
        by (unfold priority_step; rewrite Eo; reflexivity).
      rewrite Hstep. cbn [bind].
      apply (IH st os Hinv Hnames).
      destruct (nth_error orders0 oi) as [o0|]; [|exact Hs].
      apply (StronglySorted_remove _ _ _ Hs).
Qed.

Lemma greedy_loop_ordered (refs : list nat) :
  forall (st : State) (ts : list Truck),
    invariant st ->
    Forall2 names_truck ts (assignments st) ->
    StronglySorted by_capacity (ts ++ trucks_at trucks0 refs) ->
    exists st' ts',
      greedy_loop calculate_distance refs st = Ok st' /\
      Forall2 names_truck ts' (assignments st') /\
      StronglySorted by_capacity ts'.
Proof.
  induction refs as [|ti refs IH]; intros st ts Hinv Hnames Hs;
    cbn [greedy_loop].
  - exists st, ts. cbn [flat_map] in Hs. rewrite app_nil_r in Hs. auto.
  - cbn [flat_map] in Hs.
    destruct (nth_error (trucks st) ti) as [t|] eqn:Et.
    + destruct (state_truck Htrucks ti Hinv Et) as (t0 & Ht0 & Hin0 & (Eid & _) & _).
      rewrite Ht0 in Hs. cbn [app] in Hs.
      destruct (@greedy_step_full calculate_distance trucks0 orders0
                  Htrucks Horders st ti t Hinv Et)
        as [[Hstep _]|(oi & o & s & d & Hstep & Hoi & Ho & Hc & _)];
        rewrite Hstep; cbn [bind].
      * apply (IH st ts Hinv Hnames). apply (StronglySorted_remove _ _ _ Hs).
      * apply (IH (commit st ti t oi o s d) (ts ++ [t0])).
        -- apply (commit_invariant Htrucks Horders); assumption.
        -- cbn [commit assignments]. apply Forall2_app; [exact Hnames|].
           constructor; [|constructor]. cbn. auto.
        -- rewrite <- app_assoc. exact Hs.
    + assert (Hstep : greedy_step calculate_distance st ti = Ok st)
        by (unfold greedy_step; rewrite Et; reflexivity).
      rewrite Hstep. cbn [bind].
      apply (IH st ts Hinv Hnames).
      destruct (nth_error trucks0 ti) as [t0|]; [|exact Hs].
      apply (StronglySorted_remove _ _ _ Hs).
Qed.

(** X24. [PriorityFirstStrategy.assign] lists its assignments by priority:
    the orders they name, in the order of the assignments, never go
    from a priority to a more urgent one (URGENT, HIGH, NORMAL, LOW). *)
Theorem priority_first_by_priority :
  exists st os,
    PriorityFirstStrategy_assign calculate_distance trucks0 orders0 = Ok st /\
    Forall2 (fun o a => In o orders0 /\ order_id o = a_order_id a)
      os (assignments st) /\
    StronglySorted
      (fun x y => (priority_index (priority x) <= priority_index (priority y))%nat)
      os.
Proof.
  unfold PriorityFirstStrategy_assign.
  apply (@priority_loop_ordered _ (initial_state trucks0 orders0) []
           (initial_invariant orders0 Htrucks)); [constructor|].
  cbn [app initial_state available_orders].
  apply sorted_orders_at.
  - apply Forall_forall. intros r Hr.
    apply (Permutation_in _ (Permutation_sym (stable_sort_perm _ _))) in Hr.
    apply unassigned_refs_spec in Hr. destruct Hr as (_ & o & Hn & _).
    rewrite Nat.sub_0_r in Hn. apply (nth_error_lt _ _ Hn).
  - apply PyMore.stable_sort_sorted, priority_leb_total.
Qed.


End Order.

Lemma priority_first_by_priority_witness :
  exists st os,
    PriorityFirstStrategy_assign Scenario.depot_distance_archive
      [Scenario.LKW1] [Scenario.AUF1; Scenario.AUF2; Scenario.AUF3] = Ok st /\
    Forall2 (fun o a => In o [Scenario.AUF1; Scenario.AUF2; Scenario.AUF3] /\
                        order_id o = a_order_id a)
      os (assignments st) /\
    StronglySorted
      (fun x y => (priority_index (priority x) <= priority_index (priority y))%nat)
      os.
Proof.
  apply (@priority_first_by_priority Scenario.depot_distance_archive
           [Scenario.LKW1] [Scenario.AUF1; Scenario.AUF2; Scenario.AUF3]);
    repeat constructor.
Defined.


End ArchiveOrder.
